(** * Drive automation tool: shallow embedding and verified properties

    The development follows the Python sources:
    - [utilities.py]     : [DriveUtilities] ([pattern_matches],
                           [extract_file_id_from_url], [get_mime_type],
                           [is_valid_path], [parse_schedule],
                           [generate_backup_path]);
    - [drive_manager.py] : [DriveManager] (retrying executor, listing, copy,
                           rename, delete, fan-out copy, batch command);
    - [gdrive_tool.py]   : [GDriveTool.execute_batch] (the loop over commands);
    - [auth.py]          : [DriveAuth] ([get_credentials],
                           [revoke_credentials]).

    Python strings are [string]; a dict with a fixed set of optional keys is
    a record of [option] fields; the JSON object of a command, whose values
    are strings, is a [gmap string string]; exceptions are an inductive
    type, and every function that can raise returns an [outcome].  The
    remote store is any state machine that answers requests; calls to it
    and sleeps are recorded in a trace.  Integers of the configuration
    ([batch_size], [max_retries], [retry_delay]) are in [Z].  Loops without
    a bound in the source ([while True], the recursion through folders)
    take fuel.  Logging and the progress bar do not change any result and
    are left out, except where formatting their message can raise. *)

From Stdlib Require Import ZArith Ascii String List Lia Bool DecimalString.
From Stdlib Require DecimalNat.
From stdpp Require Import base option list strings gmap.

Local Open Scope string_scope.
Local Open Scope list_scope.
Local Open Scope Z_scope.

(** ** Exceptions and outcomes *)

(** The exception classes that the code raises, catches or can meet.
    All of them are subclasses of Python's [Exception]; [HttpError] is the
    only one that [except HttpError] clauses catch.  [re.error] never
    escapes [pattern_matches] and is handled inside [PyLib.re_match]. *)
Inductive exn : Type :=
| HttpError (status : Z) (reason : string)
| ValueError (msg : string)
| KeyError (key : string)
| IndexError (msg : string)
| TypeError (msg : string)
| AttributeError (msg : string).

(** [str(e)].  For a [KeyError] Python prints the repr of the key. *)
Definition str_exn (e : exn) : string :=
  match e with
  | HttpError _ reason => reason
  | ValueError msg => msg
  | KeyError key => "'" +:+ key +:+ "'"
  | IndexError msg => msg
  | TypeError msg => msg
  | AttributeError msg => msg
  end.

Definition is_HttpError (e : exn) : bool :=
  match e with HttpError _ _ => true | _ => false end.

Inductive outcome (A : Type) : Type :=
| Return (a : A)
| Raise (e : exn).
Arguments Return {A} a.
Arguments Raise {A} e.

(** Python truthiness of an optional string: [None] and [''] are falsy. *)
Definition truthy (o : option string) : bool :=
  match o with
  | Some s => negb (String.eqb s "")
  | None => false
  end.

(** [o or ''] for an optional string. *)
Definition or_empty (o : option string) : string :=
  if truthy o then default "" o else "".

(** [s[n:]] *)
Fixpoint str_from (n : nat) (s : string) : string :=
  match n, s with
  | O, _ => s
  | S n', String _ s' => str_from n' s'
  | S _, EmptyString => EmptyString
  end.

(** ** The Python standard library, as an interface

    The functions below belong to the interpreter's library, not to the
    repository.  The general theorems hold for every implementation of this
    interface; [ref_lib] further down is a reference implementation used to
    evaluate the documented examples. *)
Record ParseResult := {
  url_path : string;
  url_query : string
}.

Record PyLib := {
  (** [bool(re.match(p, s))]; [None] when [re.error] is raised. *)
  re_match : string -> string -> option bool;
  (** [m = re.search(p, s)] for a well-formed [p] with one group:
      [Some (m.group(1))] on a match, [None] otherwise. *)
  re_search : string -> string -> option string;
  (** [fnmatch.fnmatch(name, pat)] *)
  fnmatch : string -> string -> bool;
  (** [urllib.parse.urlparse(url)], which raises [ValueError] on some
      malformed network locations. *)
  urlparse : string -> outcome ParseResult;
  (** [urllib.parse.parse_qs(query)]: a dict from names to value lists. *)
  parse_qs : string -> gmap string (list string);
  (** [os.path.splitext(name)] *)
  splitext : string -> string * string
}.

(** ** utilities.py *)

Section DriveUtilities.
Variable lib : PyLib.

(** [DriveUtilities.pattern_matches] *)
Definition pattern_matches (filename pattern : string) : bool :=
  if String.prefix "r:" pattern then
    let regex_pattern := str_from 2 pattern in
    match re_match lib regex_pattern filename with
    | Some m => m                         (* return bool(re.match(...)) *)
    | None => fnmatch lib filename pattern (* except re.error: pass *)
    end
  else fnmatch lib filename pattern.

(** The [patterns] list of [extract_file_id_from_url], in source order. *)
Definition patterns : list string :=
  [ "/file/d/([a-zA-Z0-9_-]+)";
    "/folders/([a-zA-Z0-9_-]+)";
    "id=([a-zA-Z0-9_-]+)";
    "/drive/([a-zA-Z0-9_-]+)" ].

(** The [for pattern in patterns] loop: first pattern that matches. *)
Fixpoint first_search (ps : list string) (path : string) : option string :=
  match ps with
  | [] => None
  | p :: ps' =>
      match re_search lib p path with
      | Some g => Some g
      | None => first_search ps' path
      end
  end.

(** [DriveUtilities.extract_file_id_from_url] *)
Definition extract_file_id_from_url (url : string) : outcome (option string) :=
  match urlparse lib url with
  | Raise e => Raise e
  | Return parsed_url =>
      match first_search patterns (url_path parsed_url) with
      | Some g => Return (Some g)
      | None =>
          let query_params := parse_qs lib (url_query parsed_url) in
          match query_params !! "id" with
          | Some (v :: _) => Return (Some v)
          | Some [] => Raise (IndexError "list index out of range")
          | None => Return None
          end
      end
  end.
End DriveUtilities.

(** ** The remote store and the effects of the manager *)

(** The requests that [DriveManager] builds with [self.service.files()].
    A body key that the code leaves out is [None]. *)
Inductive Request : Type :=
| FilesGet (fileId fields : string)
| FilesCopy (fileId : string) (parents name : option string)
| FilesCreate (name mimeType : string) (parents : option string)
| FilesList (q : string) (pageSize : option Z) (pageToken : option string)
    (fields : string)
| FilesUpdate (fileId name : string)
| FilesDelete (fileId : string).

(** An entry of a listing: a dict with the keys [id], [name], [mimeType];
    a key that the store left out is [None] and subscripting it raises
    [KeyError]. *)
Record Item := {
  item_id : option string;
  item_name : option string;
  item_mimeType : option string
}.

(** The dict that [request.execute()] returns. *)
Record Response := {
  resp_id : option string;
  resp_name : option string;
  resp_mimeType : option string;
  resp_files : option (list Item);
  resp_nextPageToken : option string
}.

(** What the store answers to one [request.execute()]: the response dict, or
    an HTTP failure, which the client library raises as [HttpError]. *)
Inductive reply : Type :=
| Ok (r : Response)
| Failed (status : Z) (reason : string).

(** The observable effects, in the order they happen. *)
Inductive event : Type :=
| EvExecute (req : Request) (rep : reply)
| EvSleep (secs : Z).

(** [self.config] of [DriveManager]. *)
Record DriveManager := {
  batch_size : Z;
  max_retries : Z;
  retry_delay : Z
}.

(** A command of [batch_commands.json] and the result dict built for it. *)
Inductive detail : Type :=
| DNewId (new_id : string)
| DRenamed (renamed_items : list (string * string))
| DDeleted (deleted_items : list string)
| DCopied (copied_files : list string).

Record CommandResult := {
  res_action : option string;
  res_status : string;
  res_details : option (list (string * detail));
  res_error : option string
}.

Definition getitem (key : string) (o : option string) : outcome string :=
  match o with
  | Some v => Return v
  | None => Raise (KeyError key)
  end.

(** [d[key]] where [d] is what [_execute_with_retry] returned, which can be
    [None]. *)
Definition subscript (d : option Response) (key : string)
    (field : Response -> option string) : outcome string :=
  match d with
  | None => Raise (TypeError "'NoneType' object is not subscriptable")
  | Some r => getitem key (field r)
  end.

Definition folder_mime : string := "application/vnd.google-apps.folder".

Section DriveManager.
Variable lib : PyLib.
Context {World : Type}.
(** The remote store: any state machine answering requests. *)
Variable execute : Request -> World -> reply * World.

Record State := {
  world : World;
  trace : list event
}.

(** A computation either finishes in a state, returning or raising, or
    ([None]) has not finished within the fuel given to its loops. *)
Definition M (A : Type) : Type := State -> option (outcome A * State).

Definition ret {A} (a : A) : M A := fun st => Some (Return a, st).
Definition raise {A} (e : exn) : M A := fun st => Some (Raise e, st).
Definition out_of_fuel {A} : M A := fun _ => None.

Definition lift {A} (o : outcome A) : M A :=
  match o with
  | Return a => ret a
  | Raise e => raise e
  end.

Definition bind {A B} (m : M A) (k : A -> M B) : M B :=
  fun st =>
    match m st with
    | None => None
    | Some (Return a, st') => k a st'
    | Some (Raise e, st') => Some (Raise e, st')
    end.

(** [try: m  except <class>: h], where [handles] tells the class. *)
Definition try_except {A} (m : M A) (handles : exn -> bool)
    (h : exn -> M A) : M A :=
  fun st =>
    match m st with
    | None => None
    | Some (Return a, st') => Some (Return a, st')
    | Some (Raise e, st') =>
        if handles e then h e st' else Some (Raise e, st')
    end.

Definition any_Exception (e : exn) : bool := true.

Notation "x <- c1 ;; c2" := (bind c1 (fun x => c2))
  (at level 100, c1 at next level, right associativity).
Notation "c1 ;;; c2" := (bind c1 (fun _ => c2))
  (at level 100, right associativity).

(** A [for] loop that threads an accumulator. *)
Fixpoint for_each {A B} (body : B -> A -> M B) (acc : B) (l : list A) : M B :=
  match l with
  | [] => ret acc
  | x :: l' => acc' <- body acc x ;; for_each body acc' l'
  end.

(** [request.execute()] *)
Definition request_execute (request : Request) : M Response :=
  fun st =>
    let (rep, w) := execute request (world st) in
    let st' := {| world := w; trace := trace st ++ [EvExecute request rep] |} in
    match rep with
    | Ok r => Some (Return r, st')
    | Failed status reason => Some (Raise (HttpError status reason), st')
    end.

(** [time.sleep(secs)], which refuses a negative length. *)
Definition time_sleep (secs : Z) : M unit :=
  fun st =>
    if secs <? 0 then
      Some (Raise (ValueError "sleep length must be non-negative"), st)
    else
      Some (Return tt, {| world := world st; trace := trace st ++ [EvSleep secs] |}).

Definition retryable (status : Z) : bool :=
  bool_decide (status ∈ [429; 500; 503]).

(** The [while retry_count < self.max_retries] loop of
    [_execute_with_retry].  [fuel] bounds the iterations; the loop needs at
    most [max_retries] of them (see [retry_loop_total]). *)
Fixpoint retry_loop (self : DriveManager) (request : Request) (fuel : nat)
    (retry_count : Z) : M (option Response) :=
  if retry_count <? max_retries self then
    match fuel with
    | O => out_of_fuel
    | S fuel' =>
        try_except
          (r <- request_execute request ;; ret (Some r))
          is_HttpError
          (fun error =>
             match error with
             | HttpError status _ =>
                 if retryable status then
                   let retry_count := retry_count + 1 in
                   if retry_count =? max_retries self then raise error
                   else
                     let wait_time := 2 ^ retry_count * retry_delay self in
                     time_sleep wait_time ;;;
                     retry_loop self request fuel' retry_count
                 else raise error
             | _ => raise error
             end)
    end
  else ret None.

(** [DriveManager._execute_with_retry] *)
Definition _execute_with_retry (self : DriveManager) (request : Request)
    : M (option Response) :=
  retry_loop self request (Z.to_nat (max_retries self)) 0.

Definition metadata_fields : string :=
  "id, name, mimeType, parents, size, modifiedTime".
Definition listing_fields : string :=
  "nextPageToken, files(id, name, mimeType)".

(** [DriveManager.get_file_metadata]: logs an [HttpError] and re-raises. *)
Definition get_file_metadata (self : DriveManager) (file_id : string)
    : M (option Response) :=
  try_except
    (_execute_with_retry self (FilesGet file_id metadata_fields))
    is_HttpError
    (fun error => raise error).

(** The [while True] loop of [list_folder_contents]. *)
Fixpoint list_pages (self : DriveManager) (folder_id : string) (fuel : nat)
    (items : list Item) (page_token : option string) : M (list Item) :=
  match fuel with
  | O => out_of_fuel
  | S fuel' =>
      results <- _execute_with_retry self
        (FilesList ("'" +:+ folder_id +:+ "' in parents")
           (Some (batch_size self)) page_token listing_fields) ;;
      match results with
      | None => raise (AttributeError "'NoneType' object has no attribute 'get'")
      | Some results =>
          let items := items ++ default [] (resp_files results) in
          let page_token := resp_nextPageToken results in
          if truthy page_token then
            list_pages self folder_id fuel' items page_token
          else ret items
      end
  end.

(** [DriveManager.list_folder_contents] *)
Definition list_folder_contents (self : DriveManager) (fuel : nat)
    (folder_id : string) : M (list Item) :=
  list_pages self folder_id fuel [] None.

(** [x if x else None], for a body key set only when [x] is truthy. *)
Definition if_truthy (o : option string) : option string :=
  if truthy o then o else None.

(** [DriveManager._copy_file] *)
Definition _copy_file (self : DriveManager) (file_id : string)
    (parent_id new_name : option string) : M string :=
  copied_file <- _execute_with_retry self
    (FilesCopy file_id (if_truthy parent_id) (if_truthy new_name)) ;;
  lift (subscript copied_file "id" resp_id).

(** The body of the [for item in items] loop of [_copy_folder]; nothing
    around the call catches. *)
Definition copy_child (copy_drive_item : string -> option string ->
      option string -> M string)
    (new_folder_id : string) (_ : unit) (item : Item) : M unit :=
  id <- lift (getitem "id" (item_id item)) ;;
  copy_drive_item id (Some new_folder_id) None ;;;
  ret tt.

(** The first half of [_copy_folder] ("Create the new folder"): it yields
    [folder_metadata] and [new_folder_id]. *)
Definition create_new_folder (self : DriveManager) (folder_id : string)
    (parent_id new_name : option string) : M (option Response * string) :=
  folder_metadata <- get_file_metadata self folder_id ;;
  name <- (if truthy new_name then ret (default "" new_name)
           else lift (subscript folder_metadata "name" resp_name)) ;;
  created_folder <- _execute_with_retry self
    (FilesCreate name folder_mime (if_truthy parent_id)) ;;
  new_folder_id <- lift (subscript created_folder "id" resp_id) ;;
  ret (folder_metadata, new_folder_id).

(** [DriveManager._copy_folder], with the recursive call as a parameter.
    The progress bar formats [folder_metadata['name']] once the listing is
    there and before the first child is copied. *)
Definition _copy_folder_with (copy_drive_item : string -> option string ->
      option string -> M string)
    (self : DriveManager) (fuel : nat) (folder_id : string)
    (parent_id new_name : option string) : M string :=
  created <- create_new_folder self folder_id parent_id new_name ;;
  let folder_metadata := fst created in
  let new_folder_id := snd created in
  items <- list_folder_contents self fuel folder_id ;;
  lift (subscript folder_metadata "name" resp_name) ;;;
  for_each (copy_child copy_drive_item new_folder_id) tt items ;;;
  ret new_folder_id.

(** [DriveManager.copy_drive_item]; [fuel] bounds the depth of the
    recursion through [_copy_folder] and the pages of each listing. *)
Fixpoint copy_drive_item (self : DriveManager) (fuel : nat) (item_id : string)
    (destination_folder_id new_name : option string) {struct fuel} : M string :=
  match fuel with
  | O => out_of_fuel
  | S fuel' =>
      try_except
        (metadata <- get_file_metadata self item_id ;;
         mime <- lift (subscript metadata "mimeType" resp_mimeType) ;;
         let is_folder := String.eqb mime folder_mime in
         if is_folder then
           _copy_folder_with (copy_drive_item self fuel') self fuel'
             item_id destination_folder_id new_name
         else _copy_file self item_id destination_folder_id new_name)
        any_Exception
        (fun e => raise e)
  end.

(** [DriveManager._copy_folder] *)
Definition _copy_folder (self : DriveManager) (fuel : nat) (folder_id : string)
    (parent_id new_name : option string) : M string :=
  _copy_folder_with (copy_drive_item self fuel) self fuel
    folder_id parent_id new_name.

(** The composed name of [batch_rename]:
    [f"{prefix or ''}{name}{suffix or ''}{ext}"]. *)
Definition new_name_of (prefix suffix : option string) (item_name : string)
    : string :=
  let '(name, ext) := splitext lib item_name in
  or_empty prefix +:+ name +:+ or_empty suffix +:+ ext.

(** The body of the [for item in items] loop of [batch_rename]. *)
Definition rename_item (self : DriveManager) (pattern : string)
    (prefix suffix : option string)
    (renamed_items : list (string * string)) (item : Item)
    : M (list (string * string)) :=
  name <- lift (getitem "name" (item_name item)) ;;
  if pattern_matches lib name pattern then
    let new_name := new_name_of prefix suffix name in
    try_except
      (id <- lift (getitem "id" (item_id item)) ;;
       _execute_with_retry self (FilesUpdate id new_name) ;;;
       ret (renamed_items ++ [(name, new_name)]))
      is_HttpError
      (fun e => ret renamed_items)
  else ret renamed_items.

(** [DriveManager.batch_rename] *)
Definition batch_rename (self : DriveManager) (fuel : nat)
    (folder_id pattern : string) (prefix suffix : option string)
    : M (list (string * string)) :=
  if negb (truthy prefix) && negb (truthy suffix) then
    raise (ValueError "Either prefix or suffix must be specified")
  else
    items <- list_folder_contents self fuel folder_id ;;
    for_each (rename_item self pattern prefix suffix) [] items.

(** The body of the loop of [delete_items]. *)
Definition delete_item (self : DriveManager) (pattern : string)
    (deleted_items : list string) (item : Item) : M (list string) :=
  name <- lift (getitem "name" (item_name item)) ;;
  if pattern_matches lib name pattern then
    try_except
      (id <- lift (getitem "id" (item_id item)) ;;
       _execute_with_retry self (FilesDelete id) ;;;
       ret (deleted_items ++ [name]))
      is_HttpError
      (fun e => ret deleted_items)
  else ret deleted_items.

(** [DriveManager.delete_items] *)
Definition delete_items (self : DriveManager) (fuel : nat)
    (folder_id pattern : string) : M (list string) :=
  items <- list_folder_contents self fuel folder_id ;;
  for_each (delete_item self pattern) [] items.

(** The body of the loop of [copy_to_subfolders].  Both the [try] block and
    the handler format [folder['name']] into a log message. *)
Definition copy_to_folder (self : DriveManager) (fuel : nat)
    (source_file_id : string) (copied_files : list string) (folder : Item)
    : M (list string) :=
  try_except
    (id <- lift (getitem "id" (item_id folder)) ;;
     copied_id <- copy_drive_item self fuel source_file_id (Some id) None ;;
     lift (getitem "name" (item_name folder)) ;;;
     ret (copied_files ++ [copied_id]))
    any_Exception
    (fun e =>
       lift (getitem "name" (item_name folder)) ;;;
       ret copied_files).

(** [DriveManager.copy_to_subfolders] *)
Definition copy_to_subfolders (self : DriveManager) (fuel : nat)
    (source_file_id folder_id : string) : M (list string) :=
  listing <- _execute_with_retry self
    (FilesList
       ("'" +:+ folder_id +:+
        "' in parents and mimeType='application/vnd.google-apps.folder'")
       None None "files(id, name)") ;;
  match listing with
  | None => raise (AttributeError "'NoneType' object has no attribute 'get'")
  | Some listing =>
      let subfolders := default [] (resp_files listing) in
      source_metadata <- get_file_metadata self source_file_id ;;
      lift (subscript source_metadata "name" resp_name) ;;;
      for_each (copy_to_folder self fuel source_file_id) [] subfolders
  end.

(** [DriveManager.parse_shared_link] *)
Definition parse_shared_link (url : string) : outcome string :=
  match extract_file_id_from_url lib url with
  | Raise e => Raise e
  | Return file_id =>
      if truthy file_id then Return (default "" file_id)
      else Raise (ValueError
                    "Invalid Google Drive URL or could not extract file ID")
  end.

(** [command[key]] *)
Definition getcmd (command : gmap string string) (key : string)
    : outcome string :=
  match command !! key with
  | Some v => Return v
  | None => Raise (KeyError key)
  end.

(** The [if action == ...] chain inside the [try] of
    [execute_batch_command]; it returns the [details] dict. *)
Definition dispatch (self : DriveManager) (fuel : nat) (action : string)
    (command : gmap string string) : M (list (string * detail)) :=
  if String.eqb action "copy" then
    source <- lift (getcmd command "source") ;;
    source_id <- lift (parse_shared_link source) ;;
    let dest_id := command !! "destination" in
    new_id <- copy_drive_item self fuel source_id dest_id None ;;
    ret [("new_id", DNewId new_id)]
  else if String.eqb action "rename" then
    folder_id <- lift (getcmd command "folder_id") ;;
    pattern <- lift (getcmd command "target") ;;
    let prefix := command !! "prefix" in
    let suffix := command !! "suffix" in
    renamed <- batch_rename self fuel folder_id pattern prefix suffix ;;
    ret [("renamed_items", DRenamed renamed)]
  else if String.eqb action "delete" then
    folder_id <- lift (getcmd command "folder_id") ;;
    pattern <- lift (getcmd command "pattern") ;;
    deleted <- delete_items self fuel folder_id pattern ;;
    ret [("deleted_items", DDeleted deleted)]
  else if String.eqb action "copy_to_subfolders" then
    source_id <- lift (getcmd command "source_id") ;;
    folder_id <- lift (getcmd command "folder_id") ;;
    copied <- copy_to_subfolders self fuel source_id folder_id ;;
    ret [("copied_files", DCopied copied)]
  else raise (ValueError ("Unknown action: " +:+ action)).

Definition success_result (action : string) (details : list (string * detail))
    : CommandResult :=
  {| res_action := Some action; res_status := "success";
     res_details := Some details; res_error := None |}.

Definition error_result (action : string) (e : exn) : CommandResult :=
  {| res_action := Some action; res_status := "error";
     res_details := Some []; res_error := Some (str_exn e) |}.

(** [DriveManager.execute_batch_command] *)
Definition execute_batch_command (self : DriveManager) (fuel : nat)
    (command : gmap string string) : M CommandResult :=
  let action := command !! "action" in
  if negb (truthy action) then
    raise (ValueError "Command must specify an 'action'")
  else
    let action := default "" action in
    try_except
      (details <- dispatch self fuel action command ;;
       ret (success_result action details))
      any_Exception
      (fun e => ret (error_result action e)).

(** ** gdrive_tool.py *)



End DriveManager.

(** ** A reference implementation of the library interface

    Regular expressions are compiled to a small algebra and matched with
    derivatives.  The concrete syntax covers literals, [.], escapes
    ([\d \w \s] and their complements, escaped punctuation), character sets
    with ranges and negation, groups, alternation and the postfix operators
    [*], [+], [?]; anything else is rejected like a malformed pattern. *)

Local Open Scope char_scope.

Inductive regex : Type :=
| Void
| Eps
| Cls (f : ascii -> bool)
| Cat (r1 r2 : regex)
| Alt (r1 r2 : regex)
| Star (r : regex).

(** The words of a regular expression. *)
Inductive lang : regex -> list ascii -> Prop :=
| lang_eps : lang Eps []
| lang_cls f a : f a = true -> lang (Cls f) [a]
| lang_cat r1 r2 u v : lang r1 u -> lang r2 v -> lang (Cat r1 r2) (u ++ v)
| lang_alt_l r1 r2 u : lang r1 u -> lang (Alt r1 r2) u
| lang_alt_r r1 r2 u : lang r2 u -> lang (Alt r1 r2) u
| lang_star_nil r : lang (Star r) []
| lang_star_app r u v : lang r u -> lang (Star r) v -> lang (Star r) (u ++ v).

Fixpoint nullable (r : regex) : bool :=
  match r with
  | Void => false
  | Eps => true
  | Cls _ => false
  | Cat r1 r2 => nullable r1 && nullable r2
  | Alt r1 r2 => nullable r1 || nullable r2
  | Star _ => true
  end.

Fixpoint deriv (a : ascii) (r : regex) : regex :=
  match r with
  | Void => Void
  | Eps => Void
  | Cls f => if f a then Eps else Void
  | Cat r1 r2 =>
      if nullable r1 then Alt (Cat (deriv a r1) r2) (deriv a r2)
      else Cat (deriv a r1) r2
  | Alt r1 r2 => Alt (deriv a r1) (deriv a r2)
  | Star r1 => Cat (deriv a r1) (Star r1)
  end.

(** The whole of [s] is a word of [r]. *)
Fixpoint accepts (r : regex) (s : list ascii) : bool :=
  match s with
  | [] => nullable r
  | a :: s' => accepts (deriv a r) s'
  end.

(** Some prefix of [s] is a word of [r]: a match that starts at position 0
    and may end anywhere. *)
Fixpoint accepts_prefix (r : regex) (s : list ascii) : bool :=
  nullable r ||
  match s with
  | [] => false
  | a :: s' => accepts_prefix (deriv a r) s'
  end.

Definition in_range (lo hi c : ascii) : bool :=
  (nat_of_ascii lo <=? nat_of_ascii c)%nat &&
  (nat_of_ascii c <=? nat_of_ascii hi)%nat.

Definition is_digit (c : ascii) : bool := in_range "0" "9" c.
Definition is_alpha (c : ascii) : bool := in_range "a" "z" c || in_range "A" "Z" c.
Definition is_word (c : ascii) : bool := is_alpha c || is_digit c || Ascii.eqb c "_".
Definition is_space (c : ascii) : bool :=
  Ascii.eqb c " " || in_range "009" "013" c.
Definition one_of (cs : string) (c : ascii) : bool :=
  existsb (Ascii.eqb c) (list_ascii_of_string cs).

(** What follows a backslash: a single character or a class. *)
Definition escape_member (e : ascii) : option (ascii + (ascii -> bool)) :=
  if Ascii.eqb e "d" then Some (inr is_digit)
  else if Ascii.eqb e "D" then Some (inr (fun c => negb (is_digit c)))
  else if Ascii.eqb e "w" then Some (inr is_word)
  else if Ascii.eqb e "W" then Some (inr (fun c => negb (is_word c)))
  else if Ascii.eqb e "s" then Some (inr is_space)
  else if Ascii.eqb e "S" then Some (inr (fun c => negb (is_space c)))
  else if Ascii.eqb e "n" then Some (inl "010")
  else if Ascii.eqb e "t" then Some (inl "009")
  else if Ascii.eqb e "r" then Some (inl "013")
  else if is_alpha e || is_digit e then None
  else Some (inl e).

Definition member_set (m : ascii + (ascii -> bool)) : ascii -> bool :=
  match m with
  | inl c => Ascii.eqb c
  | inr f => f
  end.

Definition parse_member (s : list ascii)
    : option ((ascii + (ascii -> bool)) * list ascii) :=
  match s with
  | [] => None
  | c :: s1 =>
      if Ascii.eqb c "\" then
        match s1 with
        | [] => None
        | e :: s2 => option_map (fun m => (m, s2)) (escape_member e)
        end
      else Some (inl c, s1)
  end.

(** The members of a character set, up to the closing bracket. *)
Fixpoint parse_class (fuel : nat) (first : bool) (acc : ascii -> bool)
    (s : list ascii) : option ((ascii -> bool) * list ascii) :=
  match fuel with
  | O => None
  | S fuel' =>
      match s with
      | [] => None
      | c :: s1 =>
          if Ascii.eqb c "]" && negb first then Some (acc, s1)
          else
            match parse_member s with
            | None => None
            | Some (lo, s2) =>
                match s2 with
                | d :: s3 =>
                    if Ascii.eqb d "-" then
                      match s3 with
                      | [] => None
                      | e :: s4 =>
                          if Ascii.eqb e "]" then
                            Some (fun x => acc x || member_set lo x || Ascii.eqb x "-", s4)
                          else
                            match parse_member s3 with
                            | Some (inl hi, s5) =>
                                match lo with
                                | inl lo =>
                                    if (nat_of_ascii lo <=? nat_of_ascii hi)%nat then
                                      parse_class fuel' false
                                        (fun x => acc x || in_range lo hi x) s5
                                    else None
                                | inr _ => None
                                end
                            | _ => None
                            end
                      end
                    else
                      parse_class fuel' false
                        (fun x => acc x || member_set lo x) s2
                | [] => None
                end
            end
      end
  end.

Definition parse_quant (a : regex) (s : list ascii) : option (regex * list ascii) :=
  match s with
  | q :: s1 =>
      if one_of "*+?" q then
        match s1 with
        | q2 :: _ => if one_of "*+?{" q2 then None else
            Some (if Ascii.eqb q "*" then Star a
                  else if Ascii.eqb q "+" then Cat a (Star a)
                  else Alt a Eps, s1)
        | [] =>
            Some (if Ascii.eqb q "*" then Star a
                  else if Ascii.eqb q "+" then Cat a (Star a)
                  else Alt a Eps, s1)
        end
      else if Ascii.eqb q "{" then None
      else Some (a, s)
  | [] => Some (a, s)
  end.

Fixpoint parse_alt (fuel : nat) (s : list ascii) : option (regex * list ascii) :=
  match fuel with
  | O => None
  | S fuel' =>
      match parse_seq fuel' s with
      | Some (r1, c :: s1) =>
          if Ascii.eqb c "|" then
            match parse_alt fuel' s1 with
            | Some (r2, s2) => Some (Alt r1 r2, s2)
            | None => None
            end
          else Some (r1, c :: s1)
      | other => other
      end
  end
with parse_seq (fuel : nat) (s : list ascii) : option (regex * list ascii) :=
  match fuel with
  | O => None
  | S fuel' =>
      match s with
      | [] => Some (Eps, [])
      | c :: _ =>
          if one_of "|)" c then Some (Eps, s)
          else
            match parse_atom fuel' s with
            | None => None
            | Some (a, s1) =>
                match parse_quant a s1 with
                | None => None
                | Some (q, s2) =>
                    match parse_seq fuel' s2 with
                    | Some (r, s3) => Some (Cat q r, s3)
                    | None => None
                    end
                end
            end
      end
  end
with parse_atom (fuel : nat) (s : list ascii) : option (regex * list ascii) :=
  match fuel with
  | O => None
  | S fuel' =>
      match s with
      | [] => None
      | c :: s1 =>
          if Ascii.eqb c "(" then
            match parse_alt fuel' s1 with
            | Some (r, d :: s2) => if Ascii.eqb d ")" then Some (r, s2) else None
            | _ => None
            end
          else if Ascii.eqb c "[" then
            match s1 with
            | d :: s2 =>
                if Ascii.eqb d "^" then
                  match parse_class (S (length s2)) true (fun _ => false) s2 with
                  | Some (f, s3) => Some (Cls (fun x => negb (f x)), s3)
                  | None => None
                  end
                else
                  match parse_class (S (length s1)) true (fun _ => false) s1 with
                  | Some (f, s3) => Some (Cls f, s3)
                  | None => None
                  end
            | [] => None
            end
          else if Ascii.eqb c "\" then
            match s1 with
            | e :: s2 =>
                option_map (fun m => (Cls (member_set m), s2)) (escape_member e)
            | [] => None
            end
          else if Ascii.eqb c "." then
            Some (Cls (fun x => negb (Ascii.eqb x "010")), s1)
          else if one_of "*+?{^$" c then None
          else Some (Cls (Ascii.eqb c), s1)
      end
  end.

(** [re.compile(p)]; [None] stands for [re.error]. *)
Definition re_compile (p : string) : option regex :=
  let s := list_ascii_of_string p in
  match parse_alt (4 * length s + 4) s with
  | Some (r, []) => Some r
  | _ => None
  end.

Definition ref_re_match (p s : string) : option bool :=
  option_map (fun r => accepts_prefix r (list_ascii_of_string s)) (re_compile p).

(** [re.search] for the patterns of [extract_file_id_from_url], which are a
    literal followed by the group [([a-zA-Z0-9_-]+)]: the leftmost place
    where the literal is followed by an identifier character, and the
    longest run of identifier characters from there. *)
Definition id_char (c : ascii) : bool :=
  is_alpha c || is_digit c || Ascii.eqb c "_" || Ascii.eqb c "-".

Fixpoint strip_prefix (p s : list ascii) : option (list ascii) :=
  match p, s with
  | [], _ => Some s
  | a :: p', b :: s' => if Ascii.eqb a b then strip_prefix p' s' else None
  | _ :: _, [] => None
  end.

Fixpoint span (f : ascii -> bool) (s : list ascii) : list ascii * list ascii :=
  match s with
  | [] => ([], [])
  | c :: s' =>
      if f c then let (u, v) := span f s' in (c :: u, v) else ([], s)
  end.

Definition id_group_here (lit s : list ascii) : option (list ascii) :=
  match strip_prefix lit s with
  | Some rest =>
      match fst (span id_char rest) with
      | [] => None
      | g => Some g
      end
  | None => None
  end.

Fixpoint search_id (lit s : list ascii) : option (list ascii) :=
  match id_group_here lit s with
  | Some g => Some g
  | None =>
      match s with
      | [] => None
      | _ :: s' => search_id lit s'
      end
  end.

Definition id_group : list ascii := list_ascii_of_string "([a-zA-Z0-9_-]+)".

Definition ref_re_search (p s : string) : option string :=
  let p := list_ascii_of_string p in
  let n := (length p - length id_group)%nat in
  if bool_decide (drop n p = id_group) &&
     forallb (fun c => negb (one_of "\.^$*+?{}[]()|" c)) (take n p)
  then option_map string_of_list_ascii
         (search_id (take n p) (list_ascii_of_string s))
  else None.

(** [fnmatch.fnmatch] on a POSIX system, where [normcase] is the identity:
    the pattern becomes a regular expression that must match the whole
    name.  [*] is any run of characters, [?] any character, [[seq]] a
    character of the set, [[!seq]] a character outside it; a [[] that no []]
    closes is a literal. *)

(** The members of a set: single characters and ranges [lo-hi].  A hyphen
    is a range operator only between two characters; a range whose bounds
    are in the wrong order is dropped. *)
Fixpoint set_items (s : list ascii) : list (ascii * ascii) :=
  match s with
  | [] => []
  | c :: s1 =>
      match s1 with
      | d :: e :: s2 =>
          if Ascii.eqb d "-" then
            if (nat_of_ascii c <=? nat_of_ascii e)%nat
            then (c, e) :: set_items s2
            else set_items s2
          else (c, c) :: set_items s1
      | _ => (c, c) :: set_items s1
      end
  end.

Definition glob_set (stuff : list ascii) : ascii -> bool :=
  match stuff with
  | c :: rest =>
      if Ascii.eqb c "!" then
        fun x => negb (existsb (fun r => in_range (fst r) (snd r) x) (set_items rest))
      else
        fun x => existsb (fun r => in_range (fst r) (snd r) x) (set_items stuff)
  | [] => fun _ => false
  end.

(** After a [[]: the text of the set and what follows the closing []].  A
    leading [!] and a []] right after it do not close the set. *)
Definition split_bracket (s : list ascii) : option (list ascii * list ascii) :=
  let (neg, s1) :=
    match s with
    | c :: s' => if Ascii.eqb c "!" then ([c], s') else ([], s)
    | [] => ([], s)
    end in
  let (first, s2) :=
    match s1 with
    | c :: s' => if Ascii.eqb c "]" then ([c], s') else ([], s1)
    | [] => ([], s1)
    end in
  let (mid, rest) := span (fun c => negb (Ascii.eqb c "]")) s2 in
  match rest with
  | _ :: rest' => Some (neg ++ first ++ mid, rest')
  | [] => None
  end.

Definition any_char (c : ascii) : bool := true.

Fixpoint glob_regex (fuel : nat) (pat : list ascii) : regex :=
  match fuel with
  | O => Eps
  | S fuel' =>
      match pat with
      | [] => Eps
      | c :: rest =>
          if Ascii.eqb c "*" then Cat (Star (Cls any_char)) (glob_regex fuel' rest)
          else if Ascii.eqb c "?" then Cat (Cls any_char) (glob_regex fuel' rest)
          else if Ascii.eqb c "[" then
            match split_bracket rest with
            | Some (stuff, rest') =>
                Cat (Cls (glob_set stuff)) (glob_regex fuel' rest')
            | None => Cat (Cls (Ascii.eqb c)) (glob_regex fuel' rest)
            end
          else Cat (Cls (Ascii.eqb c)) (glob_regex fuel' rest)
      end
  end.

Definition ref_fnmatch (name pat : string) : bool :=
  let p := list_ascii_of_string pat in
  accepts (glob_regex (length p) p) (list_ascii_of_string name).

(** [urllib.parse.urlparse]: leading control characters and spaces are
    stripped, tabs and line breaks removed, then the scheme, the network
    location, the fragment, the query and the parameters of the last path
    segment are split off. *)
Definition break (f : ascii -> bool) (s : list ascii) : list ascii * list ascii :=
  span (fun c => negb (f c)) s.

Definition lower (c : ascii) : ascii :=
  if in_range "A" "Z" c then ascii_of_nat (nat_of_ascii c + 32) else c.

Definition uses_params : list string :=
  [""; "ftp"; "hdl"; "prospero"; "http"; "imap"; "https"; "shttp"; "rtsp";
   "rtspu"; "sip"; "sips"; "mms"; "sftp"; "tel"]%string.

Definition split_scheme (url : list ascii) : list ascii * list ascii :=
  let (pre, rest) := break (Ascii.eqb ":") url in
  match pre, rest with
  | c :: _, _ :: after =>
      if is_alpha c &&
         forallb (fun x => is_alpha x || is_digit x || one_of "+-." x) pre
      then (map lower pre, after)
      else ([], url)
  | _, _ => ([], url)
  end.

Definition split_netloc (url : list ascii) : list ascii * list ascii :=
  match url with
  | a :: b :: rest =>
      if Ascii.eqb a "/" && Ascii.eqb b "/" then break (one_of "/?#") rest
      else ([], url)
  | _ => ([], url)
  end.

(** [_splitparams]: the path without the parameters of its last segment. *)
Definition strip_params (path : list ascii) : list ascii :=
  let (last_rev, dir_rev) := break (Ascii.eqb "/") (rev path) in
  rev dir_rev ++ fst (break (Ascii.eqb ";") (rev last_rev)).

Definition ref_urlparse (url : string) : outcome ParseResult :=
  let s := list_ascii_of_string url in
  let s := snd (span (fun c => (nat_of_ascii c <=? 32)%nat) s) in
  let s := List.filter (fun c => negb (in_range "009" "010" c)
                           && negb (Ascii.eqb c "013")) s in
  let (scheme, s) := split_scheme s in
  let (netloc, s) := split_netloc s in
  if xorb (existsb (Ascii.eqb "[") netloc) (existsb (Ascii.eqb "]") netloc)
  then Raise (ValueError "Invalid IPv6 URL")
  else
    let (s, _) := break (Ascii.eqb "#") s in
    let (path, q) := break (Ascii.eqb "?") s in
    let path :=
      if bool_decide (string_of_list_ascii scheme ∈ uses_params)
      then strip_params path else path in
    Return {| url_path := string_of_list_ascii path;
              url_query := string_of_list_ascii (tl q) |}.

(** [urllib.parse.parse_qs] with its defaults: fields are separated by [&],
    a field without [=] or with an empty value is skipped, [+] is a space
    and [%XX] a byte. *)
Fixpoint split_on (fuel : nat) (c : ascii) (s : list ascii) : list (list ascii) :=
  match fuel with
  | O => [s]
  | S fuel' =>
      let (u, v) := break (Ascii.eqb c) s in
      match v with
      | [] => [u]
      | _ :: v' => u :: split_on fuel' c v'
      end
  end.

Definition hex_val (c : ascii) : option nat :=
  if is_digit c then Some (nat_of_ascii c - 48)%nat
  else if in_range "a" "f" c then Some (nat_of_ascii c - 87)%nat
  else if in_range "A" "F" c then Some (nat_of_ascii c - 55)%nat
  else None.

Fixpoint unquote (s : list ascii) : list ascii :=
  match s with
  | [] => []
  | c :: s1 =>
      match s1 with
      | h1 :: h2 :: s2 =>
          if Ascii.eqb c "%" then
            match hex_val h1, hex_val h2 with
            | Some a, Some b => ascii_of_nat (16 * a + b) :: unquote s2
            | _, _ => c :: unquote s1
            end
          else c :: unquote s1
      | _ => c :: unquote s1
      end
  end.

Definition decode_field (s : list ascii) : string :=
  string_of_list_ascii
    (unquote (map (fun c => if Ascii.eqb c "+" then " " else c) s)).

Definition add_field (m : gmap string (list string)) (field : list ascii)
    : gmap string (list string) :=
  let (name, rest) := break (Ascii.eqb "=") field in
  match rest with
  | _ :: (_ :: _) as value =>
      let name := decode_field name in
      <[name := default [] (m !! name) ++ [decode_field value]]> m
  | _ => m
  end.

Definition ref_parse_qs (qs : string) : gmap string (list string) :=
  let s := list_ascii_of_string qs in
  fold_left add_field (split_on (length s) "&" s) ∅.

(** [os.path.splitext] on a POSIX system: the extension starts at the last
    dot of the last path component, unless only dots precede it there. *)
Fixpoint rfind (c : ascii) (s : list ascii) (i : Z) (found : Z) : Z :=
  match s with
  | [] => found
  | x :: s' => rfind c s' (i + 1) (if Ascii.eqb x c then i else found)
  end.

Definition ref_splitext (p : string) : string * string :=
  let s := list_ascii_of_string p in
  let sepIndex := rfind "/" s 0 (-1) in
  let dotIndex := rfind "." s 0 (-1) in
  if (sepIndex <? dotIndex)%Z &&
     existsb (fun c => negb (Ascii.eqb c "."))
       (drop (Z.to_nat (sepIndex + 1)) (take (Z.to_nat dotIndex) s))
  then (string_of_list_ascii (take (Z.to_nat dotIndex) s),
        string_of_list_ascii (drop (Z.to_nat dotIndex) s))
  else (p, ""%string).

Definition ref_lib : PyLib := {|
  re_match := ref_re_match;
  re_search := ref_re_search;
  fnmatch := ref_fnmatch;
  urlparse := ref_urlparse;
  parse_qs := ref_parse_qs;
  splitext := ref_splitext
|}.

Local Close Scope char_scope.

(** ** Stores and observations used to state the properties *)

(** A scripted store: it answers the successive requests with the replies
    of a list, whatever is asked, and with 404 once the list is used up. *)
Definition scripted (req : Request) (w : list reply) : reply * list reply :=
  match w with
  | r :: w' => (r, w')
  | [] => (Failed 404 "File not found", [])
  end.

Definition response_id (id : string) : Response :=
  {| resp_id := Some id; resp_name := None; resp_mimeType := None;
     resp_files := None; resp_nextPageToken := None |}.

Definition response_meta (id name mimeType : string) : Response :=
  {| resp_id := Some id; resp_name := Some name;
     resp_mimeType := Some mimeType;
     resp_files := None; resp_nextPageToken := None |}.

Definition response_page (files : list Item) (token : option string) : Response :=
  {| resp_id := None; resp_name := None; resp_mimeType := None;
     resp_files := Some files; resp_nextPageToken := token |}.

Definition file_item (id name : string) : Item :=
  {| item_id := Some id; item_name := Some name;
     item_mimeType := Some "text/plain"%string |}.

(** A store holding one folder, which it lists page by page: the token of
    a page is a run of [x] as long as the offset of the page. *)
Definition page_token_of (offset : nat) : string :=
  string_of_list_ascii (repeat "x"%char offset).

Definition paged (req : Request) (w : list Item) : reply * list Item :=
  match req with
  | FilesList _ (Some pageSize) pageToken _ =>
      if pageSize <=? 0 then (Failed 400 "Invalid value", w)
      else
        let offset := String.length (default ""%string pageToken) in
        let n := Z.to_nat pageSize in
        (Ok (response_page (take n (drop offset w))
               (if (offset + n <? length w)%nat
                then Some (page_token_of (offset + n)) else None)), w)
  | _ => (Failed 400 "Bad Request", w)
  end.

(** How many times the store was asked, and the sleeps, in a trace. *)
Definition is_call (e : event) : bool :=
  match e with EvExecute _ _ => true | EvSleep _ => false end.

Definition calls (t : list event) : nat := length (List.filter is_call t).

Definition sleeps (t : list event) : list Z :=
  omap (fun e => match e with EvSleep s => Some s | _ => None end) t.

(** The renames that the store accepted, as (file id, new name). *)
Definition accepted_updates (t : list event) : list (string * string) :=
  omap (fun e => match e with
                 | EvExecute (FilesUpdate id name) (Ok _) => Some (id, name)
                 | _ => None
                 end) t.

Section Observations.
Context {World : Type}.
Variable execute : Request -> World -> reply * World.

(** The replies of the store to [n] successive executions of a request. *)
Fixpoint replies (request : Request) (n : nat) (w : World) : list reply * World :=
  match n with
  | O => ([], w)
  | S n' =>
      let (rep, w1) := execute request w in
      let (reps, w2) := replies request n' w1 in
      (rep :: reps, w2)
  end.

(** The trace of a retried request: the attempts with their replies, and
    between two attempts the sleep [2^k * retry_delay] where [k] counts the
    failures so far. *)
Fixpoint backoff_trace (self : DriveManager) (request : Request)
    (retry_count : Z) (reps : list reply) : list event :=
  match reps with
  | [] => []
  | rep :: reps' =>
      EvExecute request rep ::
      match reps' with
      | [] => []
      | _ :: _ =>
          EvSleep (2 ^ (retry_count + 1) * retry_delay self) ::
          backoff_trace self request (retry_count + 1) reps'
      end
  end.

(** What [_execute_with_retry] does with the last reply it got. *)
Definition outcome_of (rep : reply) : outcome (option Response) :=
  match rep with
  | Ok r => Return (Some r)
  | Failed status reason => Raise (HttpError status reason)
  end.

Definition retryable_failure (rep : reply) : Prop :=
  match rep with
  | Ok _ => False
  | Failed status _ => retryable status = true
  end.

Definition list_request (self : DriveManager) (folder_id : string)
    (page_token : option string) : Request :=
  FilesList ("'" +:+ folder_id +:+ "' in parents")
    (Some (batch_size self)) page_token listing_fields.

(** The store serves the folder in the given pages, each on the first
    attempt, when the listing starts with [page_token]. *)
Inductive serves (self : DriveManager) (folder_id : string)
    : option string -> World -> list (list Item) -> World -> Prop :=
| serves_last page_token w r w' :
    execute (list_request self folder_id page_token) w = (Ok r, w') ->
    truthy (resp_nextPageToken r) = false ->
    serves self folder_id page_token w [default [] (resp_files r)] w'
| serves_more page_token w r w1 pages w' :
    execute (list_request self folder_id page_token) w = (Ok r, w1) ->
    truthy (resp_nextPageToken r) = true ->
    serves self folder_id (resp_nextPageToken r) w1 pages w' ->
    serves self folder_id page_token w (default [] (resp_files r) :: pages) w'.
End Observations.

(** The order of the patterns as the description of the resolver words it:
    file, folder, generic drive segment, then [id=]. *)
Definition described_patterns : list string :=
  [ "/file/d/([a-zA-Z0-9_-]+)";
    "/folders/([a-zA-Z0-9_-]+)";
    "/drive/([a-zA-Z0-9_-]+)";
    "id=([a-zA-Z0-9_-]+)" ]%string.


(** The entries of a listing that [batch_rename] selects, as
    (file id, name). *)
Definition selected (lib : PyLib) (pattern : string) (items : list Item)
    : list (string * string) :=
  omap (fun it =>
          match item_id it, item_name it with
          | Some i, Some n =>
              if pattern_matches lib n pattern then Some (i, n) else None
          | _, _ => None
          end) items.

(** The resolver as described: the same steps over [described_patterns]. *)
Definition extract_as_described (lib : PyLib) (url : string)
    : outcome (option string) :=
  match urlparse lib url with
  | Raise e => Raise e
  | Return parsed_url =>
      match first_search lib described_patterns (url_path parsed_url) with
      | Some g => Return (Some g)
      | None =>
          match parse_qs lib (url_query parsed_url) !! "id"%string with
          | Some (v :: _) => Return (Some v)
          | Some [] => Raise (IndexError "list index out of range")
          | None => Return None
          end
      end
  end.

Arguments State World : clear implicits.
Arguments M World A : clear implicits.

(** The manager and the initial state of the worked examples. *)
Definition example_manager : DriveManager :=
  {| batch_size := 100; max_retries := 3; retry_delay := 1 |}.

Definition initial {World : Type} (w : World) : State World :=
  {| world := w; trace := [] |}.

(** The script of the folder-copy example: the folder [F] is created anew
    as [NF] and holds three text files; the store refuses to copy the
    second one. *)
Definition three_texts : list Item :=
  [file_item "1" "a.txt"; file_item "2" "b.txt"; file_item "3" "c.txt"].

Definition refused_second_copy : list reply :=
  [ Ok (response_meta "F" "Reports" folder_mime);
    Ok (response_id "NF");
    Ok (response_page three_texts None);
    Ok (response_meta "1" "a.txt" "text/plain");
    Ok (response_id "n1");
    Ok (response_meta "2" "b.txt" "text/plain");
    Failed 403 "Forbidden";
    Ok (response_meta "3" "c.txt" "text/plain");
    Ok (response_id "n3") ].

(** The batch of the report example: a delete, a rename that lacks its
    [target], and a copy; and the replies of the store to the first and
    the third. *)
Definition command_of (fields : list (string * string)) : gmap string string :=
  list_to_map fields.


Definition example_batch_replies : list reply :=
  [ Ok (response_page [file_item "9" "x.tmp"; file_item "8" "keep.txt"] None);
    Ok (response_id "9");
    Ok (response_meta "XYZ" "doc.txt" "text/plain");
    Ok (response_id "new") ].

(** The listing of the rename examples. *)
Definition two_texts : list Item :=
  [file_item "1" "a.txt"; file_item "2" "b.txt"].

(** A folder of [n] files, [file0], [file1], ... *)
Definition numbered (tag : string) (k : nat) : string :=
  tag +:+ NilZero.string_of_uint (Nat.to_uint k).

Definition folder_of (n : nat) : list Item :=
  map (fun k => file_item (numbered "id" k) (numbered "file" k)) (seq 0 n).

(** ** Further observations on traces and listings *)

(** The requests sent to the store, whatever it answered. *)
Definition requests (t : list event) : list Request :=
  omap (fun e => match e with EvExecute r _ => Some r | EvSleep _ => None end) t.

(** The deletions that the store accepted, by file id. *)
Definition accepted_deletes (t : list event) : list string :=
  omap (fun e => match e with
                 | EvExecute (FilesDelete id) (Ok _) => Some id
                 | _ => None
                 end) t.

Section Listings.
Context {World : Type}.
Variable execute : Request -> World -> reply * World.

(** The store serves the pages, each after fewer than [max_retries]
    retryable failures; [failures] counts them all. *)
Inductive serves_retrying (self : DriveManager) (folder_id : string)
    : option string -> World -> list (list Item) -> nat -> World -> Prop :=
| serves_retrying_last page_token w fs r w' :
    replies execute (list_request self folder_id page_token) (S (length fs)) w =
      (fs ++ [Ok r], w') ->
    Forall retryable_failure fs ->
    Z.of_nat (length fs) < max_retries self ->
    truthy (resp_nextPageToken r) = false ->
    serves_retrying self folder_id page_token w
      [default [] (resp_files r)] (length fs) w'
| serves_retrying_more page_token w fs r w1 pages failures w' :
    replies execute (list_request self folder_id page_token) (S (length fs)) w =
      (fs ++ [Ok r], w1) ->
    Forall retryable_failure fs ->
    Z.of_nat (length fs) < max_retries self ->
    truthy (resp_nextPageToken r) = true ->
    serves_retrying self folder_id (resp_nextPageToken r) w1 pages failures w' ->
    serves_retrying self folder_id page_token w
      (default [] (resp_files r) :: pages) (length fs + failures) w'.

(** The listing got the pages [pages], each carrying a token, and is about
    to ask for the page of [page_token']. *)
Inductive pages_until (self : DriveManager) (folder_id : string)
    : option string -> State World -> list (list Item) ->
      option string -> State World -> Prop :=
| pages_until_nil page_token st :
    pages_until self folder_id page_token st [] page_token st
| pages_until_cons page_token st r st1 pages page_token' st' :
    _execute_with_retry execute self (list_request self folder_id page_token) st =
      Some (Return (Some r), st1) ->
    truthy (resp_nextPageToken r) = true ->
    pages_until self folder_id (resp_nextPageToken r) st1 pages page_token' st' ->
    pages_until self folder_id page_token st
      (default [] (resp_files r) :: pages) page_token' st'.
End Listings.

(** A listing in two pages, the second served after a rate-limit reply. *)
Definition two_pages_one_retry : list reply :=
  [ Ok (response_page [file_item "1" "a.txt"] (Some "t1"%string));
    Failed 429 "Too Many Requests";
    Ok (response_page [file_item "2" "b.txt"] None) ].

(** A listing whose second page is refused. *)
Definition second_page_refused : list reply :=
  [ Ok (response_page [file_item "1" "a.txt"] (Some "t1"%string));
    Failed 403 "Forbidden" ].

(** The replies to a delete of [*.tmp] in a folder of two entries, the
    deletion being refused; and the listing alone. *)
Definition tmp_and_text : list Item :=
  [file_item "9" "x.tmp"; file_item "8" "keep.txt"].

Definition refused_delete : list reply :=
  [ Ok (response_page tmp_and_text None); Failed 403 "Forbidden" ].

(** What [copy_drive_item] makes of the reply to the copy of a file. *)
Definition copied_id (out : outcome (option Response)) : outcome string :=
  match out with
  | Return copied_file => subscript copied_file "id" resp_id
  | Raise e => Raise e
  end.

(** The request of [copy_to_subfolders] for the subfolders of a folder. *)
Definition subfolders_request (folder_id : string) : Request :=
  FilesList
    ("'" +:+ folder_id +:+
     "' in parents and mimeType='application/vnd.google-apps.folder'")
    None None "files(id, name)".

(** The replies to a fan-out copy into two subfolders, the first copy being
    refused. *)
Definition two_subfolders : list Item :=
  [file_item "d1" "2023"; file_item "d2" "2024"].

Definition fan_out_replies : list reply :=
  [ Ok (response_page two_subfolders None);
    Ok (response_meta "XYZ" "doc.txt" "text/plain");
    Ok (response_meta "XYZ" "doc.txt" "text/plain");
    Failed 403 "Forbidden";
    Ok (response_meta "XYZ" "doc.txt" "text/plain");
    Ok (response_id "c2") ].

(** ** utilities.py: the other pure helpers

    [os.path] is [posixpath]; [datetime.now()] is an input. *)

(** [s.lower()] *)
Definition str_lower (s : string) : string :=
  string_of_list_ascii (map lower (list_ascii_of_string s)).

(** The [extension_map] of [get_mime_type]. *)
Definition extension_map : gmap string string :=
  list_to_map
    [ (".txt", "text/plain");
      (".pdf", "application/pdf");
      (".doc", "application/msword");
      (".docx", "application/vnd.openxmlformats-officedocument.wordprocessingml.document");
      (".xls", "application/vnd.ms-excel");
      (".xlsx", "application/vnd.openxmlformats-officedocument.spreadsheetml.sheet");
      (".ppt", "application/vnd.ms-powerpoint");
      (".pptx", "application/vnd.openxmlformats-officedocument.presentationml.presentation");
      (".jpg", "image/jpeg");
      (".jpeg", "image/jpeg");
      (".png", "image/png");
      (".gif", "image/gif");
      (".zip", "application/zip");
      (".mp3", "audio/mpeg");
      (".mp4", "video/mp4");
      (".json", "application/json");
      (".xml", "application/xml");
      (".html", "text/html");
      (".css", "text/css");
      (".js", "application/javascript") ]%string.

(** [DriveUtilities.get_mime_type] *)
Definition get_mime_type (lib : PyLib) (filename : string) : string :=
  let ext := str_lower (splitext lib filename).2 in
  default "application/octet-stream"%string (extension_map !! ext).

(** The [units] of [parse_schedule]. *)
Definition units : gmap string Z :=
  list_to_map [("s", 1); ("m", 60); ("h", 3600); ("d", 86400); ("w", 604800)]%string.

(** [re.match(r'(\d+)([smhdw])', s)]: the two groups.  The digits are
    taken greedily; giving some back never helps, since the character after
    a shorter run is a digit. *)
Definition match_schedule (s : list ascii) : option (list ascii * ascii) :=
  match span is_digit s with
  | (d :: ds, u :: _) =>
      if one_of "smhdw" u then Some (d :: ds, u) else None
  | _ => None
  end.

(** [int(value)] on a run of digits; the interpreter refuses more than
    4300 of them. *)
Definition digits_value (ds : list ascii) : Z :=
  fold_left (fun acc c => 10 * acc + Z.of_nat (nat_of_ascii c - 48)) ds 0.

Definition int_max_str_digits : nat := 4300.

Definition int_of_digits (ds : list ascii) : outcome Z :=
  if (int_max_str_digits <? length ds)%nat then
    Raise (ValueError
             ("Exceeds the limit (4300 digits) for integer string conversion: value has "
              +:+ NilZero.string_of_uint (Nat.to_uint (length ds))
              +:+ " digits; use sys.set_int_max_str_digits() to increase the limit"))
  else Return (digits_value ds).

(** [DriveUtilities.parse_schedule] *)
Definition parse_schedule (schedule : string) : outcome Z :=
  match match_schedule (map lower (list_ascii_of_string schedule)) with
  | None =>
      Raise (ValueError "Invalid schedule format. Use format like '1h', '1d', '1w'")
  | Some (value, unit) =>
      match int_of_digits value with
      | Raise e => Raise e
      | Return n =>
          match units !! String unit EmptyString with
          | Some seconds => Return (n * seconds)
          | None => Raise (KeyError (String unit EmptyString))
          end
      end
  end.

(** [posixpath.normpath].  [new_comps] is kept with its last element
    first. *)
Definition dot : list ascii := ["."%char].
Definition dotdot : list ascii := ["."%char; "."%char].

Definition is_path (a b : list ascii) : bool :=
  bool_decide (a = b).

Fixpoint norm_comps (initial_slashes : bool) (comps new_comps : list (list ascii))
    : list (list ascii) :=
  match comps with
  | [] => new_comps
  | comp :: comps' =>
      if is_path comp [] || is_path comp dot then
        norm_comps initial_slashes comps' new_comps
      else if negb (is_path comp dotdot)
              || (negb initial_slashes && bool_decide (new_comps = []))
              || match new_comps with
                 | last :: _ => is_path last dotdot
                 | [] => false
                 end
      then norm_comps initial_slashes comps' (comp :: new_comps)
      else norm_comps initial_slashes comps' (tl new_comps)
  end.

(** ['/'.join(comps)] *)
Fixpoint join_path (comps : list (list ascii)) : list ascii :=
  match comps with
  | [] => []
  | [comp] => comp
  | comp :: comps' => comp ++ "/"%char :: join_path comps'
  end.

(** [path.split('/')] *)
Definition split_path (s : list ascii) : list (list ascii) :=
  split_on (length s) "/"%char s.

Definition posix_normpath (path : string) : string :=
  let s := list_ascii_of_string path in
  match s with
  | [] => "."%string
  | _ =>
      let initial_slashes : nat :=
        if String.prefix "/" path then
          if String.prefix "//" path && negb (String.prefix "///" path)
          then 2%nat else 1%nat
        else 0%nat in
      let comps :=
        rev (norm_comps (negb (Nat.eqb initial_slashes 0)) (split_path s) []) in
      let joined := repeat "/"%char initial_slashes ++ join_path comps in
      match joined with
      | [] => "."%string
      | _ => string_of_list_ascii joined
      end
  end.

(** [DriveUtilities.is_valid_path] *)
Definition is_valid_path (path : string) : bool :=
  let normalized_path := posix_normpath path in
  if bool_decide (dotdot ∈ split_path (list_ascii_of_string normalized_path))
  then false
  else if String.prefix "/" normalized_path then false
  else true.

(** [posixpath.join(a, b)] *)
Definition posix_join (a b : string) : string :=
  if String.prefix "/" b then b
  else if String.eqb a "" || String.eqb (str_from (String.length a - 1) a) "/"
  then a +:+ b
  else a +:+ "/" +:+ b.

(** [DriveUtilities.generate_backup_path], where [timestamp] is
    [datetime.now().strftime('%Y%m%d_%H%M%S')]. *)
Definition generate_backup_path (lib : PyLib) (timestamp : string)
    (base_path original_name : string) : string :=
  let '(filename, ext) := splitext lib original_name in
  posix_join base_path (filename +:+ "_" +:+ timestamp +:+ ext).

(** A name [stem.e]: the stem has no slash and a character other than a
    dot, [e] has neither dot nor slash. *)
Definition plain_stem (stem : list ascii) : Prop :=
  Forall (λ x, Ascii.eqb x "/" = false) stem ∧
  Exists (λ x, Ascii.eqb x "." = false) stem.

Definition plain_ext (e : list ascii) : Prop :=
  Forall (λ x, Ascii.eqb x "/" = false) e ∧
  Forall (λ x, Ascii.eqb x "." = false) e.

(** Whether a relative path climbs above the directory it starts from:
    [depth] counts the named components that [..] can still undo. *)
Fixpoint climbs (depth : nat) (comps : list (list ascii)) : bool :=
  match comps with
  | [] => false
  | comp :: comps' =>
      if is_path comp [] || is_path comp dot then climbs depth comps'
      else if is_path comp dotdot then
        match depth with
        | O => true
        | S depth' => climbs depth' comps'
        end
      else climbs (S depth) comps'
  end.

Definition slash_free (comp : list ascii) : Prop :=
  Forall (λ x, Ascii.eqb "/" x = false) comp.

(** A component that [normpath] keeps as a name. *)
Definition named (comp : list ascii) : Prop :=
  comp ≠ [] ∧ comp ≠ dot ∧ comp ≠ dotdot.

(** ** auth.py

    The keyring, [pickle], the credentials file, the OAuth flow and the
    methods of a credentials object belong to the environment: any state
    machine that answers these operations, each of which can raise.  Every
    operation asked of the environment is recorded as a step.  What is
    unpickled is credentials or a falsy value ([None] below). *)
Module Auth.

(** Exceptions: the one the code raises itself and those of the libraries,
    all of them subclasses of [Exception]. *)
Inductive error : Type :=
| FileNotFoundError (msg : string)
| LibraryError (msg : string).

Inductive result (A : Type) : Type :=
| Done (a : A)
| Raised (e : error).
Arguments Done {A} a.
Arguments Raised {A} e.

(** The attributes of a [Credentials] object that the code reads. *)
Record Credentials := {
  valid : bool;
  expired : bool;
  refresh_token : option string;
  token : string
}.

Record DriveAuth := {
  credentials_file : string;
  scopes : list string;
  keyring_service : string;
  keyring_username : string
}.

Inductive step : Type :=
| GetPassword (service username : string)
| Loads (data : string)
| Refresh (creds : Credentials)
| PathExists (path : string)
| RunFlow (file : string) (scopes : list string)
| Dumps (creds : Credentials)
| SetPassword (service username data : string)
| DeletePassword (service username : string)
| Revoke (creds : Credentials).

Record Env (World : Type) := {
  (** [keyring.get_password(service, username)] *)
  get_password : string → string → World → result (option string) * World;
  (** [pickle.loads(data)] *)
  loads : string → World → result (option Credentials) * World;
  (** [creds.refresh(Request())]: the object after the refresh. *)
  refresh : Credentials → World → result Credentials * World;
  (** [os.path.exists(path)] *)
  path_exists : string → World → bool * World;
  (** [InstalledAppFlow.from_client_secrets_file(file, scopes)
       .run_local_server(port=0)] *)
  run_flow : string → list string → World → result Credentials * World;
  (** [pickle.dumps(creds)] *)
  dumps : Credentials → World → result string * World;
  (** [keyring.set_password(service, username, data)] *)
  set_password : string → string → string → World → result unit * World;
  (** [keyring.delete_password(service, username)] *)
  delete_password : string → string → World → result unit * World;
  (** [creds.revoke(Request())] *)
  revoke : Credentials → World → result unit * World
}.
Arguments get_password {World}.
Arguments loads {World}.
Arguments refresh {World}.
Arguments path_exists {World}.
Arguments run_flow {World}.
Arguments dumps {World}.
Arguments set_password {World}.
Arguments delete_password {World}.
Arguments revoke {World}.

Section DriveAuth.
Context {World : Type}.
Variable env : Env World.
Variable self : DriveAuth.

Definition Run (A : Type) : Type :=
  World * list step → result A * (World * list step).

Definition ret {A} (a : A) : Run A := λ st, (Done a, st).
Definition raise {A} (e : error) : Run A := λ st, (Raised e, st).

Definition bind {A B} (m : Run A) (k : A → Run B) : Run B :=
  λ st,
    match m st with
    | (Done a, st') => k a st'
    | (Raised e, st') => (Raised e, st')
    end.

(** [try: m  except Exception: h] *)
Definition try_except {A} (m : Run A) (h : error → Run A) : Run A :=
  λ st,
    match m st with
    | (Done a, st') => (Done a, st')
    | (Raised e, st') => h e st'
    end.

(** [try: m  finally: final] *)
Definition try_finally {A} (m : Run A) (final : Run unit) : Run A :=
  λ st,
    let (r, st') := m st in
    match final st' with
    | (Done _, st'') => (r, st'')
    | (Raised e, st'') => (Raised e, st'')
    end.

(** One operation of the environment, recorded. *)
Definition call {A} (s : step) (op : World → result A * World) : Run A :=
  λ st,
    let (r, w') := op st.1 in (r, (w', st.2 ++ [s])).

Notation "x <- c1 ;; c2" := (bind c1 (λ x, c2))
  (at level 100, c1 at next level, right associativity).
Notation "c1 ;;; c2" := (bind c1 (λ _, c2))
  (at level 100, right associativity).

Definition keyring_get_password : Run (option string) :=
  call (GetPassword (keyring_service self) (keyring_username self))
       (get_password env (keyring_service self) (keyring_username self)).

Definition pickle_loads (data : string) : Run (option Credentials) :=
  call (Loads data) (loads env data).

(** The second half of the [if not creds or not creds.valid] block: run
    the flow when there are no credentials, then save. *)
Definition obtain_and_save (creds : option Credentials) : Run Credentials :=
  creds <- match creds with
           | Some c => ret c
           | None =>
               found <- call (PathExists (credentials_file self))
                          (λ w, let (b, w') := path_exists env (credentials_file self) w
                                in (Done b, w')) ;;
               if negb found then
                 raise (FileNotFoundError
                          ("Credentials file '" +:+ credentials_file self +:+
                           "' not found. " +:+
                           "Please download it from Google Cloud Console."))
               else
                 call (RunFlow (credentials_file self) (scopes self))
                      (run_flow env (credentials_file self) (scopes self))
           end ;;
  token_pickle <- call (Dumps creds) (dumps env creds) ;;
  call (SetPassword (keyring_service self) (keyring_username self) token_pickle)
       (set_password env (keyring_service self) (keyring_username self)
          token_pickle) ;;;
  ret creds.

(** [DriveAuth.get_credentials] *)
Definition get_credentials : Run Credentials :=
  stored_token <- keyring_get_password ;;
  creds <- (if truthy stored_token then
              try_except (pickle_loads (default "" stored_token))
                         (λ _, ret None)
            else ret None) ;;
  match creds with
  | Some c =>
      if valid c then ret c
      else
        creds <- (if expired c && truthy (refresh_token c) then
                    try_except (c' <- call (Refresh c) (refresh env c) ;;
                                ret (Some c'))
                               (λ _, ret None)
                  else ret (Some c)) ;;
        obtain_and_save creds
  | None => obtain_and_save None
  end.

(** [DriveAuth.revoke_credentials] *)
Definition revoke_credentials : Run unit :=
  stored_token <- keyring_get_password ;;
  if truthy stored_token then
    try_finally
      (try_except
         (creds <- pickle_loads (default "" stored_token) ;;
          match creds with
          | Some c => call (Revoke c) (revoke env c)
          | None => ret tt
          end)
         (λ _, ret tt))
      (call (DeletePassword (keyring_service self) (keyring_username self))
            (delete_password env (keyring_service self) (keyring_username self)))
  else ret tt.

End DriveAuth.

(** The data written to the keyring, in order. *)
Definition writes (t : list step) : list string :=
  omap (λ s, match s with SetPassword _ _ data => Some data | _ => None end) t.

Definition flows (t : list step) : list step :=
  List.filter (λ s, match s with RunFlow _ _ => true | _ => false end) t.

(** An environment in memory: the world is the content of the keyring;
    a token is pickled as itself and unpickled as credentials that are
    valid unless the token starts with [old], expired then, and that can
    be refreshed when it ends in [+]; only the file [credentials.json]
    exists and the flow grants the token [granted]. *)
Definition unpickle (data : string) : Credentials :=
  {| valid := negb (String.prefix "old" data);
     expired := String.prefix "old" data;
     refresh_token :=
       if String.eqb (str_from (String.length data - 1) data) "+"
       then Some "r" else None;
     token := data |}.

Definition memory : Env (option string) :=
  {| get_password := λ _ _ w, (Done w, w);
     loads := λ data w, (Done (Some (unpickle data)), w);
     refresh := λ c w, (Done (unpickle "fresh+"), w);
     path_exists := λ path w, (String.eqb path "credentials.json", w);
     run_flow := λ _ _ w, (Done (unpickle "granted"), w);
     dumps := λ c w, (Done (token c), w);
     set_password := λ _ _ data _, (Done tt, Some data);
     delete_password := λ _ _ _, (Done tt, None);
     revoke := λ _ w, (Raised (LibraryError "'Credentials' object has no attribute 'revoke'"), w) |}.

Definition example_auth : DriveAuth :=
  {| credentials_file := "credentials.json";
     scopes := ["https://www.googleapis.com/auth/drive"];
     keyring_service := "gdrive_tool";
     keyring_username := "default" |}.

End Auth.

(** ** Requests tried one after the other *)

(** The replies that [_execute_with_retry] can get to one request:
    retryable failures, then the reply that ends the run. *)
Definition retried (reps : list reply) : Prop :=
  ∃ fs lst, reps = fs ++ [lst] ∧ Forall retryable_failure fs.

(** Whether the last reply to a request is a success. *)
Definition is_accepted (reps : list reply) : bool :=
  match last reps with
  | Some (Ok _) => true
  | _ => false
  end.

(** The trace of requests tried one after the other: the k-th request is
    executed once per reply of the k-th list, with the sleeps of the
    backoff in between. *)
Definition attempts (self : DriveManager) (reqs : list Request)
    (tried : list (list reply)) : list event :=
  concat (zip_with (λ req reps, backoff_trace self req 0 reps) reqs tried).

(** The entries whose request was accepted in the end. *)
Definition accepted_entries {A : Type} (entries : list A)
    (tried : list (list reply)) : list A :=
  (List.filter (λ x, is_accepted x.2) (zip entries tried)).*1.

(** The replies to a delete of [*.tmp] in a folder of three entries: the
    first deletion is refused, the second accepted. *)
Definition two_tmps : list Item :=
  [file_item "9" "x.tmp"; file_item "7" "y.tmp"; file_item "8" "keep.txt"].

Definition refused_first_delete : list reply :=
  [ Ok (response_page two_tmps None); Failed 403 "Forbidden";
    Ok (response_id "7") ].

(** * Properties *)

(** ** The retrying executor *)

Section RetryExecutor.
Context {World : Type}.
Variable execute : Request -> World -> reply * World.
Variable self : DriveManager.
Variable request : Request.

Lemma calls_app t1 t2 : calls (t1 ++ t2) = (calls t1 + calls t2)%nat.
Proof. unfold calls. by rewrite List.filter_app, length_app. Qed.

Lemma sleeps_app t1 t2 : sleeps (t1 ++ t2) = sleeps t1 ++ sleeps t2.
Proof. unfold sleeps. apply omap_app. Qed.

Lemma backoff_trace_cons c rep rep' reps :
  backoff_trace self request c (rep :: rep' :: reps) =
  EvExecute request rep :: EvSleep (2 ^ (c + 1) * retry_delay self) ::
  backoff_trace self request (c + 1) (rep' :: reps).
Proof. reflexivity. Qed.

Lemma calls_backoff_trace reps : ∀ c,
  calls (backoff_trace self request c reps) = length reps.
Proof.
  induction reps as [|rep [|rep' reps] IH]; intros c; [done..|].
  rewrite backoff_trace_cons.
  change (calls (_ :: _ :: ?t)) with (S (calls t)). by rewrite IH.
Qed.

(** The sleeps of a retried request: [2^(c+1) d, 2^(c+2) d, ...], one
    between two consecutive attempts. *)
Lemma sleeps_backoff_trace reps : ∀ c,
  sleeps (backoff_trace self request c reps) =
  (λ k : nat, 2 ^ (c + Z.of_nat k) * retry_delay self) <$>
    seq 1 (length reps - 1).
Proof.
  induction reps as [|rep [|rep' reps] IH]; intros c; [done..|].
  rewrite backoff_trace_cons.
  change (sleeps (_ :: EvSleep ?s :: ?t)) with (s :: sleeps t).
  rewrite IH. cbn [length]. replace (S (S (length reps)) - 1)%nat
    with (S (length reps)) by lia.
  replace (S (length reps) - 1)%nat with (length reps) by lia.
  cbn [seq fmap list_fmap]. f_equal. rewrite <- (fmap_S_seq 1), <- list_fmap_compose.
  apply list_fmap_ext. intros _ k _. cbn. do 2 f_equal. lia.
Qed.

(** One turn of the loop, case by case. *)
Lemma retry_loop_step fuel c st :
  c < max_retries self →
  retry_loop execute self request (S fuel) c st =
  let (rep, w) := execute request (world st) in
  let st1 := {| world := w; trace := trace st ++ [EvExecute request rep] |} in
  match rep with
  | Ok r => Some (Return (Some r), st1)
  | Failed status reason =>
      if retryable status then
        if c + 1 =? max_retries self
        then Some (Raise (HttpError status reason), st1)
        else
          if 2 ^ (c + 1) * retry_delay self <? 0
          then Some (Raise (ValueError "sleep length must be non-negative"), st1)
          else retry_loop execute self request fuel (c + 1)
                 {| world := w;
                    trace := trace st1 ++
                             [EvSleep (2 ^ (c + 1) * retry_delay self)] |}
      else Some (Raise (HttpError status reason), st1)
  end.
Proof.
  intros Hc. cbn [retry_loop].
  destruct (Z.ltb_spec c (max_retries self)); [|lia].
  unfold try_except, bind, request_execute.
  destruct (execute request (world st)) as [[r|status reason] w]; [done|].
  cbn. destruct (retryable status); [|done].
  destruct (c + 1 =? max_retries self); [done|].
  unfold time_sleep. cbn.
  by destruct (2 ^ (c + 1) * retry_delay self <? 0).
Qed.

Lemma retry_loop_done fuel c st :
  max_retries self ≤ c →
  retry_loop execute self request fuel c st = Some (Return None, st).
Proof.
  intros Hc. destruct fuel; cbn [retry_loop];
    by destruct (Z.ltb_spec c (max_retries self)); [lia|].
Qed.

(** The loop always finishes within [max_retries - retry_count] turns, and
    asks the store at most that many times. *)
Lemma retry_loop_total fuel : ∀ c st,
  max_retries self - c ≤ Z.of_nat fuel →
  ∃ out st',
    retry_loop execute self request fuel c st = Some (out, st') ∧
    ∃ t, trace st' = trace st ++ t ∧
         Z.of_nat (calls t) ≤ Z.max 0 (max_retries self - c).
Proof.
  induction fuel as [|fuel IH]; intros c st Hfuel.
  - rewrite retry_loop_done by lia. eexists _, _. split; [done|].
    exists []. rewrite app_nil_r. split; [done|]. cbn. lia.
  - destruct (Z.le_gt_cases (max_retries self) c) as [Hc|Hc].
    { rewrite retry_loop_done by lia. eexists _, _. split; [done|].
      exists []. rewrite app_nil_r. split; [done|]. cbn. lia. }
    rewrite retry_loop_step by lia.
    destruct (execute request (world st)) as [[r|status reason] w]; cbn zeta.
    + eexists _, _. split; [done|]. eexists. split; [done|]. cbn. lia.
    + destruct (retryable status).
      2:{ eexists _, _. split; [done|]. eexists. split; [done|]. cbn. lia. }
      destruct (c + 1 =? max_retries self).
      { eexists _, _. split; [done|]. eexists. split; [done|]. cbn. lia. }
      destruct (2 ^ (c + 1) * retry_delay self <? 0).
      { eexists _, _. split; [done|]. eexists. split; [done|]. cbn. lia. }
      edestruct (IH (c + 1)) as (out & st' & -> & t & Ht & Hcalls); [lia|].
      eexists _, _. split; [done|]. cbn [trace] in Ht.
      exists ([EvExecute request (Failed status reason)] ++
              [EvSleep (2 ^ (c + 1) * retry_delay self)] ++ t).
      split; [by rewrite Ht, <- !app_assoc|].
      rewrite !calls_app. cbn. lia.
Qed.

(** A run is determined by the replies of the store: after the retryable
    failures [fs], the reply [lst] ends the loop if it is a success, a
    failure that is not retryable, or the failure number [max_retries]. *)
Lemma retry_loop_run fs : ∀ fuel c st lst w',
  0 ≤ retry_delay self →
  replies execute request (S (length fs)) (world st) = (fs ++ [lst], w') →
  Forall retryable_failure fs →
  c + Z.of_nat (length fs) < max_retries self →
  max_retries self - c ≤ Z.of_nat fuel →
  (retryable_failure lst → c + Z.of_nat (length fs) + 1 = max_retries self) →
  retry_loop execute self request fuel c st =
  Some (outcome_of lst,
        {| world := w';
           trace := trace st ++ backoff_trace self request c (fs ++ [lst]) |}).
Proof.
  induction fs as [|f fs IH]; intros fuel c st lst w' Hd Hreps Hfs Hlen Hfuel Hstop.
  - destruct fuel as [|fuel]; [cbn in *; lia|].
    rewrite retry_loop_step by (cbn in Hlen; lia).
    cbn in Hreps.
    destruct (execute request (world st)) as [rep w]. simplify_eq.
    destruct lst as [r|status reason]; [done|].
    cbn in Hstop. destruct (retryable status); [|done].
    cbn in Hlen. by destruct (Z.eqb_spec (c + 1) (max_retries self)); [|lia].
  - destruct fuel as [|fuel]; [cbn in *; lia|].
    cbn [length] in *. rewrite retry_loop_step by lia.
    change (replies execute request (S (S (length fs))) (world st))
      with (let (rep, w1) := execute request (world st) in
            let (reps, w2) := replies execute request (S (length fs)) w1 in
            (rep :: reps, w2)) in Hreps.
    destruct (execute request (world st)) as [rep w].
    destruct (replies execute request (S (length fs)) w) as [reps w2] eqn:Hrest.
    simplify_eq/=. inversion Hfs as [|? ? Hf Hfs']; subst.
    destruct f as [r|status reason]; [done|]. cbn in Hf. rewrite Hf.
    destruct (Z.eqb_spec (c + 1) (max_retries self)); [lia|].
    assert (0 ≤ 2 ^ (c + 1) * retry_delay self) by
      (apply Z.mul_nonneg_nonneg; [apply Z.pow_nonneg|]; lia).
    destruct (Z.ltb_spec (2 ^ (c + 1) * retry_delay self) 0); [lia|].
    erewrite IH; [|done|exact Hrest|done|lia|lia|intros Hl; specialize (Hstop Hl); lia].
    cbn [trace world]. do 3 f_equal.
    destruct fs; cbn; by rewrite <- !app_assoc.
Qed.

(** For every store the run has that shape. *)
Lemma retry_loop_shape fuel : ∀ c st,
  0 ≤ retry_delay self →
  c < max_retries self →
  max_retries self - c ≤ Z.of_nat fuel →
  ∃ fs lst st',
    retry_loop execute self request fuel c st = Some (outcome_of lst, st') ∧
    replies execute request (S (length fs)) (world st) = (fs ++ [lst], world st') ∧
    Forall retryable_failure fs ∧
    c + Z.of_nat (length fs) < max_retries self ∧
    (retryable_failure lst → c + Z.of_nat (length fs) + 1 = max_retries self) ∧
    trace st' = trace st ++ backoff_trace self request c (fs ++ [lst]).
Proof.
  induction fuel as [|fuel IH]; intros c st Hd Hc Hfuel; [lia|].
  rewrite retry_loop_step by lia.
  destruct (execute request (world st)) as [rep w] eqn:Hex.
  assert (Hone : replies execute request 1 (world st) = ([rep], w))
    by (cbn; by rewrite Hex).
  destruct rep as [r|status reason]; cbn zeta.
  { exists [], (Ok r). eexists. split; [done|]. cbn [length app world].
    split_and!; [done|constructor|lia|done|done]. }
  destruct (retryable status) eqn:Hretry.
  2:{ exists [], (Failed status reason). eexists. split; [done|].
      cbn [length app world]. split_and!; [done|constructor|lia| |done].
      cbn. by rewrite Hretry. }
  destruct (Z.eqb_spec (c + 1) (max_retries self)) as [Heq|Hne].
  { exists [], (Failed status reason). eexists. split; [done|].
    cbn [length app world]. split_and!; [done|constructor|lia| |done].
    cbn. lia. }
  assert (0 ≤ 2 ^ (c + 1) * retry_delay self) by
    (apply Z.mul_nonneg_nonneg; [apply Z.pow_nonneg|]; lia).
  destruct (Z.ltb_spec (2 ^ (c + 1) * retry_delay self) 0); [lia|].
  edestruct (IH (c + 1)) as (fs & lst & st' & -> & Hreps & Hfs & Hlen & Hstop & Ht);
    [done|lia|lia|].
  cbn [world trace] in *.
  exists (Failed status reason :: fs), lst, st'. split; [done|].
  split_and!.
  - change (replies execute request (S (length (Failed status reason :: fs))) (world st))
      with (let (rep, w1) := execute request (world st) in
            let (reps, w2) := replies execute request (S (length fs)) w1 in
            (rep :: reps, w2)).
    by rewrite Hex, Hreps.
  - by constructor.
  - cbn [length]. lia.
  - intros Hl. specialize (Hstop Hl). cbn [length]. lia.
  - rewrite Ht. destruct fs; cbn; by rewrite <- !app_assoc.
Qed.

(** Whatever the delay, the trace of a run is made of attempts separated
    by the sleeps of the backoff: a sleep that [time.sleep] refuses leaves
    no event and ends the run. *)
Lemma retry_loop_trace fuel : ∀ c st,
  c < max_retries self →
  max_retries self - c ≤ Z.of_nat fuel →
  ∃ reps out st',
    retry_loop execute self request fuel c st = Some (out, st') ∧
    trace st' = trace st ++ backoff_trace self request c reps ∧
    (1 ≤ length reps)%nat ∧
    c + Z.of_nat (length reps) ≤ max_retries self.
Proof.
  induction fuel as [|fuel IH]; intros c st Hc Hfuel; [lia|].
  rewrite retry_loop_step by lia.
  destruct (execute request (world st)) as [rep w] eqn:Hex.
  assert (Hstop : ∀ out : outcome (option Response),
    ∃ reps (out' : outcome (option Response)) st',
      Some (out, {| world := w; trace := trace st ++ [EvExecute request rep] |}) =
        Some (out', st') ∧
      trace st' = trace st ++ backoff_trace self request c reps ∧
      (1 ≤ length reps)%nat ∧ c + Z.of_nat (length reps) ≤ max_retries self).
  { intros out. exists [rep]. eexists _, _. split_and!; [done|done|cbn; lia|cbn; lia]. }
  destruct rep as [r|status reason]; cbn zeta; [apply Hstop|].
  destruct (retryable status); [|apply Hstop].
  destruct (Z.eqb_spec (c + 1) (max_retries self)); [apply Hstop|].
  destruct (2 ^ (c + 1) * retry_delay self <? 0); [apply Hstop|].
  edestruct (IH (c + 1)) as (reps & out & st' & -> & Ht & Hlen & Hmax); [lia|lia|].
  cbn [trace] in Ht.
  exists (Failed status reason :: reps), out, st'. split_and!.
  - done.
  - rewrite Ht. destruct reps; [cbn in Hlen; lia|]. cbn. by rewrite <- !app_assoc.
  - cbn. lia.
  - cbn [length]. lia.
Qed.

(** In the trace of a retried request every sleep is followed by another
    attempt. *)
Lemma backoff_trace_sleep_then_call reps : ∀ c t1 s t2,
  backoff_trace self request c reps = t1 ++ EvSleep s :: t2 →
  ∃ rep t3, t2 = EvExecute request rep :: t3.
Proof.
  induction reps as [|rep [|rep' reps] IH]; intros c t1 s t2 Heq.
  - by destruct t1.
  - destruct t1 as [|? [|]]; done.
  - rewrite backoff_trace_cons in Heq.
    destruct t1 as [|e1 [|e2 t1]]; simplify_eq/=.
    + destruct reps; eauto.
    + eapply (IH (c + 1) t1). cbn. eassumption.
Qed.

Lemma replies_length n : ∀ w reps w',
  replies execute request n w = (reps, w') → length reps = n.
Proof.
  induction n as [|n IH]; intros w reps w' Heq; cbn in Heq; [by simplify_eq|].
  destruct (execute request w) as [rep w1].
  destruct (replies execute request n w1) as [reps1 w2] eqn:Hrest.
  simplify_eq/=. f_equal. eauto.
Qed.
End RetryExecutor.

(** C10: with [max_retries] zero or negative the loop body is never
    entered: [_execute_with_retry] returns [None], the store is not asked
    and nothing is raised.  The operations built on it get that [None] in
    place of a response: [get_file_metadata] returns it, and those that
    read the response fail on it ([_copy_file] on the subscript,
    [list_folder_contents] on [.get]). *)
Theorem execute_with_retry_nonpositive {World : Type}
    (execute : Request → World → reply * World)
    (self : DriveManager) (request : Request) (st : State World) :
  max_retries self ≤ 0 →
  _execute_with_retry execute self request st = Some (Return None, st) ∧
  (∀ file_id,
     get_file_metadata execute self file_id st = Some (Return None, st)) ∧
  (∀ file_id parent_id new_name,
     _copy_file execute self file_id parent_id new_name st =
     Some (Raise (TypeError "'NoneType' object is not subscriptable"), st)) ∧
  (∀ fuel folder_id,
     list_folder_contents execute self (S fuel) folder_id st =
     Some (Raise (AttributeError "'NoneType' object has no attribute 'get'"), st)).
Proof.
  intros Hmax. split_and!.
  - unfold _execute_with_retry. by apply retry_loop_done.
  - intros file_id. unfold get_file_metadata, try_except, _execute_with_retry.
    by rewrite retry_loop_done.
  - intros file_id parent_id new_name.
    unfold _copy_file, bind, _execute_with_retry. by rewrite retry_loop_done.
  - intros fuel folder_id. unfold list_folder_contents. cbn [list_pages].
    unfold bind, _execute_with_retry. by rewrite retry_loop_done.
Qed.

Lemma execute_with_retry_nonpositive_witness :
  _execute_with_retry scripted
    {| batch_size := 100; max_retries := 0; retry_delay := 1 |}
    (FilesDelete "f1") (initial [Ok (response_id "f1")]) =
  Some (Return None, initial [Ok (response_id "f1")]).
Proof.
  apply (execute_with_retry_nonpositive scripted
           {| batch_size := 100; max_retries := 0; retry_delay := 1 |}).
  cbn. lia.
Defined.

(** C3: [_execute_with_retry] asks the store at most [max_retries] times.
    With a delay that is not negative: two retryable failures and then a
    success, under [max_retries = 3], make three calls and return the
    success; [max_retries >= 1] retryable failures in a row make exactly
    [max_retries] calls and raise the last of them.  A failure that is not
    retryable on the first call is raised after that one call, with no
    sleep. *)
Theorem retry_attempts {World : Type}
    (execute : Request → World → reply * World)
    (self : DriveManager) (request : Request) (st : State World) :
  (∃ out st' t,
      _execute_with_retry execute self request st = Some (out, st') ∧
      trace st' = trace st ++ t ∧
      Z.of_nat (calls t) ≤ Z.max 0 (max_retries self)) ∧
  (∀ s1 m1 s2 m2 r w',
      0 ≤ retry_delay self →
      max_retries self = 3 →
      retryable s1 = true → retryable s2 = true →
      replies execute request 3 (world st) =
        ([Failed s1 m1; Failed s2 m2; Ok r], w') →
      let t := [EvExecute request (Failed s1 m1);
                EvSleep (2 * retry_delay self);
                EvExecute request (Failed s2 m2);
                EvSleep (4 * retry_delay self);
                EvExecute request (Ok r)] in
      _execute_with_retry execute self request st =
        Some (Return (Some r), {| world := w'; trace := trace st ++ t |}) ∧
      calls t = 3%nat) ∧
  (∀ reps w',
      0 ≤ retry_delay self →
      1 ≤ max_retries self →
      replies execute request (Z.to_nat (max_retries self)) (world st) =
        (reps, w') →
      Forall retryable_failure reps →
      ∃ status reason t,
        last reps = Some (Failed status reason) ∧
        _execute_with_retry execute self request st =
          Some (Raise (HttpError status reason),
                {| world := w'; trace := trace st ++ t |}) ∧
        calls t = Z.to_nat (max_retries self)) ∧
  (∀ status reason w',
      1 ≤ max_retries self →
      execute request (world st) = (Failed status reason, w') →
      retryable status = false →
      _execute_with_retry execute self request st =
        Some (Raise (HttpError status reason),
              {| world := w';
                 trace := trace st ++ [EvExecute request (Failed status reason)] |})).
Proof.
  unfold _execute_with_retry. split; [|split; [|split]].
  - destruct (retry_loop_total execute self request
                (Z.to_nat (max_retries self)) 0 st) as (out & st' & Hrun & t & Ht & Hcalls);
      [lia|].
    exists out, st', t. split_and!; [done|done|lia].
  - intros s1 m1 s2 m2 r w' Hd Hmax H1 H2 Hreps.
    split; [|done].
    rewrite (retry_loop_run execute self request
               [Failed s1 m1; Failed s2 m2] _ 0 st (Ok r) w');
      [done|done|done| |cbn; lia|lia|done].
    repeat constructor; done.
  - intros reps w' Hd Hmax Hreps Hall.
    pose proof (replies_length _ _ _ _ _ _ Hreps) as Hlen.
    destruct reps as [|rep0 reps0] using rev_ind; [cbn in Hlen; lia|].
    clear IHreps0. apply Forall_app in Hall as [Hfs Hlst].
    inversion Hlst as [|? ? Hl _]; subst.
    destruct rep0 as [r|status reason]; [done|].
    rewrite length_app in Hlen. cbn in Hlen.
    exists status, reason. eexists. split_and!.
    + by rewrite last_snoc.
    + apply (retry_loop_run execute self request reps0 _ 0 st
               (Failed status reason) w'); [done| |done|lia|lia|lia].
      rewrite <- Hreps. f_equal. lia.
    + rewrite calls_backoff_trace, length_app. cbn. lia.
  - intros status reason w' Hmax Hex Hretry.
    replace (Z.to_nat (max_retries self)) with (S (Z.to_nat (max_retries self - 1)))
      by lia.
    rewrite retry_loop_step by lia. by rewrite Hex, Hretry.
Qed.

Lemma retry_attempts_witness :
  let request := FilesGet "f1" metadata_fields in
  let r := response_meta "f1" "a.txt" "text/plain" in
  _execute_with_retry scripted example_manager request
    (initial [Failed 503 "Service Unavailable"; Failed 429 "Too Many Requests"; Ok r]) =
  Some (Return (Some r),
        {| world := [];
           trace := [EvExecute request (Failed 503 "Service Unavailable");
                     EvSleep 2;
                     EvExecute request (Failed 429 "Too Many Requests");
                     EvSleep 4;
                     EvExecute request (Ok r)] |}).
Proof.
  intros request r.
  pose proof (retry_attempts scripted example_manager request
    (initial [Failed 503 "Service Unavailable"; Failed 429 "Too Many Requests"; Ok r]))
    as (_ & H & _).
  apply (H 503 "Service Unavailable"%string 429 "Too Many Requests"%string r []);
    [cbn; lia|reflexivity|reflexivity|reflexivity|reflexivity].
Defined.

Lemma schedule_doubles (d : Z) (m k : nat) (a b : Z) :
  ((λ k : nat, 2 ^ Z.of_nat k * d) <$> seq 1 m) !! k = Some a →
  ((λ k : nat, 2 ^ Z.of_nat k * d) <$> seq 1 m) !! S k = Some b →
  b = 2 * a ∧ (0 < d → a < b).
Proof.
  rewrite !list_lookup_fmap. intros Ha Hb.
  destruct (seq 1 m !! k) as [i|] eqn:Hi; [|done].
  destruct (seq 1 m !! S k) as [j|] eqn:Hj; [|done].
  apply lookup_seq in Hi as [-> _]. apply lookup_seq in Hj as [-> _].
  simplify_eq/=.
  replace (Z.of_nat (S (S k))) with (Z.succ (Z.of_nat (S k))) by lia.
  rewrite Z.pow_succ_r by lia.
  assert (0 < 2 ^ Z.of_nat (S k)) by (apply Z.pow_pos_nonneg; lia).
  split; [lia|nia].
Qed.

Section Backoff.
Context {World : Type}.
Variable execute : Request → World → reply * World.
Variable self : DriveManager.
Variable request : Request.

(** Every run is a series of retryable failures, fewer than [max_retries],
    each followed by a sleep, and a last reply.  With a delay that
    [time.sleep] accepts, the last reply is a retryable failure only when
    it is the failure number [max_retries]. *)
Lemma retry_loop_failures fuel : ∀ c st,
  c < max_retries self →
  max_retries self - c ≤ Z.of_nat fuel →
  ∃ fs lst out st',
    retry_loop execute self request fuel c st = Some (out, st') ∧
    trace st' = trace st ++ backoff_trace self request c (fs ++ [lst]) ∧
    Forall retryable_failure fs ∧
    c + Z.of_nat (length fs) < max_retries self ∧
    (0 ≤ retry_delay self → retryable_failure lst →
     c + Z.of_nat (length fs) + 1 = max_retries self).
Proof.
  induction fuel as [|fuel IH]; intros c st Hc Hfuel; [lia|].
  rewrite retry_loop_step by lia.
  destruct (execute request (world st)) as [rep w] eqn:Hex.
  destruct rep as [r|status reason]; cbn zeta.
  { exists [], (Ok r). eexists _, _.
    split_and!; [done|done|constructor|cbn; lia|done]. }
  destruct (retryable status) eqn:Hretry.
  2:{ exists [], (Failed status reason). eexists _, _.
      split_and!; [done|done|constructor|cbn; lia|].
      intros _. cbn. by rewrite Hretry. }
  destruct (Z.eqb_spec (c + 1) (max_retries self)) as [Heq|Hne].
  { exists [], (Failed status reason). eexists _, _.
    split_and!; [done|done|constructor|cbn; lia|cbn; lia]. }
  destruct (Z.ltb_spec (2 ^ (c + 1) * retry_delay self) 0) as [Hneg|Hpos].
  { exists [], (Failed status reason). eexists _, _.
    split_and!; [done|done|constructor|cbn; lia|].
    intros Hd _. exfalso.
    assert (0 ≤ 2 ^ (c + 1) * retry_delay self) by
      (apply Z.mul_nonneg_nonneg; [apply Z.pow_nonneg|]; lia).
    lia. }
  edestruct (IH (c + 1)) as (fs & lst & out & st' & -> & Ht & Hfs & Hlen & Hstop);
    [lia|lia|].
  cbn [trace] in Ht.
  exists (Failed status reason :: fs), lst, out, st'. split_and!.
  - done.
  - rewrite Ht. destruct fs; cbn; by rewrite <- !app_assoc.
  - constructor; [exact Hretry|done].
  - cbn [length]. lia.
  - intros Hd Hl. specialize (Hstop Hd Hl). cbn [length]. lia.
Qed.

(** In the trace of a retried request something follows an attempt only
    when its reply is one of the failures before the last. *)
Lemma backoff_trace_attempt_followed fs : ∀ c lst t1 rep t2,
  backoff_trace self request c (fs ++ [lst]) = t1 ++ EvExecute request rep :: t2 →
  t2 ≠ [] →
  rep ∈ fs ∧ (calls t1 < length fs)%nat.
Proof.
  induction fs as [|f fs IH]; intros c lst t1 rep t2 Heq Hne.
  - destruct t1 as [|e1 [|e2 t1]]; simplify_eq/=.
  - replace (backoff_trace self request c ((f :: fs) ++ [lst]))
      with (EvExecute request f :: EvSleep (2 ^ (c + 1) * retry_delay self) ::
            backoff_trace self request (c + 1) (fs ++ [lst])) in Heq
      by (by destruct fs).
    destruct t1 as [|e1 [|e2 t1]]; cbn [app] in Heq.
    + injection Heq as -> _. split; [left|cbn; lia].
    + discriminate.
    + injection Heq as <- <- Heq.
      destruct (IH _ _ _ _ _ Heq Hne) as [Hin Hlt].
      split; [by right|].
      change (calls (EvExecute request f :: EvSleep ?s :: t1)) with (S (calls t1)).
      cbn [length]. lia.
Qed.

Lemma backoff_trace_last fs : ∀ c lst,
  ∃ t0, backoff_trace self request c (fs ++ [lst]) = t0 ++ [EvExecute request lst].
Proof.
  induction fs as [|f fs IH]; intros c lst.
  - by exists [].
  - destruct (IH (c + 1) lst) as [t0 Ht0].
    exists (EvExecute request f :: EvSleep (2 ^ (c + 1) * retry_delay self) :: t0).
    replace (backoff_trace self request c ((f :: fs) ++ [lst]))
      with (EvExecute request f :: EvSleep (2 ^ (c + 1) * retry_delay self) ::
            backoff_trace self request (c + 1) (fs ++ [lst]))
      by (by destruct fs).
    by rewrite Ht0.
Qed.
End Backoff.

Lemma retryable_statuses (rep : reply) :
  retryable_failure rep →
  ∃ status reason, rep = Failed status reason ∧ status ∈ [429; 500; 503].
Proof.
  destruct rep as [r|status reason]; [done|]. cbn. unfold retryable.
  intros Hin%bool_decide_eq_true. by exists status, reason.
Qed.

(** C4: whatever the store answers, the sleep before the k-th retry lasts
    [2^k * retry_delay] seconds and nothing else is slept: each delay is
    twice the one before, so with a positive [retry_delay] the delays
    strictly increase; every sleep is followed by another attempt, hence
    none comes after the attempt that ends the run.  An attempt is
    followed by a sleep only when it failed with status 429, 500 or 503
    and was not the attempt number [max_retries]: a success, any other
    failure and the failure that exhausts [max_retries] end the run at
    once.  With a delay that [time.sleep] accepts, a run that ends on one
    of these three statuses has made [max_retries] attempts. *)
Theorem backoff_schedule {World : Type}
    (execute : Request → World → reply * World)
    (self : DriveManager) (request : Request) (st : State World) :
  ∃ out st' t,
    _execute_with_retry execute self request st = Some (out, st') ∧
    trace st' = trace st ++ t ∧
    sleeps t = (λ k : nat, 2 ^ Z.of_nat k * retry_delay self) <$>
                 seq 1 (calls t - 1) ∧
    (∀ k a b, sleeps t !! k = Some a → sleeps t !! S k = Some b →
              b = 2 * a ∧ (0 < retry_delay self → a < b)) ∧
    (∀ t1 s t2, t = t1 ++ EvSleep s :: t2 →
                ∃ rep t3, t2 = EvExecute request rep :: t3) ∧
    Z.of_nat (length (sleeps t)) < Z.max 1 (max_retries self) ∧
    (∀ t1 rep t2, t = t1 ++ EvExecute request rep :: t2 → t2 ≠ [] →
       (∃ status reason, rep = Failed status reason ∧
                         status ∈ [429; 500; 503]) ∧
       Z.of_nat (calls t1) + 1 < max_retries self) ∧
    (0 ≤ retry_delay self →
     ∀ t1 status reason,
       t = t1 ++ [EvExecute request (Failed status reason)] →
       status ∈ [429; 500; 503] →
       Z.of_nat (calls t) = max_retries self).
Proof.
  unfold _execute_with_retry.
  destruct (Z.le_gt_cases (max_retries self) 0) as [Hmax|Hmax].
  { rewrite retry_loop_done by done. exists (Return None), st, [].
    rewrite app_nil_r. split_and!; [done..| | |cbn; lia| |].
    - intros k a b Ha. by destruct k.
    - intros [|] ?; done.
    - intros [|] ?; done.
    - intros _ [|] ?; done. }
  destruct (retry_loop_failures execute self request
              (Z.to_nat (max_retries self)) 0 st)
    as (fs & lst & out & st' & Hrun & Ht & Hfs & Hlen & Hstop); [lia|lia|].
  exists out, st', (backoff_trace self request 0 (fs ++ [lst])).
  assert (Hs : sleeps (backoff_trace self request 0 (fs ++ [lst])) =
               (λ k : nat, 2 ^ Z.of_nat k * retry_delay self) <$>
                 seq 1 (calls (backoff_trace self request 0 (fs ++ [lst])) - 1)).
  { rewrite sleeps_backoff_trace, calls_backoff_trace. done. }
  split_and!; [done|done|done| | | | |].
  - intros k a b. rewrite Hs. apply schedule_doubles.
  - intros t1 s t2. apply backoff_trace_sleep_then_call.
  - rewrite Hs, length_fmap, length_seq, calls_backoff_trace, length_app.
    cbn. lia.
  - intros t1 rep t2 Heq Hne.
    destruct (backoff_trace_attempt_followed self request fs 0 lst t1 rep t2
                Heq Hne) as [Hin Hlt].
    split; [|lia]. apply retryable_statuses.
    eapply Forall_forall in Hfs; [exact Hfs|done].
  - intros Hd t1 status reason Heq Hstatus.
    destruct (backoff_trace_last self request fs 0 lst) as [t0 Ht0].
    rewrite Ht0 in Heq. apply app_inj_tail in Heq as [_ Hlast].
    injection Hlast as ->.
    rewrite calls_backoff_trace, length_app. cbn [length].
    assert (retryable_failure (Failed status reason)) as Hl.
    { cbn. unfold retryable. by apply bool_decide_eq_true. }
    specialize (Hstop Hd Hl). lia.
Qed.

Lemma backoff_schedule_witness :
  (∃ out st',
     _execute_with_retry scripted example_manager (FilesDelete "f1")
       (initial [Failed 500 "Internal Server Error";
                 Failed 503 "Service Unavailable";
                 Ok (response_id "f1")]) = Some (out, st') ∧
     sleeps (trace st') = [2; 4]) ∧
  (∃ st',
     _execute_with_retry scripted example_manager (FilesDelete "f1")
       (initial [Failed 500 "Internal Server Error"; Failed 404 "File not found";
                 Ok (response_id "f1")]) =
     Some (Raise (HttpError 404 "File not found"), st') ∧
     world st' = [Ok (response_id "f1")] ∧
     sleeps (trace st') = [2] ∧
     ∀ t1 rep t2,
       trace st' = t1 ++ EvExecute (FilesDelete "f1") rep :: t2 → t2 ≠ [] →
       ∃ status reason, rep = Failed status reason ∧ status ∈ [429; 500; 503]).
Proof.
  split.
  - destruct (backoff_schedule scripted example_manager (FilesDelete "f1")
      (initial [Failed 500 "Internal Server Error";
                Failed 503 "Service Unavailable"; Ok (response_id "f1")]))
      as (out & st' & t & Hrun & _).
    exists out, st'. split; [exact Hrun|].
    vm_compute in Hrun. injection Hrun as _ <-. reflexivity.
  - destruct (backoff_schedule scripted example_manager (FilesDelete "f1")
      (initial [Failed 500 "Internal Server Error"; Failed 404 "File not found";
                Ok (response_id "f1")]))
      as (out & st' & t & Hrun & Ht & _ & _ & _ & _ & Hfollowed & _).
    assert (Hc : _execute_with_retry scripted example_manager (FilesDelete "f1")
                   (initial [Failed 500 "Internal Server Error";
                             Failed 404 "File not found"; Ok (response_id "f1")]) =
                 Some (Raise (HttpError 404 "File not found"),
                       {| world := [Ok (response_id "f1")];
                          trace := [EvExecute (FilesDelete "f1")
                                      (Failed 500 "Internal Server Error");
                                    EvSleep 2;
                                    EvExecute (FilesDelete "f1")
                                      (Failed 404 "File not found")] |}))
      by reflexivity.
    rewrite Hc in Hrun. injection Hrun as <- <-.
    eexists. split; [exact Hc|]. split; [reflexivity|]. split; [reflexivity|].
    intros t1 rep t2 Heq Hne. cbn [trace initial app] in Ht. subst t.
    exact (proj1 (Hfollowed t1 rep t2 Heq Hne)).
Defined.

(** With [retry_delay = 0] the delays double and stay zero: they do not
    increase. *)
Lemma backoff_constant_at_zero_delay :
  ∃ st',
    _execute_with_retry scripted
      {| batch_size := 100; max_retries := 3; retry_delay := 0 |}
      (FilesDelete "f1")
      (initial [Failed 500 "Internal Server Error";
                Failed 503 "Service Unavailable"; Ok (response_id "f1")]) =
    Some (Return (Some (response_id "f1")), st') ∧
    sleeps (trace st') = [0; 0] ∧
    ¬ (∀ k a b, sleeps (trace st') !! k = Some a →
                sleeps (trace st') !! S k = Some b → a < b).
Proof.
  eexists. split; [vm_compute; reflexivity|]. split; [reflexivity|].
  intros Hinc. specialize (Hinc 0%nat 0 0 eq_refl eq_refl). lia.
Qed.

(** ** Listing a folder *)

Lemma execute_with_retry_ok {World : Type}
    (execute : Request → World → reply * World)
    (self : DriveManager) (request : Request) (st : State World) r w' :
  1 ≤ max_retries self →
  execute request (world st) = (Ok r, w') →
  _execute_with_retry execute self request st =
  Some (Return (Some r),
        {| world := w'; trace := trace st ++ [EvExecute request (Ok r)] |}).
Proof.
  intros Hmax Hex. unfold _execute_with_retry.
  replace (Z.to_nat (max_retries self)) with (S (Z.to_nat (max_retries self - 1)))
    by lia.
  rewrite retry_loop_step by lia. by rewrite Hex.
Qed.

Lemma list_pages_serves {World : Type}
    (execute : Request → World → reply * World)
    (self : DriveManager) (folder_id : string) page_token w pages w' :
  1 ≤ max_retries self →
  serves execute self folder_id page_token w pages w' →
  ∀ fuel items t0, (length pages ≤ fuel)%nat →
  ∃ t,
    list_pages execute self folder_id fuel items page_token
      {| world := w; trace := t0 |} =
    Some (Return (items ++ concat pages), {| world := w'; trace := t0 ++ t |}) ∧
    length t = length pages ∧
    Forall (λ e, ∃ tok r, e = EvExecute (list_request self folder_id tok) (Ok r)) t.
Proof.
  intros Hmax Hserves.
  induction Hserves as [tok w r w' Hex Hlast|tok w r w1 pages w' Hex Hmore _ IH];
    intros fuel items t0 Hfuel.
  - destruct fuel as [|fuel]; [cbn in Hfuel; lia|].
    cbn [list_pages]. unfold bind.
    fold (list_request self folder_id tok).
    rewrite (execute_with_retry_ok execute self _ _ r w') by done.
    rewrite Hlast.
    exists [EvExecute (list_request self folder_id tok) (Ok r)].
    split_and!; [|done|].
    + cbn. by rewrite app_nil_r.
    + repeat constructor. eauto.
  - destruct fuel as [|fuel]; [cbn in Hfuel; lia|].
    cbn [list_pages]. unfold bind.
    fold (list_request self folder_id tok).
    rewrite (execute_with_retry_ok execute self _ _ r w1) by done.
    rewrite Hmore. cbn [trace].
    destruct (IH fuel (items ++ default [] (resp_files r))
                (t0 ++ [EvExecute (list_request self folder_id tok) (Ok r)]))
      as (t & -> & Hlen & Hall); [cbn in Hfuel; lia|].
    exists (EvExecute (list_request self folder_id tok) (Ok r) :: t).
    split_and!.
    + cbn [concat]. by rewrite <- !app_assoc.
    + cbn. by rewrite Hlen.
    + constructor; eauto.
Qed.

(** C7: when the store serves the folder in the pages [pages], the last of
    which carries no token, [list_folder_contents] asks once per page,
    passing on the token of the page before, sleeps never, and returns the
    items of the pages in the order the pages came.  (The witness is a
    folder of 250 items listed with [batch_size = 100]: three requests.) *)
Theorem list_folder_contents_pages {World : Type}
    (execute : Request → World → reply * World)
    (self : DriveManager) (fuel : nat) (folder_id : string)
    (st : State World) (pages : list (list Item)) (w' : World) :
  1 ≤ max_retries self →
  serves execute self folder_id None (world st) pages w' →
  (length pages ≤ fuel)%nat →
  ∃ t,
    list_folder_contents execute self fuel folder_id st =
    Some (Return (concat pages), {| world := w'; trace := trace st ++ t |}) ∧
    length t = length pages ∧
    Forall (λ e, ∃ tok r, e = EvExecute (list_request self folder_id tok) (Ok r)) t.
Proof.
  intros Hmax Hserves Hfuel. unfold list_folder_contents. destruct st as [w t0].
  by apply (list_pages_serves execute self folder_id None w pages w' Hmax Hserves
              fuel [] t0).
Qed.

Lemma list_folder_contents_pages_witness :
  (∃ t,
     list_folder_contents paged example_manager 3 "root" (initial (folder_of 250)) =
     Some (Return (folder_of 250), {| world := folder_of 250; trace := t |}) ∧
     length t = 3%nat) ∧
  list_folder_contents paged example_manager 1 "root" (initial []) =
  Some (Return [],
        {| world := [];
           trace := [EvExecute (list_request example_manager "root" None)
                       (Ok (response_page [] None))] |}).
Proof.
  split.
  - assert (∃ pages, serves paged example_manager "root" None (folder_of 250) pages
                       (folder_of 250) ∧ concat pages = folder_of 250 ∧
                     length pages = 3%nat) as (pages & Hserves & Hcat & Hlen).
    { eexists. split.
      - eapply serves_more; [vm_compute; reflexivity|reflexivity|].
        eapply serves_more; [vm_compute; reflexivity|reflexivity|].
        eapply serves_last; [vm_compute; reflexivity|reflexivity].
      - split; [vm_compute; reflexivity|reflexivity]. }
    destruct (list_folder_contents_pages paged example_manager 3 "root"
                (initial (folder_of 250)) pages (folder_of 250))
      as (t & Hrun & Ht & _); [cbn; lia|exact Hserves|lia|].
    exists t. rewrite Hrun, Hcat, Ht, Hlen. done.
  - destruct (list_folder_contents_pages paged example_manager 1 "root"
                (initial []) [[]] [])
      as (t & Hrun & _); [cbn; lia| |cbn; lia|].
    + eapply (serves_last paged example_manager "root" None [] (response_page [] None));
        reflexivity.
    + reflexivity.
Defined.

(** ** Patterns *)

Lemma lang_cat_inv r1 r2 w :
  lang (Cat r1 r2) w → ∃ u v, w = u ++ v ∧ lang r1 u ∧ lang r2 v.
Proof. inversion 1; subst; eauto. Qed.

Lemma lang_alt_inv r1 r2 w : lang (Alt r1 r2) w → lang r1 w ∨ lang r2 w.
Proof. inversion 1; subst; eauto. Qed.

Lemma nullable_lang r : nullable r = true ↔ lang r [].
Proof.
  induction r as [| |f|r1 IH1 r2 IH2|r1 IH1 r2 IH2|r IH]; cbn.
  - split; [done|inversion 1].
  - split; [constructor|done].
  - split; [done|inversion 1].
  - rewrite andb_true_iff, IH1, IH2. split.
    + intros [H1 H2]. by apply (lang_cat _ _ [] []).
    + intros (u & v & Huv & H1 & H2)%lang_cat_inv.
      symmetry in Huv. apply app_eq_nil in Huv as [-> ->]. done.
  - rewrite orb_true_iff, IH1, IH2. split.
    + intros [H|H]; [by apply lang_alt_l|by apply lang_alt_r].
    + inversion 1; subst; eauto.
  - split; [constructor|done].
Qed.

Lemma lang_star_cons r a s :
  lang (Star r) (a :: s) →
  ∃ u v, s = u ++ v ∧ lang r (a :: u) ∧ lang (Star r) v.
Proof.
  intros H. remember (Star r) as sr eqn:Hsr. remember (a :: s) as w eqn:Hw.
  revert s Hw.
  induction H as [| | | | | |r' u v Hu _ Hv IH]; intros s Hw; try done.
  simplify_eq. destruct u as [|b u].
  - cbn in Hw. subst. by apply IH.
  - cbn in Hw. simplify_eq. eauto.
Qed.

Lemma deriv_lang a r : ∀ s, lang (deriv a r) s ↔ lang r (a :: s).
Proof.
  induction r as [| |f|r1 IH1 r2 IH2|r1 IH1 r2 IH2|r IH]; intros s; cbn.
  - split; inversion 1.
  - split; inversion 1.
  - destruct (f a) eqn:Hf; split; inversion 1; subst.
    + by constructor.
    + constructor.
    + congruence.
  - assert (Hcat : lang (Cat (deriv a r1) r2) s →
                   lang (Cat r1 r2) (a :: s)).
    { intros (u & v & -> & Hu & Hv)%lang_cat_inv.
      apply (lang_cat _ _ (a :: u) v); [by apply IH1|done]. }
    destruct (nullable r1) eqn:Hn; split.
    + intros [Hl|Hr]%lang_alt_inv; [by apply Hcat|].
      apply (lang_cat _ _ [] (a :: s)); [by apply nullable_lang|by apply IH2].
    + intros ([|b u] & v & Huv & Hu & Hv)%lang_cat_inv; cbn in Huv; simplify_eq.
      * apply lang_alt_r. by apply IH2.
      * apply lang_alt_l. constructor; [by apply IH1|done].
    + apply Hcat.
    + intros ([|b u] & v & Huv & Hu & Hv)%lang_cat_inv; cbn in Huv; simplify_eq.
      * apply nullable_lang in Hu. congruence.
      * constructor; [by apply IH1|done].
  - split; intros [H|H]%lang_alt_inv;
      (by apply lang_alt_l, IH1) || (by apply lang_alt_r, IH2).
  - split.
    + intros (u & v & -> & Hu & Hv)%lang_cat_inv.
      apply (lang_star_app _ (a :: u) v); [by apply IH|done].
    + intros (u & v & -> & Hu & Hv)%lang_star_cons.
      constructor; [by apply IH|done].
Qed.

Lemma accepts_lang : ∀ s r, accepts r s = true ↔ lang r s.
Proof.
  induction s as [|a s IH]; intros r; cbn.
  - apply nullable_lang.
  - rewrite IH. apply deriv_lang.
Qed.

(** [accepts_prefix] is "match from the start, end anywhere". *)
Lemma accepts_prefix_lang : ∀ s r,
  accepts_prefix r s = true ↔ ∃ u v, s = u ++ v ∧ lang r u.
Proof.
  induction s as [|a s IH]; intros r; cbn; rewrite orb_true_iff.
  - split.
    + intros [H|?]; [|done]. exists [], []. split; [done|by apply nullable_lang].
    + intros (u & v & Huv & Hu). symmetry in Huv.
      apply app_eq_nil in Huv as [-> ->]. left. by apply nullable_lang.
  - rewrite IH, nullable_lang. split.
    + intros [H|(u & v & -> & Hu)].
      * by exists [], (a :: s).
      * exists (a :: u), v. split; [done|by apply deriv_lang].
    + intros ([|b u] & v & Huv & Hu); [by left|].
      cbn in Huv. simplify_eq. right. exists u, v. split; [done|by apply deriv_lang].
Qed.

Lemma pattern_matches_regex lib name rest :
  pattern_matches lib name ("r:" +:+ rest) =
  match re_match lib rest name with
  | Some m => m
  | None => fnmatch lib name ("r:" +:+ rest)
  end.
Proof. unfold pattern_matches. by destruct rest. Qed.

Lemma pattern_matches_glob lib name pattern :
  String.prefix "r:" pattern = false →
  pattern_matches lib name pattern = fnmatch lib name pattern.
Proof. unfold pattern_matches. by intros ->. Qed.

(** C5: a pattern that starts with [r:] is decided by [re.match] on the
    rest, that is by a match starting at position 0 of the name and ending
    anywhere (some prefix of the name is a word of the expression); any
    other pattern is a glob that must match the whole name. *)
Theorem pattern_matches_spec :
  (∀ lib name pattern,
     (∀ rest m, pattern = "r:" +:+ rest →
                re_match lib rest name = Some m →
                pattern_matches lib name pattern = m) ∧
     (String.prefix "r:" pattern = false →
      pattern_matches lib name pattern = fnmatch lib name pattern)) ∧
  (∀ name rx r,
     re_compile rx = Some r →
     pattern_matches ref_lib name ("r:" +:+ rx) = true ↔
     ∃ u v, list_ascii_of_string name = u ++ v ∧ lang r u) ∧
  (∀ name pattern,
     String.prefix "r:" pattern = false →
     pattern_matches ref_lib name pattern = true ↔
     lang (glob_regex (length (list_ascii_of_string pattern))
             (list_ascii_of_string pattern))
          (list_ascii_of_string name)) ∧
  pattern_matches ref_lib "abc123" "r:abc\d+" = true ∧
  pattern_matches ref_lib "xabc123" "r:abc\d+" = false ∧
  pattern_matches ref_lib "abc123.txt" "r:abc\d+" = true ∧
  pattern_matches ref_lib "report.docx" "*.docx" = true ∧
  pattern_matches ref_lib "report.txt" "*.docx" = false ∧
  pattern_matches ref_lib "report.docx.bak" "*.docx" = false.
Proof.
  split; [|split; [|split]].
  - intros lib name pattern. split.
    + intros rest m -> Hm. by rewrite pattern_matches_regex, Hm.
    + apply pattern_matches_glob.
  - intros name rx r Hr. rewrite pattern_matches_regex. cbn [re_match ref_lib].
    unfold ref_re_match. rewrite Hr. cbn [option_map].
    apply accepts_prefix_lang.
  - intros name pattern Hp. rewrite pattern_matches_glob by done.
    cbn [fnmatch ref_lib]. unfold ref_fnmatch. apply accepts_lang.
  - by vm_compute.
Qed.

Lemma pattern_matches_spec_witness :
  ∃ r u v,
    re_compile "abc\d+" = Some r ∧
    list_ascii_of_string "abc123" = u ++ v ∧ lang r u.
Proof.
  destruct pattern_matches_spec as (_ & H & _ & Hex & _).
  destruct (re_compile "abc\d+") as [r|] eqn:Hr; [|by vm_compute in Hr].
  destruct (proj1 (H "abc123"%string "abc\d+"%string r Hr) Hex) as (u & v & Huv & Hu).
  by exists r, u, v.
Defined.



(** ** Shared links *)

(** C2, as the code has it: on the path of the parsed URL the patterns are
    tried in the order file ([/file/d/]), folder ([/folders/]), [id=], then
    the generic [/drive/] segment, and the first that matches gives the
    result whatever the query holds; only when none matches is the [id]
    parameter of the query string used, and without it the result is
    [None].  An error of [urlparse] is raised on. *)
Theorem extract_file_id_source_order :
  (∀ lib url parsed,
     urlparse lib url = Return parsed →
     let found p := re_search lib p (url_path parsed) in
     let result := extract_file_id_from_url lib url in
     (∀ g, found "/file/d/([a-zA-Z0-9_-]+)" = Some g → result = Return (Some g)) ∧
     (∀ g, found "/file/d/([a-zA-Z0-9_-]+)" = None →
           found "/folders/([a-zA-Z0-9_-]+)" = Some g →
           result = Return (Some g)) ∧
     (∀ g, found "/file/d/([a-zA-Z0-9_-]+)" = None →
           found "/folders/([a-zA-Z0-9_-]+)" = None →
           found "id=([a-zA-Z0-9_-]+)" = Some g →
           result = Return (Some g)) ∧
     (∀ g, found "/file/d/([a-zA-Z0-9_-]+)" = None →
           found "/folders/([a-zA-Z0-9_-]+)" = None →
           found "id=([a-zA-Z0-9_-]+)" = None →
           found "/drive/([a-zA-Z0-9_-]+)" = Some g →
           result = Return (Some g)) ∧
     (Forall (λ p, found p = None) patterns →
      (∀ v vs, parse_qs lib (url_query parsed) !! "id"%string = Some (v :: vs) →
               result = Return (Some v)) ∧
      (parse_qs lib (url_query parsed) !! "id"%string = None →
       result = Return None))) ∧
  (∀ lib url e,
     urlparse lib url = Raise e → extract_file_id_from_url lib url = Raise e) ∧
  extract_file_id_from_url ref_lib "https://host/file/d/XYZ/view" = Return (Some "XYZ"%string) ∧
  extract_file_id_from_url ref_lib "https://host/drive/folders/ABC" = Return (Some "ABC"%string) ∧
  extract_file_id_from_url ref_lib "https://host/open?id=QQQ" = Return (Some "QQQ"%string) ∧
  extract_file_id_from_url ref_lib "https://host/nomatch" = Return None ∧
  extract_file_id_from_url ref_lib "https://host/file/d/XYZ/view?id=QQQ" = Return (Some "XYZ"%string) ∧
  extract_file_id_from_url ref_lib "https://host/drive/abc/id=QQQ" = Return (Some "QQQ"%string).
Proof.
  split; [|split].
  - intros lib url parsed Hparse found result. subst found result.
    unfold extract_file_id_from_url. rewrite Hparse. cbn [first_search patterns].
    split_and!.
    + by intros g ->.
    + by intros g -> ->.
    + by intros g -> -> ->.
    + by intros g -> -> -> ->.
    + intros Hnone. unfold patterns in Hnone.
      repeat (apply Forall_cons in Hnone as [-> Hnone]).
      split; [by intros v vs ->|by intros ->].
  - intros lib url e Hparse. unfold extract_file_id_from_url. by rewrite Hparse.
  - by vm_compute.
Qed.

Lemma extract_file_id_source_order_witness :
  ∃ parsed,
    urlparse ref_lib "https://host/drive/abc/id=QQQ" = Return parsed ∧
    re_search ref_lib "/drive/([a-zA-Z0-9_-]+)" (url_path parsed) = Some "abc"%string ∧
    extract_file_id_from_url ref_lib "https://host/drive/abc/id=QQQ" =
    Return (Some "QQQ"%string).
Proof.
  destruct extract_file_id_source_order as (H & _).
  exists {| url_path := "/drive/abc/id=QQQ"; url_query := "" |}.
  split; [reflexivity|]. split; [reflexivity|].
  destruct (H ref_lib "https://host/drive/abc/id=QQQ"%string
              {| url_path := "/drive/abc/id=QQQ"; url_query := "" |} eq_refl)
    as (_ & _ & Hid & _).
  apply Hid; reflexivity.
Defined.

(** The order as described (the generic [/drive/] segment before [id=])
    gives another answer on a path that holds both. *)
Lemma extract_file_id_described_order_fails :
  extract_file_id_from_url ref_lib "https://host/drive/abc/id=QQQ" =
    Return (Some "QQQ"%string) ∧
  extract_as_described ref_lib "https://host/drive/abc/id=QQQ" =
    Return (Some "abc"%string) ∧
  extract_file_id_from_url ref_lib "https://host/drive/abc/id=QQQ" ≠
  extract_as_described ref_lib "https://host/drive/abc/id=QQQ".
Proof. split; [reflexivity|]. split; [reflexivity|]. by vm_compute. Qed.

(** ** Renaming *)

Lemma attempts_cons (self : DriveManager) req reqs reps tried :
  attempts self (req :: reqs) (reps :: tried) =
  backoff_trace self req 0 reps ++ attempts self reqs tried.
Proof. reflexivity. Qed.

Lemma accepted_entries_cons {A : Type} (x : A) entries reps tried :
  accepted_entries (x :: entries) (reps :: tried) =
  if is_accepted reps then x :: accepted_entries entries tried
  else accepted_entries entries tried.
Proof.
  unfold accepted_entries. cbn [zip zip_with List.filter snd].
  by destruct (is_accepted reps).
Qed.

Lemma accepted_entries_sublist {A : Type} (entries : list A) : ∀ tried,
  sublist (accepted_entries entries tried) entries.
Proof.
  induction entries as [|x entries IH]; intros tried.
  - destruct tried; constructor.
  - destruct tried as [|reps tried].
    + apply sublist_nil_l.
    + rewrite accepted_entries_cons.
      destruct (is_accepted reps); constructor; apply IH.
Qed.

Section Rename.
Context {World : Type}.
Variable lib : PyLib.
Variable execute : Request → World → reply * World.
Variable self : DriveManager.

Lemma execute_with_retry_shape request (st : State World) :
  0 ≤ retry_delay self →
  1 ≤ max_retries self →
  ∃ fs lst st',
    _execute_with_retry execute self request st = Some (outcome_of lst, st') ∧
    Forall retryable_failure fs ∧
    trace st' = trace st ++ backoff_trace self request 0 (fs ++ [lst]).
Proof.
  intros Hd Hmax.
  destruct (retry_loop_shape execute self request
              (Z.to_nat (max_retries self)) 0 st)
    as (fs & lst & st' & Hrun & _ & Hfs & _ & _ & Ht); [done|lia|lia|].
  by exists fs, lst, st'.
Qed.

Lemma accepted_updates_app t1 t2 :
  accepted_updates (t1 ++ t2) = accepted_updates t1 ++ accepted_updates t2.
Proof. apply omap_app. Qed.

(** Of the attempts of one retried rename only the last can be accepted. *)
Lemma accepted_updates_backoff id name fs lst : ∀ c,
  Forall retryable_failure fs →
  accepted_updates (backoff_trace self (FilesUpdate id name) c (fs ++ [lst])) =
  match lst with Ok _ => [(id, name)] | Failed _ _ => [] end.
Proof.
  induction fs as [|f fs IH]; intros c Hfs.
  - by destruct lst.
  - inversion Hfs as [|? ? Hf Hfs']; subst. destruct f as [|status reason]; [done|].
    replace (backoff_trace self (FilesUpdate id name) c
               ((Failed status reason :: fs) ++ [lst]))
      with ([EvExecute (FilesUpdate id name) (Failed status reason);
             EvSleep (2 ^ (c + 1) * retry_delay self)] ++
            backoff_trace self (FilesUpdate id name) (c + 1) (fs ++ [lst]))
      by (by destruct fs).
    rewrite accepted_updates_app, IH by done. done.
Qed.

(** One turn of the loop of [batch_rename] on a selected entry: the update
    is tried, the pair is appended exactly when the last reply to it is a
    success, and an [HttpError] stays inside the turn. *)
Lemma rename_item_tried pattern prefix suffix acc item i n (st : State World) :
  0 ≤ retry_delay self →
  1 ≤ max_retries self →
  item_id item = Some i →
  item_name item = Some n →
  pattern_matches lib n pattern = true →
  ∃ reps st',
    rename_item lib execute self pattern prefix suffix acc item st =
    Some (Return (if is_accepted reps
                  then acc ++ [(n, new_name_of lib prefix suffix n)]
                  else acc), st') ∧
    trace st' = trace st ++
      backoff_trace self (FilesUpdate i (new_name_of lib prefix suffix n)) 0 reps ∧
    retried reps.
Proof.
  intros Hd Hmax Hi Hn Hmatch.
  destruct (execute_with_retry_shape
              (FilesUpdate i (new_name_of lib prefix suffix n)) st Hd Hmax)
    as (fs & lst & st' & Hrun & Hfs & Ht).
  unfold rename_item, bind, try_except, lift. rewrite Hn, Hi. cbn [getitem ret].
  rewrite Hmatch. rewrite Hrun.
  exists (fs ++ [lst]), st'. unfold is_accepted. rewrite last_snoc.
  split_and!; [|done|by exists fs, lst].
  by destruct lst as [r|status reason].
Qed.

Lemma rename_item_skip pattern prefix suffix acc item n (st : State World) :
  item_name item = Some n →
  pattern_matches lib n pattern = false →
  rename_item lib execute self pattern prefix suffix acc item st =
  Some (Return acc, st).
Proof.
  intros Hn Hmatch. unfold rename_item, bind, lift. rewrite Hn. cbn [getitem ret].
  by rewrite Hmatch.
Qed.

(** The loop of [batch_rename] over a listing whose entries carry an id and
    a name: it always returns; the update of every selected entry is
    tried, in listing order, and the pairs returned are those of the
    entries whose update was accepted. *)
Lemma rename_loop_tried pattern prefix suffix items : ∀ acc (st : State World),
  0 ≤ retry_delay self →
  1 ≤ max_retries self →
  Forall (λ it, is_Some (item_id it) ∧ is_Some (item_name it)) items →
  ∃ tried st',
    for_each (rename_item lib execute self pattern prefix suffix) acc items st =
    Some (Return (acc ++ map (λ p, (p.2, new_name_of lib prefix suffix p.2))
                           (accepted_entries (selected lib pattern items) tried)),
          st') ∧
    trace st' = trace st ++
      attempts self
        (map (λ p, FilesUpdate p.1 (new_name_of lib prefix suffix p.2))
           (selected lib pattern items)) tried ∧
    length tried = length (selected lib pattern items) ∧
    Forall retried tried.
Proof.
  induction items as [|item items IH]; intros acc st Hd Hmax Hwf.
  - exists [], st. cbn. rewrite !app_nil_r. split_and!; done.
  - inversion Hwf as [|? ? [[i Hi] [n Hn]] Hwf']; subst.
    cbn [for_each]. unfold bind at 1.
    unfold selected. cbn [omap list_omap]. rewrite Hi, Hn. fold (selected lib pattern items).
    destruct (pattern_matches lib n pattern) eqn:Hmatch.
    + destruct (rename_item_tried pattern prefix suffix acc item i n st
                  Hd Hmax Hi Hn Hmatch) as (reps & st1 & -> & Ht1 & Hreps).
      destruct (IH (if is_accepted reps
                    then acc ++ [(n, new_name_of lib prefix suffix n)] else acc)
                  st1 Hd Hmax Hwf') as (tried & st' & -> & Ht & Hlen & Hall).
      exists (reps :: tried), st'. split_and!.
      * rewrite accepted_entries_cons. destruct (is_accepted reps); [|done].
        cbn. by rewrite <- app_assoc.
      * rewrite Ht, Ht1. cbn [map]. rewrite attempts_cons. by rewrite app_assoc.
      * cbn. by rewrite Hlen.
      * by constructor.
    + rewrite (rename_item_skip pattern prefix suffix acc item n st Hn Hmatch).
      destruct (IH acc st Hd Hmax Hwf') as (tried & st' & -> & Ht & Hlen & Hall).
      by exists tried, st'.
Qed.

(** Of the updates tried, the accepted ones are those of the accepted
    entries. *)
Lemma accepted_updates_attempts prefix suffix (sel : list (string * string)) :
  ∀ tried,
    Forall retried tried →
    accepted_updates
      (attempts self
         (map (λ p, FilesUpdate p.1 (new_name_of lib prefix suffix p.2)) sel)
         tried) =
    map (λ p, (p.1, new_name_of lib prefix suffix p.2))
      (accepted_entries sel tried).
Proof.
  induction sel as [|p sel IH]; intros tried Hall; [done|].
  destruct tried as [|reps tried]; [done|].
  apply Forall_cons in Hall as [(fs & lst & -> & Hfs) Hall].
  cbn [map]. rewrite attempts_cons, accepted_entries_cons, accepted_updates_app.
  rewrite accepted_updates_backoff, IH by done.
  unfold is_accepted. rewrite last_snoc. by destruct lst.
Qed.
End Rename.

Lemma list_folder_contents_needs_retries {World : Type}
    (execute : Request → World → reply * World)
    (self : DriveManager) fuel folder_id (st st1 : State World) items :
  list_folder_contents execute self fuel folder_id st = Some (Return items, st1) →
  1 ≤ max_retries self.
Proof.
  intros Hrun. destruct (Z.le_gt_cases (max_retries self) 0) as [Hmax|]; [|lia].
  exfalso. unfold list_folder_contents in Hrun. destruct fuel as [|fuel]; [done|].
  cbn [list_pages] in Hrun. unfold bind, _execute_with_retry in Hrun.
  by rewrite retry_loop_done in Hrun.
Qed.

(** C9: the new name is [prefix + stem + suffix + extension], the stem and
    the extension being those of [os.path.splitext].  Once the folder is
    listed (entries with an id and a name), [batch_rename] returns, whatever
    the store answers to the renames: a rename that fails with an
    [HttpError] only leaves its pair out.  The update of every selected
    entry is tried, in listing order, and nothing else is sent: what
    happens after the listing is, entry by entry, the attempts of its
    update with the sleeps of the backoff.  The pairs returned are, in
    listing order, those of the selected entries whose update was accepted
    in the end. *)
Theorem batch_rename_partial_success {World : Type} (lib : PyLib)
    (execute : Request → World → reply * World)
    (self : DriveManager) (fuel : nat) (folder_id pattern : string)
    (prefix suffix : option string) (st st1 : State World) (items : list Item) :
  0 ≤ retry_delay self →
  truthy prefix || truthy suffix = true →
  list_folder_contents execute self fuel folder_id st = Some (Return items, st1) →
  Forall (λ it, is_Some (item_id it) ∧ is_Some (item_name it)) items →
  ∃ renamed st' t,
    batch_rename lib execute self fuel folder_id pattern prefix suffix st =
    Some (Return (map (λ p, (p.2, new_name_of lib prefix suffix p.2)) renamed),
          st') ∧
    trace st' = trace st1 ++ t ∧
    sublist renamed (selected lib pattern items) ∧
    accepted_updates t =
      map (λ p, (p.1, new_name_of lib prefix suffix p.2)) renamed ∧
    (∀ name, new_name_of lib prefix suffix name =
             or_empty prefix +:+ (splitext lib name).1 +:+
             or_empty suffix +:+ (splitext lib name).2) ∧
    ∃ tried,
      length tried = length (selected lib pattern items) ∧
      Forall retried tried ∧
      t = attempts self
            (map (λ p, FilesUpdate p.1 (new_name_of lib prefix suffix p.2))
               (selected lib pattern items)) tried ∧
      renamed = accepted_entries (selected lib pattern items) tried.
Proof.
  intros Hd Htruthy Hlist Hwf.
  pose proof (list_folder_contents_needs_retries _ _ _ _ _ _ _ Hlist) as Hmax.
  destruct (rename_loop_tried lib execute self pattern prefix suffix items [] st1
              Hd Hmax Hwf) as (tried & st' & Hloop & Ht & Hlen & Hall).
  exists (accepted_entries (selected lib pattern items) tried), st'.
  eexists. split_and!; [|exact Ht| | | |].
  - unfold batch_rename.
    destruct (truthy prefix), (truthy suffix); try done;
      cbn [negb andb]; unfold bind; by rewrite Hlist, Hloop.
  - apply accepted_entries_sublist.
  - by apply accepted_updates_attempts.
  - intros name. unfold new_name_of. by destruct (splitext lib name).
  - by exists tried.
Qed.

(** The documented example, and the same folder when the first rename is
    refused, or fails three times with a retryable status. *)
Lemma batch_rename_examples :
  let run script :=
    batch_rename ref_lib scripted example_manager 1 "root" "*.txt"
      (Some "X_"%string) None (initial (Ok (response_page two_texts None) :: script)) in
  (∃ st', run [Ok (response_id "1"); Ok (response_id "2")] =
          Some (Return [("a.txt", "X_a.txt"); ("b.txt", "X_b.txt")]%string, st')) ∧
  (∃ st', run [Failed 403 "Forbidden"; Ok (response_id "2")] =
          Some (Return [("b.txt", "X_b.txt")]%string, st')) ∧
  (∃ st', run [Failed 503 "Unavailable"; Failed 503 "Unavailable";
               Failed 503 "Unavailable"; Ok (response_id "2")] =
          Some (Return [("b.txt", "X_b.txt")]%string, st')).
Proof. intros run. split_and!; eexists; vm_compute; reflexivity. Qed.

Lemma batch_rename_partial_success_witness :
  let listed := EvExecute (list_request example_manager "root" None)
                  (Ok (response_page two_texts None)) in
  let refused := EvExecute (FilesUpdate "1" "X_a.txt") (Failed 403 "Forbidden") in
  let accepted := EvExecute (FilesUpdate "2" "X_b.txt") (Ok (response_id "2")) in
  batch_rename ref_lib scripted example_manager 1 "root" "*.txt"
    (Some "X_"%string) None
    (initial [Ok (response_page two_texts None); Failed 403 "Forbidden";
              Ok (response_id "2")]) =
  Some (Return [("b.txt", "X_b.txt")]%string,
        {| world := []; trace := [listed; refused; accepted] |}) ∧
  (∃ renamed tried,
     sublist renamed [("1", "a.txt"); ("2", "b.txt")]%string ∧
     accepted_updates [refused; accepted] =
     map (λ p, (p.1, new_name_of ref_lib (Some "X_"%string) None p.2)) renamed ∧
     length tried = 2%nat ∧
     [refused; accepted] =
     attempts example_manager
       [FilesUpdate "1" "X_a.txt"; FilesUpdate "2" "X_b.txt"] tried ∧
     renamed = accepted_entries [("1", "a.txt"); ("2", "b.txt")]%string tried) ∧
  ∃ st',
    batch_rename ref_lib scripted example_manager 1 "root" "*.txt"
      (Some "X_"%string) None
      (initial [Ok (response_page two_texts None); Ok (response_id "1");
                Ok (response_id "2")]) =
    Some (Return [("a.txt", "X_a.txt"); ("b.txt", "X_b.txt")]%string, st').
Proof.
  intros listed refused accepted.
  split; [reflexivity|]. split; [|eexists; reflexivity].
  destruct (batch_rename_partial_success ref_lib scripted example_manager 1
              "root" "*.txt" (Some "X_"%string) None
              (initial [Ok (response_page two_texts None); Failed 403 "Forbidden";
                        Ok (response_id "2")])
              {| world := [Failed 403 "Forbidden"; Ok (response_id "2")];
                 trace := [listed] |}
              two_texts)
    as (renamed & st' & t & Hrun & Ht & Hsub & Hu & _ &
        tried & Hlen & _ & Htried & Hrenamed).
  - cbn. lia.
  - reflexivity.
  - reflexivity.
  - repeat constructor; eexists; reflexivity.
  - exists renamed, tried. split; [exact Hsub|].
    assert (Hc : batch_rename ref_lib scripted example_manager 1 "root" "*.txt"
                   (Some "X_"%string) None
                   (initial [Ok (response_page two_texts None);
                             Failed 403 "Forbidden"; Ok (response_id "2")]) =
                 Some (Return [("b.txt", "X_b.txt")]%string,
                       {| world := []; trace := [listed; refused; accepted] |}))
      by reflexivity.
    rewrite Hc in Hrun. injection Hrun as _ <-.
    cbn [trace app] in Ht. injection Ht as <-.
    split; [exact Hu|]. split; [exact Hlen|]. split; [exact Htried|].
    exact Hrenamed.
Defined.

(** ** Copying a folder *)

Section Copy.
Context {World : Type}.
Variable lib : PyLib.
Variable execute : Request → World → reply * World.
Variable self : DriveManager.

Lemma for_each_app {A B : Type} (body : B → A → M World B) l1 : ∀ l2 acc st,
  for_each body acc (l1 ++ l2) st =
  bind (for_each body acc l1) (λ acc', for_each body acc' l2) st.
Proof.
  induction l1 as [|x l1 IH]; intros l2 acc st; [done|].
  cbn [app for_each]. unfold bind.
  destruct (body acc x st) as [[[acc1|e] st1]|]; [|done..].
  rewrite IH. done.
Qed.

(** A loop stops at the first turn that raises: the turns after it do not
    run, whatever they are. *)
Lemma for_each_raises {A B : Type} (body : B → A → M World B)
    pre x post acc acc1 e (st st1 st2 : State World) :
  for_each body acc pre st = Some (Return acc1, st1) →
  body acc1 x st1 = Some (Raise e, st2) →
  for_each body acc (pre ++ x :: post) st = Some (Raise e, st2).
Proof.
  intros Hpre Hx. rewrite for_each_app. unfold bind. rewrite Hpre.
  cbn [for_each]. unfold bind. by rewrite Hx.
Qed.

Lemma copy_drive_item_step fuel item_id destination new_name (st : State World) :
  copy_drive_item execute self (S fuel) item_id destination new_name st =
  try_except
    (bind (get_file_metadata execute self item_id) (λ metadata,
     bind (lift (subscript metadata "mimeType" resp_mimeType)) (λ mime,
     if String.eqb mime folder_mime
     then _copy_folder execute self fuel item_id destination new_name
     else _copy_file execute self item_id destination new_name)))
    any_Exception (λ e, raise e) st.
Proof. reflexivity. Qed.

Lemma copy_child_raises copy new_folder_id child cid e (st st' : State World) :
  item_id child = Some cid →
  copy cid (Some new_folder_id) None st = Some (Raise e, st') →
  copy_child copy new_folder_id tt child st = Some (Raise e, st').
Proof.
  intros Hid Hcopy. unfold copy_child, bind, lift. rewrite Hid. cbn [getitem ret].
  by rewrite Hcopy.
Qed.
End Copy.

(** C8: in [_copy_folder] nothing catches around the copy of a child.  Once
    the new folder is created and the source listed, if the children
    [pre] are copied and the copy of the next child raises [e], then
    [_copy_folder] raises [e] in the state reached at that failure: the
    children after it ([post]) are not touched and no id is returned; so
    does [copy_drive_item] called on that folder.  The loops of rename,
    delete and copy-to-subfolders instead keep going when the request of
    one entry fails. *)
Theorem copy_folder_aborts_on_child_failure {World : Type} (lib : PyLib)
    (execute : Request → World → reply * World) (self : DriveManager)
    (fuel : nat) (folder_id : string) (parent_id new_name : option string)
    (st st1 st2 st3 st4 : State World)
    (folder_metadata : option Response) (new_folder_id name cid : string)
    (pre post : list Item) (child : Item) (e : exn) :
  create_new_folder execute self folder_id parent_id new_name st =
    Some (Return (folder_metadata, new_folder_id), st1) →
  list_folder_contents execute self fuel folder_id st1 =
    Some (Return (pre ++ child :: post), st2) →
  subscript folder_metadata "name" resp_name = Return name →
  for_each (copy_child (copy_drive_item execute self fuel) new_folder_id) tt pre st2 =
    Some (Return tt, st3) →
  item_id child = Some cid →
  copy_drive_item execute self fuel cid (Some new_folder_id) None st3 =
    Some (Raise e, st4) →
  _copy_folder execute self fuel folder_id parent_id new_name st =
    Some (Raise e, st4) ∧
  (∀ st0 metadata,
     get_file_metadata execute self folder_id st0 = Some (Return metadata, st) →
     subscript metadata "mimeType" resp_mimeType = Return folder_mime →
     copy_drive_item execute self (S fuel) folder_id parent_id new_name st0 =
       Some (Raise e, st4)) ∧
  (∀ source acc target,
     item_id target = Some cid → is_Some (item_name target) →
     copy_drive_item execute self fuel source (Some cid) None st3 =
       Some (Raise e, st4) →
     copy_to_folder execute self fuel source acc target st3 =
       Some (Return acc, st4)) ∧
  (∀ pattern acc n status reason,
     item_name child = Some n → pattern_matches lib n pattern = true →
     _execute_with_retry execute self (FilesDelete cid) st3 =
       Some (Raise (HttpError status reason), st4) →
     delete_item lib execute self pattern acc child st3 = Some (Return acc, st4)) ∧
  (∀ pattern prefix suffix acc n status reason,
     item_name child = Some n → pattern_matches lib n pattern = true →
     _execute_with_retry execute self
       (FilesUpdate cid (new_name_of lib prefix suffix n)) st3 =
       Some (Raise (HttpError status reason), st4) →
     rename_item lib execute self pattern prefix suffix acc child st3 =
       Some (Return acc, st4)).
Proof.
  intros Hcreate Hlist Hname Hpre Hcid Hfail.
  assert (Hfolder : _copy_folder execute self fuel folder_id parent_id new_name st =
                    Some (Raise e, st4)).
  { unfold _copy_folder, _copy_folder_with, bind at 1. rewrite Hcreate.
    cbn [fst snd]. unfold bind at 1. rewrite Hlist.
    unfold bind at 1. rewrite Hname. cbn [lift ret].
    unfold bind at 1.
    by rewrite (for_each_raises _ pre child post tt tt e st2 st3 st4 Hpre
                  (copy_child_raises _ _ _ _ _ _ _ Hcid Hfail)). }
  split_and!.
  - exact Hfolder.
  - intros st0 metadata Hmeta Hmime. rewrite copy_drive_item_step.
    unfold try_except, bind at 1. rewrite Hmeta.
    unfold bind at 1. rewrite Hmime. cbn [lift ret].
    rewrite String.eqb_refl. by rewrite Hfolder.
  - intros source acc target Htid [n Hn] Hcopy.
    unfold copy_to_folder, try_except, bind, lift. rewrite Htid, Hn.
    cbn [getitem ret]. by rewrite Hcopy.
  - intros pattern acc n status reason Hn Hmatch Hrpc.
    unfold delete_item, bind, lift, try_except. rewrite Hn. cbn [getitem ret].
    rewrite Hmatch, Hcid. cbn [getitem ret]. by rewrite Hrpc.
  - intros pattern prefix suffix acc n status reason Hn Hmatch Hrpc.
    unfold rename_item, bind, lift, try_except. rewrite Hn. cbn [getitem ret].
    rewrite Hmatch, Hcid. cbn [getitem ret]. by rewrite Hrpc.
Qed.

Lemma copy_folder_aborts_on_child_failure_witness :
  _copy_folder scripted example_manager 1 "F" None None
    (initial refused_second_copy) =
  Some (Raise (HttpError 403 "Forbidden"),
        {| world := [Ok (response_meta "3" "c.txt" "text/plain");
                     Ok (response_id "n3")];
           trace :=
             [EvExecute (FilesGet "F" metadata_fields)
                (Ok (response_meta "F" "Reports" folder_mime));
              EvExecute (FilesCreate "Reports" folder_mime None)
                (Ok (response_id "NF"));
              EvExecute (list_request example_manager "F" None)
                (Ok (response_page three_texts None));
              EvExecute (FilesGet "1" metadata_fields)
                (Ok (response_meta "1" "a.txt" "text/plain"));
              EvExecute (FilesCopy "1" (Some "NF"%string) None)
                (Ok (response_id "n1"));
              EvExecute (FilesGet "2" metadata_fields)
                (Ok (response_meta "2" "b.txt" "text/plain"));
              EvExecute (FilesCopy "2" (Some "NF"%string) None)
                (Failed 403 "Forbidden")] |}).
Proof.
  eapply (copy_folder_aborts_on_child_failure ref_lib scripted example_manager 1
            "F" None None (initial refused_second_copy) _ _ _ _ _ _ _ _
            [file_item "1" "a.txt"] [file_item "3" "c.txt"] (file_item "2" "b.txt")).
  - vm_compute. reflexivity.
  - vm_compute. reflexivity.
  - reflexivity.
  - vm_compute. reflexivity.
  - reflexivity.
  - vm_compute. reflexivity.
Defined.

(** ** Batch commands *)

Section Batch.
Context {World : Type}.
Variable lib : PyLib.
Variable execute : Request → World → reply * World.
Variable self : DriveManager.
Variable fuel : nat.

(** With an action, whatever the dispatched operation does is turned into
    a returned result. *)
Lemma execute_batch_command_catches command action (st : State World) :
  command !! "action"%string = Some action →
  action ≠ ""%string →
  execute_batch_command lib execute self fuel command st =
  match dispatch lib execute self fuel action command st with
  | None => None
  | Some (Return details, st') => Some (Return (success_result action details), st')
  | Some (Raise e, st') => Some (Return (error_result action e), st')
  end.
Proof.
  intros Haction Hne. unfold execute_batch_command. rewrite Haction.
  cbn [truthy default from_option id].
  destruct (String.eqb_spec action ""); [done|].
  cbn [negb]. unfold try_except, bind.
  by destruct (dispatch lib execute self fuel action command st)
    as [[[details|e] st']|].
Qed.





End Batch.





(** * Further properties *)

(** ** Retries in general, and listings that meet failures *)

Lemma execute_with_retry_run {World : Type}
    (execute : Request → World → reply * World)
    (self : DriveManager) (request : Request) (st : State World)
    (fs : list reply) (lst : reply) (w' : World) :
  0 ≤ retry_delay self →
  replies execute request (S (length fs)) (world st) = (fs ++ [lst], w') →
  Forall retryable_failure fs →
  Z.of_nat (length fs) < max_retries self →
  (retryable_failure lst → Z.of_nat (length fs) + 1 = max_retries self) →
  _execute_with_retry execute self request st =
  Some (outcome_of lst,
        {| world := w';
           trace := trace st ++ backoff_trace self request 0 (fs ++ [lst]) |}).
Proof.
  intros Hd Hreps Hfs Hlen Hstop. unfold _execute_with_retry.
  apply retry_loop_run; [done|done|done|lia|lia|].
  intros Hl. specialize (Hstop Hl). lia.
Qed.

Lemma backoff_trace_counts (self : DriveManager) (request : Request)
    (fs : list reply) (lst : reply) :
  calls (backoff_trace self request 0 (fs ++ [lst])) = S (length fs) ∧
  sleeps (backoff_trace self request 0 (fs ++ [lst])) =
    (λ k : nat, 2 ^ Z.of_nat k * retry_delay self) <$> seq 1 (length fs).
Proof.
  split.
  - rewrite calls_backoff_trace, length_app. cbn. lia.
  - rewrite sleeps_backoff_trace, length_app. cbn [length].
    by replace (length fs + 1 - 1)%nat with (length fs) by lia.
Qed.

(** X1: after any number [k < max_retries] of retryable failures, the reply
    that follows ends the run when it is a success, a failure that is not
    retryable, or the failure number [max_retries]: it is returned or
    raised after exactly [k + 1] calls and the sleeps [2 d, 4 d, ..., 2^k d]. *)
Theorem execute_with_retry_after_failures {World : Type}
    (execute : Request → World → reply * World)
    (self : DriveManager) (request : Request) (st : State World)
    (fs : list reply) (lst : reply) (w' : World) :
  0 ≤ retry_delay self →
  replies execute request (S (length fs)) (world st) = (fs ++ [lst], w') →
  Forall retryable_failure fs →
  Z.of_nat (length fs) < max_retries self →
  (retryable_failure lst → Z.of_nat (length fs) + 1 = max_retries self) →
  ∃ t,
    _execute_with_retry execute self request st =
    Some (outcome_of lst, {| world := w'; trace := trace st ++ t |}) ∧
    calls t = S (length fs) ∧
    sleeps t = (λ k : nat, 2 ^ Z.of_nat k * retry_delay self) <$>
                 seq 1 (length fs).
Proof.
  intros Hd Hreps Hfs Hlen Hstop.
  exists (backoff_trace self request 0 (fs ++ [lst])).
  split; [by apply execute_with_retry_run|apply backoff_trace_counts].
Qed.

Lemma execute_with_retry_after_failures_witness :
  ∃ t,
    _execute_with_retry scripted
      {| batch_size := 100; max_retries := 5; retry_delay := 3 |}
      (FilesDelete "f1")
      (initial [Failed 500 "e1"; Failed 503 "e2"; Failed 429 "e3";
                Failed 404 "File not found"; Ok (response_id "f1")]) =
    Some (Raise (HttpError 404 "File not found"),
          {| world := [Ok (response_id "f1")]; trace := t |}) ∧
    calls t = 4%nat ∧ sleeps t = [6; 12; 24].
Proof.
  destruct (execute_with_retry_after_failures scripted
              {| batch_size := 100; max_retries := 5; retry_delay := 3 |}
              (FilesDelete "f1")
              (initial [Failed 500 "e1"; Failed 503 "e2"; Failed 429 "e3";
                        Failed 404 "File not found"; Ok (response_id "f1")])
              [Failed 500 "e1"; Failed 503 "e2"; Failed 429 "e3"]
              (Failed 404 "File not found") [Ok (response_id "f1")])
    as (t & Hrun & Hcalls & Hsleeps).
  - cbn. lia.
  - reflexivity.
  - repeat constructor.
  - cbn. lia.
  - cbn. done.
  - exists t. split; [exact Hrun|]. split; [exact Hcalls|]. exact Hsleeps.
Defined.

Lemma list_pages_serves_retrying {World : Type}
    (execute : Request → World → reply * World)
    (self : DriveManager) (folder_id : string) page_token w pages failures w' :
  0 ≤ retry_delay self →
  serves_retrying execute self folder_id page_token w pages failures w' →
  ∀ fuel items t0, (length pages ≤ fuel)%nat →
  ∃ t,
    list_pages execute self folder_id fuel items page_token
      {| world := w; trace := t0 |} =
    Some (Return (items ++ concat pages), {| world := w'; trace := t0 ++ t |}) ∧
    calls t = (length pages + failures)%nat ∧
    length (sleeps t) = failures.
Proof.
  intros Hd Hserves.
  induction Hserves
    as [tok w fs r w' Hreps Hfs Hlen Hlast
       |tok w fs r w1 pages failures w' Hreps Hfs Hlen Hmore _ IH];
    intros fuel items t0 Hfuel.
  - destruct fuel as [|fuel]; [cbn in Hfuel; lia|].
    pose proof (execute_with_retry_run execute self
                  (list_request self folder_id tok) {| world := w; trace := t0 |}
                  fs (Ok r) w' Hd Hreps Hfs Hlen) as Hrun.
    destruct (backoff_trace_counts self (list_request self folder_id tok)
                fs (Ok r)) as [Hcalls Hsleeps].
    set (t := backoff_trace self (list_request self folder_id tok) 0
                (fs ++ [Ok r])) in *.
    specialize (Hrun ltac:(done)).
    cbn [list_pages]. unfold bind. fold (list_request self folder_id tok).
    rewrite Hrun. cbn [outcome_of]. rewrite Hlast.
    exists t. split_and!.
    + cbn. by rewrite app_nil_r.
    + rewrite Hcalls. cbn. lia.
    + by rewrite Hsleeps, length_fmap, length_seq.
  - destruct fuel as [|fuel]; [cbn in Hfuel; lia|].
    pose proof (execute_with_retry_run execute self
                  (list_request self folder_id tok) {| world := w; trace := t0 |}
                  fs (Ok r) w1 Hd Hreps Hfs Hlen) as Hrun.
    destruct (backoff_trace_counts self (list_request self folder_id tok)
                fs (Ok r)) as [Hcalls Hsleeps].
    set (t1 := backoff_trace self (list_request self folder_id tok) 0
                 (fs ++ [Ok r])) in *.
    specialize (Hrun ltac:(done)).
    cbn [list_pages]. unfold bind. fold (list_request self folder_id tok).
    rewrite Hrun. cbn [outcome_of trace]. rewrite Hmore.
    destruct (IH fuel (items ++ default [] (resp_files r)) (t0 ++ t1))
      as (t & -> & Hc & Hs); [cbn in Hfuel; lia|].
    exists (t1 ++ t). split_and!.
    + cbn [concat]. by rewrite <- !app_assoc.
    + rewrite calls_app, Hcalls, Hc. cbn. lia.
    + rewrite sleeps_app, length_app, Hs, Hsleeps, length_fmap, length_seq. done.
Qed.

(** X2: transient failures do not change a listing.  When every page comes
    after fewer than [max_retries] retryable failures, [list_folder_contents]
    returns the items of the pages in order; it asked once per page and
    once more, after a sleep, per failure. *)
Theorem list_folder_contents_retrying {World : Type}
    (execute : Request → World → reply * World)
    (self : DriveManager) (fuel : nat) (folder_id : string)
    (st : State World) (pages : list (list Item)) (failures : nat) (w' : World) :
  0 ≤ retry_delay self →
  serves_retrying execute self folder_id None (world st) pages failures w' →
  (length pages ≤ fuel)%nat →
  ∃ t,
    list_folder_contents execute self fuel folder_id st =
    Some (Return (concat pages), {| world := w'; trace := trace st ++ t |}) ∧
    calls t = (length pages + failures)%nat ∧
    length (sleeps t) = failures.
Proof.
  intros Hd Hserves Hfuel. unfold list_folder_contents. destruct st as [w t0].
  by apply (list_pages_serves_retrying execute self folder_id None w pages
              failures w' Hd Hserves fuel [] t0).
Qed.

Lemma list_folder_contents_retrying_witness :
  ∃ t,
    list_folder_contents scripted example_manager 2 "root"
      (initial two_pages_one_retry) =
    Some (Return [file_item "1" "a.txt"; file_item "2" "b.txt"],
          {| world := []; trace := t |}) ∧
    calls t = 3%nat ∧ length (sleeps t) = 1%nat.
Proof.
  destruct (list_folder_contents_retrying scripted example_manager 2 "root"
              (initial two_pages_one_retry)
              [[file_item "1" "a.txt"]; [file_item "2" "b.txt"]] (0 + 1) [])
    as (t & Hrun & Hcalls & Hsleeps).
  - cbn. lia.
  - eapply (serves_retrying_more scripted example_manager "root" None
              two_pages_one_retry []
              (response_page [file_item "1" "a.txt"] (Some "t1"%string)));
      [reflexivity|constructor|cbn; lia|reflexivity|].
    eapply (serves_retrying_last scripted example_manager "root" (Some "t1"%string)
              _ [Failed 429 "Too Many Requests"]
              (response_page [file_item "2" "b.txt"] None));
      [reflexivity|repeat constructor|cbn; lia|reflexivity].
  - cbn. lia.
  - exists t. split; [exact Hrun|]. split; [exact Hcalls|exact Hsleeps].
Defined.

Lemma list_pages_until {World : Type}
    (execute : Request → World → reply * World)
    (self : DriveManager) (folder_id : string) tok st pages tok' st1 :
  pages_until execute self folder_id tok st pages tok' st1 →
  ∀ fuel items,
    list_pages execute self folder_id (length pages + fuel) items tok st =
    list_pages execute self folder_id fuel (items ++ concat pages) tok' st1.
Proof.
  induction 1 as [tok st|tok st r st1 pages tok' st' Hrun Hmore _ IH];
    intros fuel items.
  - cbn. by rewrite app_nil_r.
  - cbn [length Nat.add list_pages]. unfold bind at 1.
    fold (list_request self folder_id tok). rewrite Hrun, Hmore.
    rewrite IH. cbn [concat]. by rewrite <- app_assoc.
Qed.

(** X3: a listing is all or nothing.  If, after any number of pages, the
    request for the next page ends in an exception, [list_folder_contents]
    raises it and the pages already fetched are not returned;
    [batch_rename] and [delete_items] then raise it too, in the state of
    that failure, before any entry is touched. *)
Theorem list_folder_contents_all_or_nothing {World : Type} (lib : PyLib)
    (execute : Request → World → reply * World)
    (self : DriveManager) (fuel : nat) (folder_id : string)
    (st st1 st2 : State World) (pages : list (list Item))
    (page_token : option string) (e : exn) :
  pages_until execute self folder_id None st pages page_token st1 →
  _execute_with_retry execute self (list_request self folder_id page_token) st1 =
    Some (Raise e, st2) →
  (length pages < fuel)%nat →
  list_folder_contents execute self fuel folder_id st = Some (Raise e, st2) ∧
  (∀ pattern, delete_items lib execute self fuel folder_id pattern st =
              Some (Raise e, st2)) ∧
  (∀ pattern prefix suffix,
     truthy prefix || truthy suffix = true →
     batch_rename lib execute self fuel folder_id pattern prefix suffix st =
     Some (Raise e, st2)).
Proof.
  intros Hpages Hfail Hfuel.
  assert (Hlist : list_folder_contents execute self fuel folder_id st =
                  Some (Raise e, st2)).
  { unfold list_folder_contents.
    replace fuel with (length pages + S (fuel - length pages - 1))%nat by lia.
    rewrite (list_pages_until execute self folder_id None st pages page_token st1
               Hpages).
    cbn [list_pages]. unfold bind. fold (list_request self folder_id page_token).
    by rewrite Hfail. }
  split_and!; [done| |].
  - intros pattern. unfold delete_items, bind. by rewrite Hlist.
  - intros pattern prefix suffix Haffix. unfold batch_rename.
    destruct (truthy prefix), (truthy suffix); try done;
      cbn [negb andb]; unfold bind; by rewrite Hlist.
Qed.

Lemma list_folder_contents_all_or_nothing_witness :
  ∃ st2,
    list_folder_contents scripted example_manager 2 "root"
      (initial second_page_refused) =
    Some (Raise (HttpError 403 "Forbidden"), st2) ∧
    calls (trace st2) = 2%nat.
Proof.
  eexists. split.
  - eapply (list_folder_contents_all_or_nothing ref_lib scripted example_manager 2
              "root" (initial second_page_refused) _ _
              [[file_item "1" "a.txt"]] (Some "t1"%string)).
    + eapply (pages_until_cons scripted example_manager "root" None _
                (response_page [file_item "1" "a.txt"] (Some "t1"%string)));
        [reflexivity|reflexivity|apply pages_until_nil].
    + reflexivity.
    + cbn. lia.
  - reflexivity.
Defined.

(** ** Deleting, and what the per-entry loops send *)

Lemma requests_app t1 t2 : requests (t1 ++ t2) = requests t1 ++ requests t2.
Proof. apply omap_app. Qed.

Lemma accepted_deletes_app t1 t2 :
  accepted_deletes (t1 ++ t2) = accepted_deletes t1 ++ accepted_deletes t2.
Proof. apply omap_app. Qed.

Section PerEntry.
Context {World : Type}.
Variable lib : PyLib.
Variable execute : Request → World → reply * World.
Variable self : DriveManager.

Lemma requests_backoff_trace request reps : ∀ c,
  Forall (λ r, r = request) (requests (backoff_trace self request c reps)).
Proof.
  induction reps as [|rep [|rep' reps] IH]; intros c.
  - constructor.
  - by repeat constructor.
  - rewrite backoff_trace_cons.
    change (requests (EvExecute request rep :: EvSleep ?s :: ?t))
      with (request :: requests t).
    constructor; [done|apply IH].
Qed.

(** A retried request sends nothing but that request. *)
Lemma execute_with_retry_requests request (st st' : State World) out :
  _execute_with_retry execute self request st = Some (out, st') →
  ∃ t, trace st' = trace st ++ t ∧ Forall (λ r, r = request) (requests t).
Proof.
  unfold _execute_with_retry. intros Hrun.
  destruct (Z.le_gt_cases (max_retries self) 0) as [Hmax|Hmax].
  - rewrite retry_loop_done in Hrun by done. simplify_eq.
    exists []. by rewrite app_nil_r.
  - destruct (retry_loop_trace execute self request
                (Z.to_nat (max_retries self)) 0 st)
      as (reps & out' & st'' & Hrun' & Ht & _); [lia|lia|].
    rewrite Hrun in Hrun'. simplify_eq.
    eexists. split; [exact Ht|apply requests_backoff_trace].
Qed.

Lemma accepted_deletes_backoff id fs lst : ∀ c,
  Forall retryable_failure fs →
  accepted_deletes (backoff_trace self (FilesDelete id) c (fs ++ [lst])) =
  match lst with Ok _ => [id] | Failed _ _ => [] end.
Proof.
  induction fs as [|f fs IH]; intros c Hfs.
  - by destruct lst.
  - inversion Hfs as [|? ? Hf Hfs']; subst. destruct f as [|status reason]; [done|].
    replace (backoff_trace self (FilesDelete id) c
               ((Failed status reason :: fs) ++ [lst]))
      with ([EvExecute (FilesDelete id) (Failed status reason);
             EvSleep (2 ^ (c + 1) * retry_delay self)] ++
            backoff_trace self (FilesDelete id) (c + 1) (fs ++ [lst]))
      by (by destruct fs).
    rewrite accepted_deletes_app, IH by done. done.
Qed.

Lemma delete_item_tried pattern acc item i n (st : State World) :
  0 ≤ retry_delay self →
  1 ≤ max_retries self →
  item_id item = Some i →
  item_name item = Some n →
  pattern_matches lib n pattern = true →
  ∃ reps st',
    delete_item lib execute self pattern acc item st =
    Some (Return (if is_accepted reps then acc ++ [n] else acc), st') ∧
    trace st' = trace st ++ backoff_trace self (FilesDelete i) 0 reps ∧
    retried reps.
Proof.
  intros Hd Hmax Hi Hn Hmatch.
  destruct (execute_with_retry_shape execute self (FilesDelete i) st Hd Hmax)
    as (fs & lst & st' & Hrun & Hfs & Ht).
  unfold delete_item, bind, try_except, lift. rewrite Hn, Hi. cbn [getitem ret].
  rewrite Hmatch. rewrite Hrun.
  exists (fs ++ [lst]), st'. unfold is_accepted. rewrite last_snoc.
  split_and!; [|done|by exists fs, lst].
  by destruct lst as [r|status reason].
Qed.

(** The loop of [delete_items]: the deletion of every selected entry is
    tried, in listing order, and the names returned are those of the
    entries whose deletion was accepted. *)
Lemma delete_loop_tried pattern items : ∀ acc (st : State World),
  0 ≤ retry_delay self →
  1 ≤ max_retries self →
  Forall (λ it, is_Some (item_id it) ∧ is_Some (item_name it)) items →
  ∃ tried st',
    for_each (delete_item lib execute self pattern) acc items st =
    Some (Return (acc ++ (accepted_entries (selected lib pattern items) tried).*2),
          st') ∧
    trace st' = trace st ++
      attempts self (map (λ p, FilesDelete p.1) (selected lib pattern items))
        tried ∧
    length tried = length (selected lib pattern items) ∧
    Forall retried tried.
Proof.
  induction items as [|item items IH]; intros acc st Hd Hmax Hwf.
  - exists [], st. cbn. rewrite !app_nil_r. split_and!; done.
  - inversion Hwf as [|? ? [[i Hi] [n Hn]] Hwf']; subst.
    cbn [for_each]. unfold bind at 1.
    unfold selected. cbn [omap list_omap]. rewrite Hi, Hn.
    fold (selected lib pattern items).
    destruct (pattern_matches lib n pattern) eqn:Hmatch.
    + destruct (delete_item_tried pattern acc item i n st Hd Hmax Hi Hn Hmatch)
        as (reps & st1 & -> & Ht1 & Hreps).
      destruct (IH (if is_accepted reps then acc ++ [n] else acc) st1 Hd Hmax Hwf')
        as (tried & st' & -> & Ht & Hlen & Hall).
      exists (reps :: tried), st'. split_and!.
      * rewrite accepted_entries_cons. destruct (is_accepted reps); [|done].
        cbn. by rewrite <- app_assoc.
      * rewrite Ht, Ht1. cbn [map]. rewrite attempts_cons. by rewrite app_assoc.
      * cbn. by rewrite Hlen.
      * by constructor.
    + assert (Hskip : delete_item lib execute self pattern acc item st =
                      Some (Return acc, st)).
      { unfold delete_item, bind, lift. rewrite Hn. cbn [getitem ret].
        by rewrite Hmatch. }
      rewrite Hskip.
      destruct (IH acc st Hd Hmax Hwf') as (tried & st' & -> & Ht & Hlen & Hall).
      by exists tried, st'.
Qed.

Lemma accepted_deletes_attempts (sel : list (string * string)) : ∀ tried,
  Forall retried tried →
  accepted_deletes (attempts self (map (λ p, FilesDelete p.1) sel) tried) =
  (accepted_entries sel tried).*1.
Proof.
  induction sel as [|p sel IH]; intros tried Hall; [done|].
  destruct tried as [|reps tried]; [done|].
  apply Forall_cons in Hall as [(fs & lst & -> & Hfs) Hall].
  cbn [map]. rewrite attempts_cons, accepted_entries_cons, accepted_deletes_app.
  rewrite accepted_deletes_backoff, IH by done.
  unfold is_accepted. rewrite last_snoc. by destruct lst.
Qed.

(** What a loop sends is what its turns send. *)
Lemma for_each_requests {A B : Type} (body : B → A → M World B)
    (P : A → Request → Prop) :
  (∀ acc x (st st' : State World) out,
     body acc x st = Some (out, st') →
     ∃ t, trace st' = trace st ++ t ∧ Forall (P x) (requests t)) →
  ∀ l acc (st st' : State World) out,
    for_each body acc l st = Some (out, st') →
    ∃ t, trace st' = trace st ++ t ∧
         Forall (λ r, ∃ x, x ∈ l ∧ P x r) (requests t).
Proof.
  intros Hbody. induction l as [|x l IH]; intros acc st st' out Hrun.
  - cbn in Hrun. unfold ret in Hrun. simplify_eq. exists [].
    by rewrite app_nil_r.
  - cbn [for_each] in Hrun. unfold bind in Hrun.
    destruct (body acc x st) as [[[acc1|e] st1]|] eqn:Hx; [| |done].
    + destruct (Hbody _ _ _ _ _ Hx) as (t1 & Ht1 & Hall1).
      destruct (IH _ _ _ _ Hrun) as (t & Ht & Hall).
      exists (t1 ++ t). split; [by rewrite Ht, Ht1, app_assoc|].
      rewrite requests_app. apply Forall_app. split.
      * eapply Forall_impl; [exact Hall1|]. intros r Hr. exists x.
        split; [left|done].
      * eapply Forall_impl; [exact Hall|]. intros r (y & Hy & Hr). exists y.
        split; [by right|done].
    + simplify_eq. destruct (Hbody _ _ _ _ _ Hx) as (t1 & Ht1 & Hall1).
      exists t1. split; [done|].
      eapply Forall_impl; [exact Hall1|]. intros r Hr. exists x.
      split; [left|done].
Qed.

Lemma rename_item_requests pattern prefix suffix acc item (st st' : State World) out :
  rename_item lib execute self pattern prefix suffix acc item st = Some (out, st') →
  ∃ t, trace st' = trace st ++ t ∧
       Forall (λ r, ∃ i n, item_id item = Some i ∧ item_name item = Some n ∧
                           pattern_matches lib n pattern = true ∧
                           r = FilesUpdate i (new_name_of lib prefix suffix n))
         (requests t).
Proof.
  unfold rename_item, bind, try_except, lift, ret, raise.
  destruct (item_name item) as [n|] eqn:Hn; cbn [getitem].
  2:{ unfold ret, raise. intros ?; simplify_eq. exists []. by rewrite app_nil_r. }
  destruct (pattern_matches lib n pattern) eqn:Hmatch.
  2:{ unfold ret, raise. intros ?; simplify_eq. exists []. by rewrite app_nil_r. }
  destruct (item_id item) as [i|] eqn:Hi; cbn [getitem is_HttpError].
  2:{ unfold ret, raise. intros ?; simplify_eq. exists []. by rewrite app_nil_r. }
  destruct (_execute_with_retry execute self
              (FilesUpdate i (new_name_of lib prefix suffix n)) st)
    as [[[r|e] st1]|] eqn:Hrun; [| |done].
  - intros ?; simplify_eq.
    destruct (execute_with_retry_requests _ _ _ _ Hrun) as (t & Ht & Hall).
    exists t. split; [done|]. eapply Forall_impl; [exact Hall|].
    intros r' ->. by exists i, n.
  - destruct (execute_with_retry_requests _ _ _ _ Hrun) as (t & Ht & Hall).
    intros Hout. exists t. split.
    + destruct (is_HttpError e); by simplify_eq.
    + eapply Forall_impl; [exact Hall|]. intros r' ->. by exists i, n.
Qed.

Lemma delete_item_requests pattern acc item (st st' : State World) out :
  delete_item lib execute self pattern acc item st = Some (out, st') →
  ∃ t, trace st' = trace st ++ t ∧
       Forall (λ r, ∃ i n, item_id item = Some i ∧ item_name item = Some n ∧
                           pattern_matches lib n pattern = true ∧
                           r = FilesDelete i)
         (requests t).
Proof.
  unfold delete_item, bind, try_except, lift, ret, raise.
  destruct (item_name item) as [n|] eqn:Hn; cbn [getitem].
  2:{ unfold ret, raise. intros ?; simplify_eq. exists []. by rewrite app_nil_r. }
  destruct (pattern_matches lib n pattern) eqn:Hmatch.
  2:{ unfold ret, raise. intros ?; simplify_eq. exists []. by rewrite app_nil_r. }
  destruct (item_id item) as [i|] eqn:Hi; cbn [getitem is_HttpError].
  2:{ unfold ret, raise. intros ?; simplify_eq. exists []. by rewrite app_nil_r. }
  destruct (_execute_with_retry execute self (FilesDelete i) st)
    as [[[r|e] st1]|] eqn:Hrun; [| |done].
  - intros ?; simplify_eq.
    destruct (execute_with_retry_requests _ _ _ _ Hrun) as (t & Ht & Hall).
    exists t. split; [done|]. eapply Forall_impl; [exact Hall|].
    intros r' ->. by exists i, n.
  - destruct (execute_with_retry_requests _ _ _ _ Hrun) as (t & Ht & Hall).
    intros Hout. exists t. split.
    + destruct (is_HttpError e); by simplify_eq.
    + eapply Forall_impl; [exact Hall|]. intros r' ->. by exists i, n.
Qed.
End PerEntry.

(** X4: once the folder is listed (entries with an id and a name),
    [delete_items] returns whatever the store answers to the deletions.
    The deletion of every selected entry is tried, in listing order, and
    nothing else is sent: what happens after the listing is, entry by
    entry, the attempts of its deletion with the sleeps of the backoff.
    The names returned are, in listing order, those of the selected entries
    whose deletion was accepted in the end. *)
Theorem delete_items_partial_success {World : Type} (lib : PyLib)
    (execute : Request → World → reply * World)
    (self : DriveManager) (fuel : nat) (folder_id pattern : string)
    (st st1 : State World) (items : list Item) :
  0 ≤ retry_delay self →
  list_folder_contents execute self fuel folder_id st = Some (Return items, st1) →
  Forall (λ it, is_Some (item_id it) ∧ is_Some (item_name it)) items →
  ∃ deleted st' t,
    delete_items lib execute self fuel folder_id pattern st =
    Some (Return deleted.*2, st') ∧
    trace st' = trace st1 ++ t ∧
    sublist deleted (selected lib pattern items) ∧
    accepted_deletes t = deleted.*1 ∧
    ∃ tried,
      length tried = length (selected lib pattern items) ∧
      Forall retried tried ∧
      t = attempts self (map (λ p, FilesDelete p.1) (selected lib pattern items))
            tried ∧
      deleted = accepted_entries (selected lib pattern items) tried.
Proof.
  intros Hd Hlist Hwf.
  pose proof (list_folder_contents_needs_retries _ _ _ _ _ _ _ Hlist) as Hmax.
  destruct (delete_loop_tried lib execute self pattern items [] st1 Hd Hmax Hwf)
    as (tried & st' & Hloop & Ht & Hlen & Hall).
  exists (accepted_entries (selected lib pattern items) tried), st'.
  eexists. split_and!; [|exact Ht| | |].
  - unfold delete_items, bind. by rewrite Hlist, Hloop.
  - apply accepted_entries_sublist.
  - by apply accepted_deletes_attempts.
  - by exists tried.
Qed.

Lemma delete_items_partial_success_witness :
  let listed := EvExecute (list_request example_manager "F" None)
                  (Ok (response_page two_tmps None)) in
  let refused := EvExecute (FilesDelete "9") (Failed 403 "Forbidden") in
  let accepted := EvExecute (FilesDelete "7") (Ok (response_id "7")) in
  delete_items ref_lib scripted example_manager 1 "F" "*.tmp"
    (initial refused_first_delete) =
  Some (Return ["y.tmp"]%string,
        {| world := []; trace := [listed; refused; accepted] |}) ∧
  ∃ deleted tried,
    deleted.*2 = ["y.tmp"]%string ∧
    sublist deleted [("9", "x.tmp"); ("7", "y.tmp")]%string ∧
    accepted_deletes [refused; accepted] = deleted.*1 ∧
    length tried = 2%nat ∧
    [refused; accepted] =
    attempts example_manager [FilesDelete "9"; FilesDelete "7"] tried ∧
    deleted = accepted_entries [("9", "x.tmp"); ("7", "y.tmp")]%string tried.
Proof.
  intros listed refused accepted.
  assert (Hc : delete_items ref_lib scripted example_manager 1 "F" "*.tmp"
                 (initial refused_first_delete) =
               Some (Return ["y.tmp"]%string,
                     {| world := []; trace := [listed; refused; accepted] |}))
    by reflexivity.
  split; [exact Hc|].
  destruct (delete_items_partial_success ref_lib scripted example_manager 1
              "F" "*.tmp" (initial refused_first_delete)
              {| world := [Failed 403 "Forbidden"; Ok (response_id "7")];
                 trace := [listed] |}
              two_tmps)
    as (deleted & st' & t & Hrun & Ht & Hsub & Hu &
        tried & Hlen & _ & Htried & Hdeleted).
  - cbn. lia.
  - reflexivity.
  - repeat constructor; eexists; reflexivity.
  - exists deleted, tried.
    rewrite Hc in Hrun. injection Hrun as Hnames <-.
    cbn [trace app] in Ht. injection Ht as <-.
    split; [by symmetry|]. split; [exact Hsub|]. split; [exact Hu|].
    split; [exact Hlen|]. split; [exact Htried|]. exact Hdeleted.
Defined.

(** X5: [batch_rename] and [delete_items] touch nothing but matches.  Every
    request they send after the listing, accepted or not, is an update
    (with the composed name) or a deletion of a listed entry whose name
    matches the pattern. *)
Theorem per_entry_requests_only_for_matches {World : Type} (lib : PyLib)
    (execute : Request → World → reply * World)
    (self : DriveManager) (fuel : nat) (folder_id pattern : string)
    (st st1 : State World) (items : list Item) :
  list_folder_contents execute self fuel folder_id st = Some (Return items, st1) →
  (∀ prefix suffix out st',
     truthy prefix || truthy suffix = true →
     batch_rename lib execute self fuel folder_id pattern prefix suffix st =
       Some (out, st') →
     ∃ t, trace st' = trace st1 ++ t ∧
          Forall (λ r, ∃ item i n,
                    item ∈ items ∧ item_id item = Some i ∧
                    item_name item = Some n ∧
                    pattern_matches lib n pattern = true ∧
                    r = FilesUpdate i (new_name_of lib prefix suffix n))
            (requests t)) ∧
  (∀ out st',
     delete_items lib execute self fuel folder_id pattern st = Some (out, st') →
     ∃ t, trace st' = trace st1 ++ t ∧
          Forall (λ r, ∃ item i n,
                    item ∈ items ∧ item_id item = Some i ∧
                    item_name item = Some n ∧
                    pattern_matches lib n pattern = true ∧
                    r = FilesDelete i)
            (requests t)).
Proof.
  intros Hlist. split.
  - intros prefix suffix out st' Haffix Hrun.
    assert (Hloop : for_each (rename_item lib execute self pattern prefix suffix)
                      [] items st1 = Some (out, st')).
    { unfold batch_rename in Hrun.
      destruct (truthy prefix), (truthy suffix); try done;
        cbn [negb andb] in Hrun; unfold bind in Hrun; by rewrite Hlist in Hrun. }
    destruct (for_each_requests _ _ (rename_item_requests lib execute self
                pattern prefix suffix) _ _ _ _ _ Hloop) as (t & Ht & Hall).
    exists t. split; [done|]. eapply Forall_impl; [exact Hall|].
    intros r (item & Hin & i & n & ?). by exists item, i, n.
  - intros out st' Hrun.
    assert (Hloop : for_each (delete_item lib execute self pattern)
                      [] items st1 = Some (out, st')).
    { unfold delete_items, bind in Hrun. by rewrite Hlist in Hrun. }
    destruct (for_each_requests _ _ (delete_item_requests lib execute self pattern)
                _ _ _ _ _ Hloop) as (t & Ht & Hall).
    exists t. split; [done|]. eapply Forall_impl; [exact Hall|].
    intros r (item & Hin & i & n & ?). by exists item, i, n.
Qed.

Lemma per_entry_requests_only_for_matches_witness :
  ∃ st' t,
    delete_items ref_lib scripted example_manager 1 "F" "*.tmp"
      (initial refused_delete) = Some (Return [], st') ∧
    trace st' = [EvExecute (list_request example_manager "F" None)
                   (Ok (response_page tmp_and_text None))] ++ t ∧
    Forall (λ r, ∃ item i n,
              item ∈ tmp_and_text ∧ item_id item = Some i ∧
              item_name item = Some n ∧
              pattern_matches ref_lib n "*.tmp" = true ∧
              r = FilesDelete i)
      (requests t).
Proof.
  destruct (per_entry_requests_only_for_matches ref_lib scripted example_manager 1
              "F" "*.tmp" (initial refused_delete)
              {| world := [Failed 403 "Forbidden"];
                 trace := [EvExecute (list_request example_manager "F" None)
                             (Ok (response_page tmp_and_text None))] |}
              tmp_and_text eq_refl) as (_ & Hdelete).
  destruct (Hdelete (Return [])
              {| world := [];
                 trace := [EvExecute (list_request example_manager "F" None)
                             (Ok (response_page tmp_and_text None));
                           EvExecute (FilesDelete "9") (Failed 403 "Forbidden")] |}
              eq_refl) as (t & Ht & Hall).
  eexists _, t. split; [reflexivity|]. split; [exact Ht|exact Hall].
Defined.

(** X6: on a folder where no name matches the pattern (for instance on a
    second run, after every match is gone), [delete_items] and
    [batch_rename] return the empty list and send nothing beyond the
    listing. *)
Theorem per_entry_loops_without_matches {World : Type} (lib : PyLib)
    (execute : Request → World → reply * World)
    (self : DriveManager) (fuel : nat) (folder_id pattern : string)
    (st st1 : State World) (items : list Item) :
  list_folder_contents execute self fuel folder_id st = Some (Return items, st1) →
  Forall (λ it, ∃ n, item_name it = Some n ∧
                     pattern_matches lib n pattern = false) items →
  delete_items lib execute self fuel folder_id pattern st = Some (Return [], st1) ∧
  ∀ prefix suffix,
    truthy prefix || truthy suffix = true →
    batch_rename lib execute self fuel folder_id pattern prefix suffix st =
    Some (Return [], st1).
Proof.
  intros Hlist Hnone. split.
  - unfold delete_items, bind. rewrite Hlist. clear Hlist.
    induction Hnone as [|item items (n & Hn & Hmatch) _ IH]; [done|].
    cbn [for_each]. unfold bind, delete_item at 1, bind, lift.
    rewrite Hn. cbn [getitem ret]. by rewrite Hmatch.
  - intros prefix suffix Haffix. unfold batch_rename.
    assert (Hloop : for_each (rename_item lib execute self pattern prefix suffix)
                      [] items st1 = Some (Return [], st1)).
    { clear Hlist. induction Hnone as [|item items (n & Hn & Hmatch) _ IH]; [done|].
      cbn [for_each]. unfold bind.
      by rewrite (rename_item_skip lib execute self pattern prefix suffix [] item n
                    st1 Hn Hmatch). }
    destruct (truthy prefix), (truthy suffix); try done;
      cbn [negb andb]; unfold bind; by rewrite Hlist, Hloop.
Qed.

Lemma per_entry_loops_without_matches_witness :
  delete_items ref_lib scripted example_manager 1 "F" "*.bak"
    (initial refused_delete) =
  Some (Return [],
        {| world := [Failed 403 "Forbidden"];
           trace := [EvExecute (list_request example_manager "F" None)
                       (Ok (response_page tmp_and_text None))] |}).
Proof.
  eapply (per_entry_loops_without_matches ref_lib scripted example_manager 1
            "F" "*.bak" (initial refused_delete) _ tmp_and_text).
  - reflexivity.
  - repeat constructor; eexists; split; reflexivity.
Defined.

(** ** Validation before the store is asked *)

(** X7: a rename needs a prefix or a suffix, and an empty string counts as
    none: [batch_rename] then raises [ValueError] before the folder is
    listed, and a [rename] command of a batch gets an error result while
    the store is not asked at all. *)
Theorem rename_without_affix_sends_nothing {World : Type} (lib : PyLib)
    (execute : Request → World → reply * World)
    (self : DriveManager) (fuel : nat) (st : State World)
    (prefix suffix : option string) :
  prefix = None ∨ prefix = Some ""%string →
  suffix = None ∨ suffix = Some ""%string →
  (∀ folder_id pattern,
     batch_rename lib execute self fuel folder_id pattern prefix suffix st =
     Some (Raise (ValueError "Either prefix or suffix must be specified"), st)) ∧
  (∀ command folder_id pattern,
     command !! "action"%string = Some "rename"%string →
     command !! "folder_id"%string = Some folder_id →
     command !! "target"%string = Some pattern →
     command !! "prefix"%string = prefix →
     command !! "suffix"%string = suffix →
     execute_batch_command lib execute self fuel command st =
     Some (Return {| res_action := Some "rename"%string; res_status := "error";
                     res_details := Some [];
                     res_error :=
                       Some "Either prefix or suffix must be specified"%string |},
           st)).
Proof.
  intros Hp Hs.
  assert (Hfalsy : truthy prefix = false ∧ truthy suffix = false)
    by (by destruct Hp as [->| ->], Hs as [->| ->]).
  destruct Hfalsy as [Hfp Hfs].
  assert (Hrename : ∀ folder_id pattern,
    batch_rename lib execute self fuel folder_id pattern prefix suffix st =
    Some (Raise (ValueError "Either prefix or suffix must be specified"), st)).
  { intros folder_id pattern. unfold batch_rename. by rewrite Hfp, Hfs. }
  split; [exact Hrename|].
  intros command folder_id pattern Haction Hfolder Htarget Hprefix Hsuffix.
  rewrite (execute_batch_command_catches lib execute self fuel command "rename" st)
    by done.
  unfold dispatch, bind, lift, getcmd. cbn [String.eqb Ascii.eqb Bool.eqb].
  rewrite Hfolder, Htarget. cbn [ret]. rewrite Hprefix, Hsuffix.
  by rewrite Hrename.
Qed.

Lemma rename_without_affix_sends_nothing_witness :
  execute_batch_command ref_lib scripted example_manager 1
    (command_of [("action", "rename"); ("folder_id", "F"); ("target", "*.txt");
                 ("prefix", "")]%string)
    (initial example_batch_replies) =
  Some (Return {| res_action := Some "rename"%string; res_status := "error";
                  res_details := Some [];
                  res_error :=
                    Some "Either prefix or suffix must be specified"%string |},
        initial example_batch_replies).
Proof.
  destruct (rename_without_affix_sends_nothing ref_lib scripted example_manager 1
              (initial example_batch_replies) (Some ""%string) None)
    as (_ & H); [by right|by left|].
  by apply (H _ "F"%string "*.txt"%string).
Defined.



(** ** Copies *)

(** X9: when the metadata of an item name another type than folder,
    [copy_drive_item] does what the single copy request does: it sends it
    with the destination and the new name (an empty string is sent as
    absent), returns the [id] of the reply, raises [KeyError] when the
    reply has none and the error of the request otherwise; no folder is
    created and nothing is listed, whatever the fuel. *)
Theorem copy_drive_item_of_a_file {World : Type}
    (execute : Request → World → reply * World)
    (self : DriveManager) (fuel : nat) (item_id : string)
    (destination new_name : option string) (st st1 st2 : State World)
    (metadata : Response) (mime : string) (out : outcome (option Response)) :
  get_file_metadata execute self item_id st = Some (Return (Some metadata), st1) →
  resp_mimeType metadata = Some mime →
  mime ≠ folder_mime →
  _execute_with_retry execute self
    (FilesCopy item_id (if_truthy destination) (if_truthy new_name)) st1 =
    Some (out, st2) →
  copy_drive_item execute self (S fuel) item_id destination new_name st =
  Some (copied_id out, st2).
Proof.
  intros Hmeta Hmime Hfile Hcopy. rewrite copy_drive_item_step.
  unfold try_except, bind at 1. rewrite Hmeta.
  unfold bind at 1, subscript. rewrite Hmime. cbn [getitem lift ret].
  destruct (String.eqb_spec mime folder_mime); [done|].
  unfold _copy_file, bind. rewrite Hcopy.
  destruct out as [[r|]|e]; cbn; [|done..].
  by destruct (resp_id r).
Qed.

Lemma copy_drive_item_of_a_file_witness :
  copy_drive_item scripted example_manager 1 "XYZ" (Some ""%string) None
    (initial [Ok (response_meta "XYZ" "doc.txt" "text/plain");
              Ok (response_page [] None)]) =
  Some (Raise (KeyError "id"),
        {| world := [];
           trace := [EvExecute (FilesGet "XYZ" metadata_fields)
                       (Ok (response_meta "XYZ" "doc.txt" "text/plain"));
                     EvExecute (FilesCopy "XYZ" None None)
                       (Ok (response_page [] None))] |}).
Proof.
  apply (copy_drive_item_of_a_file scripted example_manager 0 "XYZ"
           (Some ""%string) None _
           {| world := [Ok (response_page [] None)];
              trace := [EvExecute (FilesGet "XYZ" metadata_fields)
                          (Ok (response_meta "XYZ" "doc.txt" "text/plain"))] |}
           _ (response_meta "XYZ" "doc.txt" "text/plain") "text/plain"
           (Return (Some (response_page [] None))));
    [reflexivity|reflexivity|done|reflexivity].
Defined.

Section FanOut.
Context {World : Type}.
Variable execute : Request → World → reply * World.
Variable self : DriveManager.
Variable fuel : nat.
Variable source_file_id : string.

Lemma copy_to_folder_returns acc folder (st st' : State World) out :
  is_Some (item_name folder) →
  copy_to_folder execute self fuel source_file_id acc folder st = Some (out, st') →
  ∃ ids, out = Return (acc ++ ids) ∧ (length ids ≤ 1)%nat.
Proof.
  intros [n Hn]. unfold copy_to_folder, try_except, bind, lift, ret, raise.
  rewrite Hn. cbn [getitem].
  destruct (item_id folder) as [i|]; cbn [getitem any_Exception].
  2:{ intros ?; simplify_eq. exists []. split; [by rewrite app_nil_r|cbn; lia]. }
  destruct (copy_drive_item execute self fuel source_file_id (Some i) None st)
    as [[[copied|e] st1]|]; [| |done].
  - intros ?; simplify_eq. exists [copied]. split; [done|cbn; lia].
  - intros ?; simplify_eq. exists []. split; [by rewrite app_nil_r|cbn; lia].
Qed.

Lemma copy_to_folders_return folders : ∀ acc (st st' : State World) out,
  Forall (λ it, is_Some (item_name it)) folders →
  for_each (copy_to_folder execute self fuel source_file_id) acc folders st =
    Some (out, st') →
  ∃ ids, out = Return (acc ++ ids) ∧ (length ids ≤ length folders)%nat.
Proof.
  induction folders as [|folder folders IH]; intros acc st st' out Hwf Hrun.
  - cbn in Hrun. unfold ret in Hrun. simplify_eq. exists [].
    split; [by rewrite app_nil_r|cbn; lia].
  - inversion Hwf as [|? ? Hname Hwf']; subst.
    cbn [for_each] in Hrun. unfold bind in Hrun.
    destruct (copy_to_folder execute self fuel source_file_id acc folder st)
      as [[out1 st1]|] eqn:Hone; [|done].
    destruct (copy_to_folder_returns _ _ _ _ _ Hname Hone) as (ids1 & -> & Hlen1).
    destruct (IH _ _ _ _ Hwf' Hrun) as (ids & -> & Hlen).
    exists (ids1 ++ ids). split; [by rewrite app_assoc|].
    rewrite length_app. cbn [length]. lia.
Qed.
End FanOut.

(** X10: in [copy_to_subfolders] no failure of a copy escapes the loop.
    Once the subfolders are listed (entries with a name) and the metadata
    of the source have a name, a run that finishes returns a list of ids,
    at most one per subfolder; it never raises. *)
Theorem copy_to_subfolders_never_raises {World : Type}
    (execute : Request → World → reply * World)
    (self : DriveManager) (fuel : nat) (source_file_id folder_id : string)
    (st st1 st2 st' : State World) (listing : Response)
    (source_metadata : option Response) (name : string)
    (out : outcome (list string)) :
  _execute_with_retry execute self (subfolders_request folder_id) st =
    Some (Return (Some listing), st1) →
  get_file_metadata execute self source_file_id st1 =
    Some (Return source_metadata, st2) →
  subscript source_metadata "name" resp_name = Return name →
  Forall (λ it, is_Some (item_name it)) (default [] (resp_files listing)) →
  copy_to_subfolders execute self fuel source_file_id folder_id st =
    Some (out, st') →
  ∃ ids, out = Return ids ∧
         (length ids ≤ length (default [] (resp_files listing)))%nat.
Proof.
  intros Hlist Hmeta Hname Hwf Hrun.
  unfold copy_to_subfolders, bind at 1 in Hrun.
  fold (subfolders_request folder_id) in Hrun. rewrite Hlist in Hrun.
  unfold bind at 1 in Hrun. rewrite Hmeta in Hrun.
  unfold bind at 1 in Hrun. rewrite Hname in Hrun. cbn [lift ret] in Hrun.
  by apply (copy_to_folders_return execute self fuel source_file_id _ [] st2 st' out).
Qed.

Lemma copy_to_subfolders_never_raises_witness :
  ∃ st',
    copy_to_subfolders scripted example_manager 1 "XYZ" "F"
      (initial fan_out_replies) = Some (Return ["c2"%string], st') ∧
    world st' = [].
Proof.
  destruct (copy_to_subfolders scripted example_manager 1 "XYZ" "F"
              (initial fan_out_replies)) as [[out st']|] eqn:Hrun;
    [|by vm_compute in Hrun].
  destruct (copy_to_subfolders_never_raises scripted example_manager 1 "XYZ" "F"
      (initial fan_out_replies)
      {| world := drop 1 fan_out_replies;
         trace := [EvExecute (subfolders_request "F")
                     (Ok (response_page two_subfolders None))] |}
      {| world := drop 2 fan_out_replies;
         trace := [EvExecute (subfolders_request "F")
                     (Ok (response_page two_subfolders None));
                   EvExecute (FilesGet "XYZ" metadata_fields)
                     (Ok (response_meta "XYZ" "doc.txt" "text/plain"))] |}
      st' (response_page two_subfolders None)
      (Some (response_meta "XYZ" "doc.txt" "text/plain"))
      "doc.txt"%string out) as (ids & -> & _);
    [reflexivity|reflexivity|reflexivity
    |repeat constructor; eexists; reflexivity|exact Hrun|].
  vm_compute in Hrun. injection Hrun as -> <-. eexists. split; reflexivity.
Defined.

(** X11: a subfolder entry without a [name] aborts [copy_to_subfolders]:
    the [try] block and its handler both format [folder['name']], so the
    turn raises [KeyError] whether the copy into that subfolder succeeded
    or failed. *)
Theorem copy_to_folder_without_name {World : Type}
    (execute : Request → World → reply * World)
    (self : DriveManager) (fuel : nat) (source_file_id cid : string)
    (acc : list string) (folder : Item) (st st' : State World)
    (out : outcome string) (pre post : list Item) (acc0 : list string)
    (st0 : State World) :
  item_name folder = None →
  item_id folder = Some cid →
  copy_drive_item execute self fuel source_file_id (Some cid) None st =
    Some (out, st') →
  copy_to_folder execute self fuel source_file_id acc folder st =
    Some (Raise (KeyError "name"), st') ∧
  (for_each (copy_to_folder execute self fuel source_file_id) acc0 pre st0 =
     Some (Return acc, st) →
   for_each (copy_to_folder execute self fuel source_file_id) acc0
     (pre ++ folder :: post) st0 = Some (Raise (KeyError "name"), st')).
Proof.
  intros Hname Hid Hcopy.
  assert (Hturn : copy_to_folder execute self fuel source_file_id acc folder st =
                  Some (Raise (KeyError "name"), st')).
  { unfold copy_to_folder, try_except, bind, lift. rewrite Hid, Hname.
    cbn [getitem ret]. rewrite Hcopy. by destruct out. }
  split; [exact Hturn|].
  intros Hpre. by apply (for_each_raises _ pre folder post acc0 acc _ st0 st st').
Qed.

Lemma copy_to_folder_without_name_witness :
  copy_to_folder scripted example_manager 1 "XYZ" []
    {| item_id := Some "d1"%string; item_name := None; item_mimeType := None |}
    (initial [Ok (response_meta "XYZ" "doc.txt" "text/plain");
              Ok (response_id "c1")]) =
  Some (Raise (KeyError "name"),
        {| world := [];
           trace := [EvExecute (FilesGet "XYZ" metadata_fields)
                       (Ok (response_meta "XYZ" "doc.txt" "text/plain"));
                     EvExecute (FilesCopy "XYZ" (Some "d1"%string) None)
                       (Ok (response_id "c1"))] |}).
Proof.
  eapply (copy_to_folder_without_name scripted example_manager 1 "XYZ" "d1" []
            _ _ _ (Return "c1"%string) [] [] [] (initial []));
    reflexivity.
Defined.

(** ** Schedules *)

Lemma lower_digit c : is_digit c = true → lower c = c.
Proof. destruct c as [[] [] [] [] [] [] [] []]; by vm_compute. Qed.

Lemma lower_not_digit c : is_digit c = false → is_digit (lower c) = false.
Proof. destruct c as [[] [] [] [] [] [] [] []]; by vm_compute. Qed.

Lemma units_lookup c seconds :
  units !! String c EmptyString = Some seconds →
  one_of "smhdw" c = true ∧ is_digit c = false ∧ 0 < seconds.
Proof. destruct c as [[] [] [] [] [] [] [] []]; vm_compute; by intros ?; simplify_eq. Qed.

Lemma units_defined c :
  one_of "smhdw" c = true → is_Some (units !! String c EmptyString).
Proof. destruct c as [[] [] [] [] [] [] [] []]; vm_compute; by eauto. Qed.

Lemma span_digits ds : ∀ tail,
  Forall (λ c, is_digit c = true) ds →
  match tail with c :: _ => is_digit c = false | [] => True end →
  span is_digit (ds ++ tail) = (ds, tail).
Proof.
  induction ds as [|d ds IH]; intros tail Hds Htail.
  - destruct tail as [|c tail]; [done|]. cbn. by rewrite Htail.
  - inversion Hds as [|? ? Hd Hds']; subst. cbn. rewrite Hd.
    by rewrite (IH tail Hds' Htail).
Qed.

Lemma map_lower_digits ds :
  Forall (λ c, is_digit c = true) ds → map lower ds = ds.
Proof.
  induction 1 as [|d ds Hd _ IH]; [done|]. cbn. by rewrite IH, lower_digit.
Qed.

Lemma list_ascii_of_string_app s1 s2 :
  list_ascii_of_string (s1 +:+ s2) =
  list_ascii_of_string s1 ++ list_ascii_of_string s2.
Proof.
  induction s1 as [|c s1 IH]; [done|].
  change (String c s1 +:+ s2) with (String c (s1 +:+ s2)).
  change (list_ascii_of_string (String c (s1 +:+ s2)))
    with (c :: list_ascii_of_string (s1 +:+ s2)).
  by rewrite IH.
Qed.

Lemma string_of_list_ascii_app l1 l2 :
  string_of_list_ascii (l1 ++ l2) =
  string_of_list_ascii l1 +:+ string_of_list_ascii l2.
Proof.
  induction l1 as [|c l1 IH]; [done|].
  change (string_of_list_ascii ((c :: l1) ++ l2))
    with (String c (string_of_list_ascii (l1 ++ l2))).
  by rewrite IH.
Qed.

Lemma string_length_list s : String.length s = length (list_ascii_of_string s).
Proof. induction s as [|c s IH]; [done|]. cbn. by rewrite IH. Qed.

(** A run of digits followed by a unit, whatever comes next. *)
Lemma parse_schedule_digits ds u rest seconds :
  ds ≠ [] →
  Forall (λ c, is_digit c = true) ds →
  (length ds ≤ 4300)%nat →
  units !! String (lower u) EmptyString = Some seconds →
  parse_schedule (string_of_list_ascii ds +:+ String u rest) =
  Return (digits_value ds * seconds).
Proof.
  intros Hne Hds Hlen Hunit.
  destruct (units_lookup _ _ Hunit) as (Hone & Hnd & _).
  unfold parse_schedule. rewrite list_ascii_of_string_app,
    list_ascii_of_string_of_list_ascii, map_app, map_lower_digits by done.
  cbn [list_ascii_of_string map]. unfold match_schedule.
  rewrite span_digits by done.
  destruct ds as [|d ds]; [done|]. rewrite Hone.
  unfold int_of_digits, int_max_str_digits.
  destruct (Nat.ltb_spec 4300 (length (d :: ds))); [lia|].
  by rewrite Hunit.
Qed.

(** The decimal numeral of [n] reads back as [n]. *)
Lemma digits_value_acc d : ∀ acc : nat,
  fold_left (λ a c, 10 * a + Z.of_nat (nat_of_ascii c - 48))
    (list_ascii_of_string (NilEmpty.string_of_uint d)) (Z.of_nat acc) =
  Z.of_nat (Nat.of_uint_acc d acc).
Proof.
  induction d as [|d IH|d IH|d IH|d IH|d IH|d IH|d IH|d IH|d IH|d IH];
    intros acc; [done|..];
    cbn [NilEmpty.string_of_uint list_ascii_of_string fold_left Nat.of_uint_acc];
    rewrite Nat.tail_mul_spec, <- IH; f_equal;
    match goal with
    | |- context [Z.of_nat (nat_of_ascii ?c - 48)] =>
        let v := eval vm_compute in (Z.of_nat (nat_of_ascii c - 48)) in
        change (Z.of_nat (nat_of_ascii c - 48)) with v
    end; lia.
Qed.

Lemma digits_of_uint d :
  Forall (λ c, is_digit c = true)
    (list_ascii_of_string (NilEmpty.string_of_uint d)).
Proof. induction d; by constructor. Qed.

Lemma decimal_digits n :
  let ds := list_ascii_of_string (NilZero.string_of_uint (Nat.to_uint n)) in
  ds ≠ [] ∧ Forall (λ c, is_digit c = true) ds ∧ digits_value ds = Z.of_nat n.
Proof.
  cbn zeta. unfold NilZero.string_of_uint.
  pose proof (DecimalNat.Unsigned.of_to n) as Hn.
  destruct (Nat.to_uint n) as [|d|d|d|d|d|d|d|d|d|d] eqn:Hd.
  { split_and!; [done|by repeat constructor|]. by rewrite <- Hn. }
  all: split_and!; [done|apply digits_of_uint|];
    unfold digits_value; rewrite (digits_value_acc _ 0);
    fold (Nat.of_uint (Nat.to_uint n)) in *; by rewrite <- Hn, <- Hd.
Qed.

(** X12: [parse_schedule] reads a decimal number followed by a unit letter
    of either case and returns the number times the seconds of the unit
    ([s] 1, [m] 60, [h] 3600, [d] 86400, [w] 604800); whatever follows the
    unit letter is ignored, so ["1h30m"] is one hour. *)
Theorem parse_schedule_value (n : nat) (u : ascii) (rest : string) (seconds : Z) :
  units !! String (lower u) EmptyString = Some seconds →
  (String.length (NilZero.string_of_uint (Nat.to_uint n)) ≤ 4300)%nat →
  parse_schedule (NilZero.string_of_uint (Nat.to_uint n) +:+ String u rest) =
  Return (Z.of_nat n * seconds) ∧
  0 ≤ Z.of_nat n * seconds.
Proof.
  intros Hunit Hlen.
  destruct (decimal_digits n) as (Hne & Hds & Hval).
  destruct (units_lookup _ _ Hunit) as (_ & _ & Hpos).
  split; [|nia].
  rewrite <- (string_of_list_ascii_of_string
                (NilZero.string_of_uint (Nat.to_uint n))).
  rewrite (parse_schedule_digits _ u rest seconds Hne Hds); [by rewrite Hval| |done].
  by rewrite <- string_length_list.
Qed.

Lemma parse_schedule_value_witness :
  parse_schedule "90M and more" = Return 5400.
Proof.
  apply (parse_schedule_value 90 "M"%char " and more" 60); [reflexivity|].
  vm_compute. lia.
Defined.

(** X13: every other string is refused with the [ValueError] of the
    format: a string of digits alone (the empty string too), and a string
    whose digits, if any, are followed by a character that is neither a
    digit nor a unit letter. *)
Theorem parse_schedule_invalid (ds : list ascii) :
  Forall (λ c, is_digit c = true) ds →
  parse_schedule (string_of_list_ascii ds) =
    Raise (ValueError "Invalid schedule format. Use format like '1h', '1d', '1w'") ∧
  ∀ c rest,
    is_digit c = false →
    one_of "smhdw" (lower c) = false →
    parse_schedule (string_of_list_ascii ds +:+ String c rest) =
    Raise (ValueError "Invalid schedule format. Use format like '1h', '1d', '1w'").
Proof.
  intros Hds. split.
  - unfold parse_schedule, match_schedule.
    rewrite list_ascii_of_string_of_list_ascii, map_lower_digits by done.
    rewrite <- (app_nil_r ds), span_digits by done. by destruct ds.
  - intros c rest Hc Hunit. unfold parse_schedule, match_schedule.
    rewrite list_ascii_of_string_app, list_ascii_of_string_of_list_ascii,
      map_app, map_lower_digits by done.
    cbn [list_ascii_of_string map].
    rewrite span_digits; [|done|by apply lower_not_digit].
    rewrite Hunit. by destruct ds.
Qed.

Lemma parse_schedule_invalid_witness :
  parse_schedule "15" =
    Raise (ValueError "Invalid schedule format. Use format like '1h', '1d', '1w'") ∧
  parse_schedule "1.5h" =
    Raise (ValueError "Invalid schedule format. Use format like '1h', '1d', '1w'").
Proof.
  split.
  - apply (parse_schedule_invalid (list_ascii_of_string "15")). by repeat constructor.
  - apply (proj2 (parse_schedule_invalid (list_ascii_of_string "1")
                    ltac:(by repeat constructor)) "."%char "5h"%string);
      reflexivity.
Defined.

(** ** Names, extensions and types *)

Lemma rfind_app c s1 : ∀ s2 i found,
  rfind c (s1 ++ s2) i found =
  rfind c s2 (i + Z.of_nat (length s1)) (rfind c s1 i found).
Proof.
  induction s1 as [|x s1 IH]; intros s2 i found.
  - cbn. by rewrite Z.add_0_r.
  - cbn [app rfind length]. rewrite IH. f_equal. lia.
Qed.

Lemma rfind_absent c s : ∀ i found,
  Forall (λ x, Ascii.eqb x c = false) s → rfind c s i found = found.
Proof.
  induction s as [|x s IH]; intros i found Hs; [done|].
  inversion Hs as [|? ? Hx Hs']; subst. cbn. rewrite Hx. by apply IH.
Qed.

Lemma rfind_ge c s : ∀ i found, found ≤ i → found ≤ rfind c s i found.
Proof.
  induction s as [|x s IH]; intros i found Hle; cbn; [lia|].
  destruct (Ascii.eqb x c).
  - etrans; [|apply IH]; lia.
  - apply IH. lia.
Qed.

Lemma string_app_empty s : s +:+ "" = s.
Proof.
  induction s as [|c s IH]; [done|].
  change (String c s +:+ "") with (String c (s +:+ "")). by rewrite IH.
Qed.

(** [os.path.splitext] loses nothing: the stem and the extension make up
    the name. *)
Lemma ref_splitext_lossless p :
  (ref_splitext p).1 +:+ (ref_splitext p).2 = p.
Proof.
  unfold ref_splitext.
  destruct (_ && _); cbn [fst snd]; [|apply string_app_empty].
  rewrite <- string_of_list_ascii_app, take_drop.
  apply string_of_list_ascii_of_string.
Qed.

Lemma ref_splitext_dotted stem e :
  plain_stem stem → plain_ext e →
  ref_splitext (string_of_list_ascii (stem ++ "."%char :: e)) =
  (string_of_list_ascii stem, string_of_list_ascii ("."%char :: e)).
Proof.
  intros [Hslash Hnondot] [Heslash Hedot]. unfold ref_splitext.
  rewrite list_ascii_of_string_of_list_ascii.
  assert (Hsep : rfind "/" (stem ++ "."%char :: e) 0 (-1) = -1).
  { apply rfind_absent. apply Forall_app. split; [done|]. by constructor. }
  assert (Hdot : rfind "." (stem ++ "."%char :: e) 0 (-1) = Z.of_nat (length stem)).
  { rewrite rfind_app. cbn [rfind]. rewrite Ascii.eqb_refl.
    rewrite rfind_absent by done. lia. }
  rewrite Hsep, Hdot.
  replace (Z.to_nat (-1 + 1)) with 0%nat by lia. rewrite Nat2Z.id.
  rewrite take_app_length, drop_app_length, drop_0.
  destruct (Z.ltb_spec (-1) (Z.of_nat (length stem))); [|lia].
  assert (Hex : existsb (λ c, negb (Ascii.eqb c ".")) stem = true).
  { apply existsb_exists. apply Exists_exists in Hnondot as (x & Hx & Hne).
    exists x. split; [by apply list_elem_of_In|by rewrite Hne]. }
  by rewrite Hex.
Qed.

Lemma ref_splitext_no_dot s :
  Forall (λ x, Ascii.eqb x "." = false) s →
  ref_splitext (string_of_list_ascii s) = (string_of_list_ascii s, ""%string).
Proof.
  intros Hs. unfold ref_splitext. rewrite list_ascii_of_string_of_list_ascii.
  rewrite (rfind_absent "." s) by done.
  pose proof (rfind_ge "/" s 0 (-1) ltac:(lia)).
  by destruct (Z.ltb_spec (rfind "/" s 0 (-1)) (-1)); [lia|].
Qed.

Lemma ref_splitext_dotfile e :
  plain_ext e →
  ref_splitext (string_of_list_ascii ("."%char :: e)) =
  (string_of_list_ascii ("."%char :: e), ""%string).
Proof.
  intros [Heslash Hedot]. unfold ref_splitext.
  rewrite list_ascii_of_string_of_list_ascii.
  assert (Hsep : rfind "/" ("."%char :: e) 0 (-1) = -1)
    by (apply rfind_absent; by constructor).
  assert (Hdot : rfind "." ("."%char :: e) 0 (-1) = 0).
  { cbn [rfind]. rewrite Ascii.eqb_refl. by rewrite rfind_absent. }
  rewrite Hsep, Hdot. cbn. done.
Qed.

(** X14: [get_mime_type] looks the extension up in lower case: for a name
    [stem.e] the type is the entry of [.e] lower-cased, or
    [application/octet-stream] when there is none, so the case of the
    extension does not matter.  A name without a dot, and a name that is
    only a dot and an extension, such as [.txt], get
    [application/octet-stream]. *)
Theorem get_mime_type_by_extension :
  (∀ stem e,
     plain_stem stem → plain_ext e →
     get_mime_type ref_lib (string_of_list_ascii (stem ++ "."%char :: e)) =
     default "application/octet-stream"%string
       (extension_map !! string_of_list_ascii ("."%char :: map lower e))) ∧
  (∀ stem stem' e e',
     plain_stem stem → plain_ext e → plain_stem stem' → plain_ext e' →
     map lower e = map lower e' →
     get_mime_type ref_lib (string_of_list_ascii (stem ++ "."%char :: e)) =
     get_mime_type ref_lib (string_of_list_ascii (stem' ++ "."%char :: e'))) ∧
  (∀ s, Forall (λ x, Ascii.eqb x "." = false) s →
        get_mime_type ref_lib (string_of_list_ascii s) =
        "application/octet-stream"%string) ∧
  (∀ e, plain_ext e →
        get_mime_type ref_lib (string_of_list_ascii ("."%char :: e)) =
        "application/octet-stream"%string).
Proof.
  assert (Hdotted : ∀ stem e,
    plain_stem stem → plain_ext e →
    get_mime_type ref_lib (string_of_list_ascii (stem ++ "."%char :: e)) =
    default "application/octet-stream"%string
      (extension_map !! string_of_list_ascii ("."%char :: map lower e))).
  { intros stem e Hstem He. unfold get_mime_type. cbn [splitext ref_lib].
    rewrite ref_splitext_dotted by done. cbn [snd]. unfold str_lower.
    by rewrite list_ascii_of_string_of_list_ascii. }
  split_and!.
  - exact Hdotted.
  - intros stem stem' e e' Hstem He Hstem' He' Hlower.
    by rewrite !Hdotted, Hlower.
  - intros s Hs. unfold get_mime_type. cbn [splitext ref_lib].
    by rewrite ref_splitext_no_dot.
  - intros e He. unfold get_mime_type. cbn [splitext ref_lib].
    by rewrite ref_splitext_dotfile.
Qed.

Lemma get_mime_type_by_extension_witness :
  get_mime_type ref_lib "Holiday.JPG" = get_mime_type ref_lib "scan.jpg" ∧
  get_mime_type ref_lib "scan.jpg" = "image/jpeg"%string ∧
  get_mime_type ref_lib ".txt" = "application/octet-stream"%string.
Proof.
  destruct get_mime_type_by_extension as (Hdotted & Hcase & _ & Hdotfile).
  split_and!.
  - apply (Hcase (list_ascii_of_string "Holiday") (list_ascii_of_string "scan")
             (list_ascii_of_string "JPG") (list_ascii_of_string "jpg"));
      try (split; [by repeat constructor|]); try (by repeat constructor);
      try (apply Exists_cons_hd; reflexivity).
  - apply (Hdotted (list_ascii_of_string "scan") (list_ascii_of_string "jpg")).
    + split; [by repeat constructor|apply Exists_cons_hd; reflexivity].
    + split; by repeat constructor.
  - apply (Hdotfile (list_ascii_of_string "txt")). split; by repeat constructor.
Defined.

Lemma string_length_app s1 s2 :
  String.length (s1 +:+ s2) = (String.length s1 + String.length s2)%nat.
Proof.
  by rewrite !string_length_list, list_ascii_of_string_app, length_app.
Qed.

Lemma string_app_assoc s1 s2 s3 : (s1 +:+ s2) +:+ s3 = s1 +:+ s2 +:+ s3.
Proof.
  induction s1 as [|c s1 IH]; [done|].
  change ((String c s1 +:+ s2) +:+ s3) with (String c ((s1 +:+ s2) +:+ s3)).
  by rewrite IH.
Qed.

(** X15: the name that [batch_rename] composes keeps every character of
    the old name: its length is the sum of the lengths; with no suffix it
    is the prefix followed by the old name; and for a name [stem.e] it is
    [prefix stem suffix .e], whose extension is still [.e] when the prefix
    and the suffix hold no slash. *)
Theorem renamed_name_keeps_extension (prefix suffix : option string) :
  (∀ name,
     String.length (new_name_of ref_lib prefix suffix name) =
     (String.length (or_empty prefix) + String.length name +
      String.length (or_empty suffix))%nat) ∧
  (∀ name,
     truthy suffix = false →
     new_name_of ref_lib prefix suffix name = or_empty prefix +:+ name) ∧
  (∀ stem e,
     plain_stem stem → plain_ext e →
     new_name_of ref_lib prefix suffix (string_of_list_ascii (stem ++ "."%char :: e)) =
     or_empty prefix +:+ string_of_list_ascii stem +:+ or_empty suffix +:+
     string_of_list_ascii ("."%char :: e)) ∧
  (∀ stem e,
     plain_stem stem → plain_ext e →
     Forall (λ x, Ascii.eqb x "/" = false) (list_ascii_of_string (or_empty prefix)) →
     Forall (λ x, Ascii.eqb x "/" = false) (list_ascii_of_string (or_empty suffix)) →
     (ref_splitext (new_name_of ref_lib prefix suffix
                      (string_of_list_ascii (stem ++ "."%char :: e)))).2 =
     string_of_list_ascii ("."%char :: e)).
Proof.
  assert (Hdotted : ∀ stem e,
    plain_stem stem → plain_ext e →
    new_name_of ref_lib prefix suffix (string_of_list_ascii (stem ++ "."%char :: e)) =
    or_empty prefix +:+ string_of_list_ascii stem +:+ or_empty suffix +:+
    string_of_list_ascii ("."%char :: e)).
  { intros stem e Hstem He. unfold new_name_of. cbn [splitext ref_lib].
    by rewrite ref_splitext_dotted. }
  split_and!.
  - intros name. unfold new_name_of. cbn [splitext ref_lib].
    pose proof (ref_splitext_lossless name) as Hname.
    destruct (ref_splitext name) as [stem ext]. cbn [fst snd] in Hname.
    rewrite <- Hname, !string_length_app. lia.
  - intros name Hsuffix. unfold new_name_of. cbn [splitext ref_lib].
    pose proof (ref_splitext_lossless name) as Hname.
    destruct (ref_splitext name) as [stem ext]. cbn [fst snd] in Hname.
    unfold or_empty at 2. rewrite Hsuffix.
    change ("" +:+ ext) with ext. by rewrite Hname.
  - exact Hdotted.
  - intros stem e [Hslash Hnondot] He Hprefix Hsuffix. rewrite Hdotted by done.
    rewrite <- (string_of_list_ascii_of_string (or_empty prefix)),
      <- (string_of_list_ascii_of_string (or_empty suffix)).
    rewrite <- !string_of_list_ascii_app.
    rewrite !app_assoc.
    rewrite ref_splitext_dotted; [done| |done].
    split.
    + repeat (apply Forall_app; split); done.
    + apply Exists_app. left. apply Exists_app. by right.
Qed.

Lemma renamed_name_keeps_extension_witness :
  new_name_of ref_lib (Some "2024_"%string) (Some "_final"%string) "report.docx" =
    "2024_report_final.docx"%string ∧
  (ref_splitext "2024_report_final.docx").2 = ".docx"%string.
Proof.
  destruct (renamed_name_keeps_extension (Some "2024_"%string) (Some "_final"%string))
    as (_ & _ & Hname & Hext).
  assert (Hstem : plain_stem (list_ascii_of_string "report"))
    by (split; [by repeat constructor|apply Exists_cons_hd; reflexivity]).
  assert (He : plain_ext (list_ascii_of_string "docx"))
    by (split; by repeat constructor).
  split.
  - apply (Hname _ _ Hstem He).
  - exact (Hext _ _ Hstem He ltac:(by repeat constructor)
             ltac:(by repeat constructor)).
Defined.

Lemma prefix_slash r : String.prefix "/" (String "/" r) = true.
Proof. by destruct r. Qed.

Lemma prefix_slash_inv c p :
  String.prefix "/" (String c p) = true → c = "/"%char.
Proof. destruct c as [[] [] [] [] [] [] [] []], p; by vm_compute. Qed.

Lemma ref_splitext_absolute p :
  String.prefix "/" p = true → String.prefix "/" (ref_splitext p).1 = true.
Proof.
  intros Habs. destruct p as [|c p]; [done|].
  assert (c = "/"%char) as -> by (by eapply prefix_slash_inv).
  unfold ref_splitext. cbn [list_ascii_of_string].
  set (s := list_ascii_of_string p).
  destruct (_ && _) eqn:Hcond; cbn [fst]; [|apply prefix_slash].
  apply andb_true_iff in Hcond as [Hlt _]. apply Z.ltb_lt in Hlt.
  assert (0 ≤ rfind "/" ("/"%char :: s) 0 (-1)).
  { cbn [rfind]. rewrite Ascii.eqb_refl. apply rfind_ge. lia. }
  destruct (Z.to_nat (rfind "." ("/"%char :: s) 0 (-1))) as [|n] eqn:Hn; [lia|].
  cbn [take string_of_list_ascii]. apply prefix_slash.
Qed.

(** X16: for a name [stem.e] and a timestamp without slash,
    [generate_backup_path] joins the base directory and
    [stem_timestamp.e], a name whose extension is still [.e].  An original
    name that is absolute is not put under the base directory at all: the
    result starts with a slash and is the same for every base. *)
Theorem generate_backup_path_shape (timestamp base_path : string) :
  (∀ stem e,
     plain_stem stem → plain_ext e →
     Forall (λ x, Ascii.eqb x "/" = false) (list_ascii_of_string timestamp) →
     let backup_name :=
       string_of_list_ascii
         (stem ++ "_"%char :: list_ascii_of_string timestamp ++ "."%char :: e) in
     generate_backup_path ref_lib timestamp base_path
       (string_of_list_ascii (stem ++ "."%char :: e)) =
     posix_join base_path backup_name ∧
     ref_splitext backup_name =
     (string_of_list_ascii (stem ++ "_"%char :: list_ascii_of_string timestamp),
      string_of_list_ascii ("."%char :: e))) ∧
  (∀ original_name other_base,
     String.prefix "/" original_name = true →
     generate_backup_path ref_lib timestamp base_path original_name =
     generate_backup_path ref_lib timestamp other_base original_name ∧
     String.prefix "/"
       (generate_backup_path ref_lib timestamp base_path original_name) = true).
Proof.
  split.
  - intros stem e [Hslash Hnondot] He Hts backup_name. split.
    + unfold generate_backup_path. cbn [splitext ref_lib].
      rewrite ref_splitext_dotted by done. f_equal. unfold backup_name.
      rewrite string_of_list_ascii_app.
      change (string_of_list_ascii ("_"%char :: ?l)) with ("_" +:+ string_of_list_ascii l).
      by rewrite string_of_list_ascii_app, string_of_list_ascii_of_string.
    + unfold backup_name.
      replace (stem ++ "_"%char :: list_ascii_of_string timestamp ++ "."%char :: e)
        with ((stem ++ "_"%char :: list_ascii_of_string timestamp) ++ "."%char :: e)
        by (by rewrite <- app_assoc).
      apply ref_splitext_dotted; [|done]. split.
      * apply Forall_app. split; [done|]. by constructor.
      * apply Exists_app. by left.
  - intros original_name other_base Habs.
    pose proof (ref_splitext_absolute original_name Habs) as Hstem.
    unfold generate_backup_path. cbn [splitext ref_lib].
    destruct (ref_splitext original_name) as [filename ext]. cbn [fst] in Hstem.
    destruct filename as [|c filename]; [done|].
    assert (c = "/"%char) as -> by (by eapply prefix_slash_inv).
    unfold posix_join.
    change (String "/" filename +:+ ?r) with (String "/" (filename +:+ r)).
    by rewrite !prefix_slash.
Qed.

Lemma generate_backup_path_shape_witness :
  generate_backup_path ref_lib "20240101_120000" "backups" "report.docx" =
    "backups/report_20240101_120000.docx"%string ∧
  generate_backup_path ref_lib "20240101_120000" "backups" "/etc/passwd" =
    generate_backup_path ref_lib "20240101_120000" "elsewhere" "/etc/passwd".
Proof.
  destruct (generate_backup_path_shape "20240101_120000" "backups") as (Hplain & Habs).
  split.
  - destruct (Hplain (list_ascii_of_string "report") (list_ascii_of_string "docx"))
      as (Hpath & _); [| |by repeat constructor|exact Hpath].
    + split; [by repeat constructor|apply Exists_cons_hd; reflexivity].
    + split; by repeat constructor.
  - by apply Habs.
Defined.


(** ** Path validation *)

Lemma break_slash_free comp rest :
  slash_free comp →
  break (Ascii.eqb "/") (comp ++ "/"%char :: rest) = (comp, "/"%char :: rest).
Proof.
  unfold break. induction 1 as [|x comp Hx _ IH]; [done|].
  cbn [span app]. rewrite Hx. cbn [negb]. by rewrite IH.
Qed.

Lemma break_slash_free_all comp :
  slash_free comp → break (Ascii.eqb "/") comp = (comp, []).
Proof.
  unfold break. induction 1 as [|x comp Hx _ IH]; [done|].
  cbn [span app]. rewrite Hx. cbn [negb]. by rewrite IH.
Qed.

Lemma break_parts f s :
  s = (break f s).1 ++ (break f s).2 ∧
  Forall (λ x, f x = false) (break f s).1.
Proof.
  unfold break. induction s as [|x s [IH1 IH2]]; [by split|].
  cbn [span]. destruct (f x) eqn:Hx; cbn [negb fst snd app]; [by split|].
  destruct (span _ s) as [u v]. cbn [fst snd app] in *.
  split; [by f_equal|by constructor].
Qed.

Lemma split_on_slash_free fuel : ∀ s,
  (length s ≤ fuel)%nat → Forall slash_free (split_on fuel "/" s).
Proof.
  induction fuel as [|fuel IH]; intros s Hlen.
  - destruct s; [|cbn in Hlen; lia]. repeat constructor.
  - cbn [split_on]. destruct (break_parts (Ascii.eqb "/") s) as [Hs Hu].
    destruct (break (Ascii.eqb "/") s) as [u v]. cbn [fst snd] in *.
    destruct v as [|c v]; [by repeat constructor|].
    constructor; [done|]. apply IH. subst s. rewrite length_app in Hlen.
    cbn in Hlen. lia.
Qed.

Lemma split_join_path comps : ∀ fuel,
  comps ≠ [] → Forall slash_free comps →
  (length (join_path comps) ≤ fuel)%nat →
  split_on fuel "/" (join_path comps) = comps.
Proof.
  induction comps as [|comp comps IH]; intros fuel Hne Hfree Hfuel; [done|].
  apply Forall_cons in Hfree as [Hcomp Hfree].
  destruct comps as [|comp' comps].
  - cbn [join_path] in *. destruct fuel as [|fuel]; [done|].
    cbn [split_on]. by rewrite break_slash_free_all.
  - change (join_path (comp :: comp' :: comps))
      with (comp ++ "/"%char :: join_path (comp' :: comps)) in *.
    rewrite length_app in Hfuel. cbn [length] in Hfuel.
    destruct fuel as [|fuel]; [lia|].
    cbn [split_on]. rewrite break_slash_free by done.
    f_equal. apply IH; [done|done|lia].
Qed.

Lemma norm_comps_Forall (P : list ascii → Prop) b comps : ∀ stack,
  Forall P comps → Forall P stack → Forall P (norm_comps b comps stack).
Proof.
  induction comps as [|comp comps IH]; intros stack Hc Hs; [done|].
  apply Forall_cons in Hc as [Hcomp Hc]. cbn [norm_comps].
  destruct (_ || _); [by apply IH|].
  destruct (_ || _); apply IH; try done; [by constructor|].
  destruct Hs; [done|done].
Qed.

Lemma norm_comps_keeps_dotdot comps : ∀ stack,
  dotdot ∈ stack → dotdot ∈ norm_comps false comps stack.
Proof.
  induction comps as [|comp comps IH]; intros stack Hin; [done|].
  cbn [norm_comps]. destruct (_ || _); [by apply IH|].
  destruct (_ || _) eqn:Hpush; apply IH; [set_solver|].
  destruct stack as [|top stack]; [by apply elem_of_nil in Hin|].
  apply orb_false_iff in Hpush as [_ Htop]. unfold is_path in Htop.
  apply bool_decide_eq_false in Htop.
  apply elem_of_cons in Hin as [Heq|Hin]; [done|done].
Qed.

Lemma norm_comps_climbs comps : ∀ stack,
  Forall named stack →
  if climbs (length stack) comps
  then dotdot ∈ norm_comps false comps stack
  else Forall named (norm_comps false comps stack).
Proof.
  induction comps as [|comp comps IH]; intros stack Hstack; [done|].
  cbn [norm_comps climbs]. destruct (_ || _) eqn:Hskip; [by apply IH|].
  apply orb_false_iff in Hskip as [Hnil Hdot]. unfold is_path in *.
  apply bool_decide_eq_false in Hnil, Hdot.
  case_bool_decide as Hdd; cbn [negb orb].
  - subst comp. destruct stack as [|top stack].
    + cbn. apply norm_comps_keeps_dotdot. set_solver.
    + apply Forall_cons in Hstack as [Htop Hstack].
      rewrite bool_decide_eq_false_2 by done. cbn [andb orb].
      rewrite bool_decide_eq_false_2 by apply Htop.
      cbn [tl length]. by apply IH.
  - apply (IH (comp :: stack)). by constructor.
Qed.

Lemma prefix_slash_other c r :
  Ascii.eqb "/" c = false → String.prefix "/" (String c r) = false.
Proof. destruct c as [[] [] [] [] [] [] [] []], r; by vm_compute. Qed.

Lemma list_ascii_of_string_inv s : string_of_list_ascii (list_ascii_of_string s) = s.
Proof. apply string_of_list_ascii_of_string. Qed.

Lemma join_path_nil comps : join_path comps = [] → comps = [] ∨ comps = [[]].
Proof.
  destruct comps as [|comp [|comp' comps]]; cbn [join_path]; intros Hj.
  - by left.
  - right. by subst.
  - by destruct comp.
Qed.

Lemma join_path_head x comp comps :
  ∃ r, join_path ((x :: comp) :: comps) = x :: r.
Proof. destruct comps; eexists; reflexivity. Qed.

Lemma posix_normpath_nonempty c path :
  posix_normpath (String c path) =
  let p := String c path in
  let s := list_ascii_of_string p in
  let initial_slashes : nat :=
    if String.prefix "/" p then
      if String.prefix "//" p && negb (String.prefix "///" p)
      then 2%nat else 1%nat
    else 0%nat in
  let joined :=
    repeat "/"%char initial_slashes ++
    join_path (rev (norm_comps (negb (Nat.eqb initial_slashes 0))
                      (split_path s) [])) in
  match joined with
  | [] => "."%string
  | _ => string_of_list_ascii joined
  end.
Proof. reflexivity. Qed.

(** X17: [is_valid_path] accepts exactly the relative paths that never
    climb above the directory they start from: the path does not begin with
    a slash and, reading its components from the left with empty ones and
    [.] skipped, no [..] comes when every name before it is already undone.
    A [..] that only undoes an earlier name is accepted. *)
Theorem is_valid_path_no_escape (path : string) :
  is_valid_path path =
  negb (String.prefix "/" path) &&
  negb (climbs 0 (split_path (list_ascii_of_string path))).
Proof.
  unfold is_valid_path.
  destruct path as [|c path]; [done|].
  rewrite posix_normpath_nonempty. cbv zeta.
  set (p := String c path). set (s := list_ascii_of_string p).
  destruct (String.prefix "/" p) eqn:Habs.
  - cbn [negb andb].
    assert (∃ n, (if String.prefix "//" p && negb (String.prefix "///" p)
                    then 2%nat else 1%nat) = S n) as [n ->] by
      (destruct (_ && _); eauto).
    cbn [repeat app]. 
    case_bool_decide; [done|]. cbn [string_of_list_ascii].
    by rewrite prefix_slash.
  - cbn [negb andb Nat.eqb repeat app]. clearbody s.
    pose proof (norm_comps_climbs (split_path s) [] (Forall_nil_2 _)) as Hnorm.
    cbn [length] in Hnorm.
    pose proof (norm_comps_Forall slash_free false (split_path s) []
                  (split_on_slash_free _ _ (le_n _)) (Forall_nil_2 _)) as Hfree.
    set (stack := norm_comps false (split_path s) []) in *. clearbody stack.
    destruct (rev stack) as [|comp comps] eqn:Hrev.
    { apply (f_equal (@rev _)) in Hrev. rewrite rev_involutive in Hrev. cbn [rev] in Hrev.
      rewrite Hrev in Hnorm. destruct (climbs 0 (split_path s)); [|done].
      by apply elem_of_nil in Hnorm. }
    assert (Hjoin : split_path (join_path (comp :: comps)) = comp :: comps).
    { apply split_join_path; [done| |done].
      rewrite <- Hrev. by apply Forall_rev. }
    assert (Hmem : dotdot ∈ stack ↔ dotdot ∈ comp :: comps).
    { rewrite <- Hrev, !list_elem_of_In. apply in_rev. }
    destruct (climbs 0 (split_path s)); cbn [negb].
    + apply Hmem in Hnorm.
      destruct (join_path (comp :: comps)) as [|x r] eqn:Hj.
      { apply join_path_nil in Hj as [Hj|Hj]; [done|].
        rewrite Hj in Hnorm. by apply list_elem_of_singleton in Hnorm. }
      rewrite list_ascii_of_string_of_list_ascii, Hjoin.
      by rewrite bool_decide_eq_true_2.
    + rewrite <- (rev_involutive stack), Hrev in Hnorm, Hfree.
      apply Forall_rev in Hnorm, Hfree. rewrite rev_involutive in Hnorm, Hfree.
      pose proof (Forall_inv Hnorm) as (Hne & _ & _).
      destruct comp as [|x comp]; [done|].
      destruct (join_path_head x comp comps) as [r Hj].
      rewrite Hj, <- Hj, list_ascii_of_string_of_list_ascii, Hjoin.
      rewrite bool_decide_eq_false_2.
      2:{ intros Hin. eapply Forall_forall in Hnorm; [|done].
          by destruct Hnorm as (_ & _ & Hdd). }
      rewrite Hj. cbn [string_of_list_ascii].
      rewrite prefix_slash_other; [done|].
      by apply Forall_inv in Hfree; apply Forall_inv in Hfree.
Qed.


(** ** Credentials *)

Ltac auth_unfold :=
  cbv beta delta [Auth.get_credentials Auth.revoke_credentials
                  Auth.obtain_and_save Auth.keyring_get_password
                  Auth.pickle_loads Auth.bind Auth.ret Auth.raise
                  Auth.try_except Auth.try_finally Auth.call] in *;
  cbn [fst snd] in *.

Ltac auth_inv :=
  match goal with
  | H : (_, _) = (_, _) |- _ => injection H as [= ]
  | H : Auth.Done _ = Auth.Done _ |- _ => injection H as [= ]
  | H : Auth.Raised _ = Auth.Raised _ |- _ => injection H as [= ]
  | H : Auth.Done _ = Auth.Raised _ |- _ => discriminate H
  | H : Auth.Raised _ = Auth.Done _ |- _ => discriminate H
  end.

Ltac auth_cases :=
  repeat (first [auth_inv | case_match]; subst; cbn [fst snd negb] in * ).

Ltac absurd_elem H :=
  repeat (apply elem_of_cons in H as [H|H]; [discriminate H|]);
  by apply elem_of_nil in H.

Ltac auth_prefix :=
  first [ eexists [], _; split; reflexivity
        | eexists [_], _; split; reflexivity
        | eexists [_; _], _; split; reflexivity
        | eexists [_; _; _], _; split; reflexivity
        | eexists [_; _; _; _], _; split; reflexivity
        | eexists [_; _; _; _; _], _; split; reflexivity ].

(** X18: the credentials that [get_credentials] returns are either valid
    and just as [pickle.loads] gave them, with nothing written to the
    keyring and no flow run, or they are saved by the last two steps of
    the run: [pickle.dumps] of these credentials, and [set_password] of
    the very data that [dumps] returned, which succeeded and is the only
    write of the run. *)
Theorem get_credentials_saved_or_valid {World : Type} (env : Auth.Env World)
    (self : Auth.DriveAuth) (w w' : World) (tr tr' : list Auth.step)
    (c : Auth.Credentials) :
  Auth.get_credentials env self (w, tr) = (Auth.Done c, (w', tr')) →
  ∃ t, tr' = tr ++ t ∧
    ((Auth.valid c = true ∧ Auth.writes t = [] ∧ Auth.flows t = [] ∧
      ∃ data w1,
        t = [Auth.GetPassword (Auth.keyring_service self)
               (Auth.keyring_username self); Auth.Loads data] ∧
        Auth.loads env data w1 = (Auth.Done (Some c), w')) ∨
     ∃ t0 data w1 w2,
       t = t0 ++ [Auth.Dumps c;
                  Auth.SetPassword (Auth.keyring_service self)
                    (Auth.keyring_username self) data] ∧
       Auth.writes t0 = [] ∧
       Auth.dumps env c w1 = (Auth.Done data, w2) ∧
       Auth.set_password env (Auth.keyring_service self)
         (Auth.keyring_username self) data w2 = (Auth.Done tt, w')).
Proof.
  intros Hrun. auth_unfold. auth_cases.
  all: repeat match goal with u : unit |- _ => destruct u end.
  all: try discriminate.
  all: rewrite <- ?app_assoc; eexists; (split; [reflexivity|]).
  all: try (left; split; [done|]; split; [done|]; split; [done|];
            eexists _, _; split; [reflexivity|eassumption]).
  all: right; cbn [app].
  all: first [ eexists [], _, _, _; split; [reflexivity|]
             | eexists [_], _, _, _; split; [reflexivity|]
             | eexists [_; _], _, _, _; split; [reflexivity|]
             | eexists [_; _; _], _, _, _; split; [reflexivity|]
             | eexists [_; _; _; _], _, _, _; split; [reflexivity|]
             | eexists [_; _; _; _; _], _, _, _; split; [reflexivity|] ].
  all: split; [reflexivity|]; split; eassumption.
Qed.

Lemma get_credentials_saved_or_valid_witness :
  ∃ t, [Auth.GetPassword "gdrive_tool" "default"; Auth.Loads "old+";
        Auth.Refresh (Auth.unpickle "old+"); Auth.Dumps (Auth.unpickle "fresh+");
        Auth.SetPassword "gdrive_tool" "default" "fresh+"] = [] ++ t ∧
    ((Auth.valid (Auth.unpickle "fresh+") = true ∧ Auth.writes t = [] ∧
      Auth.flows t = [] ∧
      ∃ data w1,
        t = [Auth.GetPassword "gdrive_tool" "default"; Auth.Loads data] ∧
        Auth.loads Auth.memory data w1 =
        (Auth.Done (Some (Auth.unpickle "fresh+")), Some "fresh+"%string)) ∨
     ∃ t0 data w1 w2,
       t = t0 ++ [Auth.Dumps (Auth.unpickle "fresh+");
                  Auth.SetPassword "gdrive_tool" "default" data] ∧
       Auth.writes t0 = [] ∧
       Auth.dumps Auth.memory (Auth.unpickle "fresh+") w1 = (Auth.Done data, w2) ∧
       Auth.set_password Auth.memory "gdrive_tool" "default" data w2 =
       (Auth.Done tt, Some "fresh+"%string)).
Proof.
  exact (get_credentials_saved_or_valid Auth.memory Auth.example_auth
           (Some "old+") (Some "fresh+") [] _ (Auth.unpickle "fresh+") eq_refl).
Defined.

(** X19: stored credentials that cannot be refreshed (not expired, or
    without a refresh token) are never replaced, even when they are not
    valid: the flow is not run, the file of the client secrets is not
    looked for, and what is returned, if anything, is the stored object as
    it was unpickled; when it is not valid it is pickled again to be
    saved. *)
Theorem get_credentials_keeps_stored {World : Type} (env : Auth.Env World)
    (self : Auth.DriveAuth) (w w1 w2 w' : World) (tr tr' : list Auth.step)
    (tok : string) (c : Auth.Credentials) (r : Auth.result Auth.Credentials) :
  Auth.get_password env (Auth.keyring_service self)
    (Auth.keyring_username self) w = (Auth.Done (Some tok), w1) →
  tok ≠ "" →
  Auth.loads env tok w1 = (Auth.Done (Some c), w2) →
  (Auth.expired c && truthy (Auth.refresh_token c)) = false →
  Auth.get_credentials env self (w, tr) = (r, (w', tr')) →
  ∃ t, tr' = tr ++ t ∧ Auth.flows t = [] ∧
       (Auth.PathExists (Auth.credentials_file self) ∉ t) ∧
       (∀ c', r = Auth.Done c' → c' = c) ∧
       (Auth.valid c = false →
        ∃ t0, t = [Auth.GetPassword (Auth.keyring_service self)
                     (Auth.keyring_username self);
                   Auth.Loads tok; Auth.Dumps c] ++ t0).
Proof.
  intros Hget Htok Hloads Hrefresh Hrun.
  assert (Htruthy : truthy (Some tok) = true).
  { cbn. by destruct (String.eqb_spec tok ""). }
  auth_unfold. rewrite Hget in Hrun. cbn [fst snd] in Hrun.
  rewrite Htruthy in Hrun. cbn [default from_option id fst snd] in Hrun.
  rewrite Hloads in Hrun. cbn [fst snd] in Hrun. rewrite Hrefresh in Hrun.
  auth_cases.
  all: rewrite <- ?app_assoc; eexists; (split; [reflexivity|]); cbn [app].
  all: split; [reflexivity|].
  all: split; [intros Hin; absurd_elem Hin|].
  all: split; [by intros ? [= <-]|].
  all: intros; try congruence; by eexists.
Qed.

Lemma get_credentials_keeps_stored_witness :
  ∃ t, [Auth.GetPassword "gdrive_tool" "default"; Auth.Loads "old";
        Auth.Dumps (Auth.unpickle "old");
        Auth.SetPassword "gdrive_tool" "default" "old"] = [] ++ t ∧
       Auth.flows t = [] ∧
       (Auth.PathExists "credentials.json" ∉ t) ∧
       (∀ c', Auth.Done (Auth.unpickle "old") = Auth.Done c' →
              c' = Auth.unpickle "old") ∧
       (Auth.valid (Auth.unpickle "old") = false →
        ∃ t0, t = [Auth.GetPassword "gdrive_tool" "default";
                   Auth.Loads "old"; Auth.Dumps (Auth.unpickle "old")] ++ t0).
Proof.
  refine (get_credentials_keeps_stored Auth.memory Auth.example_auth
            (Some "old") (Some "old") (Some "old") (Some "old") [] _ "old"
            (Auth.unpickle "old") _ eq_refl _ eq_refl eq_refl eq_refl).
  discriminate.
Defined.

(** X20: without the file of the client secrets no flow is run, and a run
    that comes to look for the file, having no credentials, raises
    [FileNotFoundError] with nothing written to the keyring. *)
Theorem get_credentials_without_secrets_file {World : Type}
    (env : Auth.Env World) (self : Auth.DriveAuth) (w w' : World)
    (tr tr' : list Auth.step) (r : Auth.result Auth.Credentials) :
  (∀ w0, (Auth.path_exists env (Auth.credentials_file self) w0).1 = false) →
  Auth.get_credentials env self (w, tr) = (r, (w', tr')) →
  ∃ t, tr' = tr ++ t ∧ Auth.flows t = [] ∧
       (Auth.PathExists (Auth.credentials_file self) ∈ t →
        r = Auth.Raised
              (Auth.FileNotFoundError
                 ("Credentials file '" +:+ Auth.credentials_file self +:+
                  "' not found. Please download it from Google Cloud Console."))
        ∧ Auth.writes t = []).
Proof.
  intros Hmissing Hrun. auth_unfold. auth_cases.
  all: try match goal with
       | H : Auth.path_exists _ _ ?w0 = (?found, _), Hn : negb ?found = false
         |- _ =>
           specialize (Hmissing w0); rewrite H in Hmissing;
           cbn [fst] in Hmissing; subst found; discriminate
       end.
  all: rewrite <- ?app_assoc; eexists; (split; [reflexivity|]); cbn [app].
  all: split; [reflexivity|].
  all: intros Hin; try (split; reflexivity).
  all: absurd_elem Hin.
Qed.

Lemma get_credentials_without_secrets_file_witness :
  ∃ t, [Auth.GetPassword "gdrive_tool" "default";
        Auth.PathExists "client.json"] = [] ++ t ∧ Auth.flows t = [] ∧
       (Auth.PathExists "client.json" ∈ t →
        @Auth.Raised Auth.Credentials
          (Auth.FileNotFoundError
             "Credentials file 'client.json' not found. Please download it from Google Cloud Console.") =
        Auth.Raised
          (Auth.FileNotFoundError
             ("Credentials file '" +:+ "client.json" +:+
              "' not found. Please download it from Google Cloud Console."))
        ∧ Auth.writes t = []).
Proof.
  refine (get_credentials_without_secrets_file Auth.memory
            {| Auth.credentials_file := "client.json";
               Auth.scopes := [];
               Auth.keyring_service := "gdrive_tool";
               Auth.keyring_username := "default" |}
            None None [] _ _ _ eq_refl).
  intros w0. reflexivity.
Defined.

(** X21: once a token is stored, [revoke_credentials] ends by deleting it
    from the keyring, exactly once and as its last step, whatever
    unpickling and revoking did, and its outcome is that of the deletion;
    with no token stored it does nothing more. *)
Theorem revoke_credentials_always_deletes {World : Type}
    (env : Auth.Env World) (self : Auth.DriveAuth) (w w1 w' : World)
    (tr tr' : list Auth.step) (stored : option string)
    (r : Auth.result unit) :
  Auth.get_password env (Auth.keyring_service self)
    (Auth.keyring_username self) w = (Auth.Done stored, w1) →
  Auth.revoke_credentials env self (w, tr) = (r, (w', tr')) →
  if truthy stored then
    ∃ t0 w2 r',
      tr' = tr ++ Auth.GetPassword (Auth.keyring_service self)
                    (Auth.keyring_username self) :: t0 ++
                  [Auth.DeletePassword (Auth.keyring_service self)
                     (Auth.keyring_username self)] ∧
      (Auth.DeletePassword (Auth.keyring_service self)
         (Auth.keyring_username self) ∉ t0) ∧
      Auth.delete_password env (Auth.keyring_service self)
        (Auth.keyring_username self) w2 = (r', w') ∧
      r = match r' with Auth.Done _ => Auth.Done tt | Auth.Raised e => Auth.Raised e end
  else
    r = Auth.Done tt ∧ w' = w1 ∧
    tr' = tr ++ [Auth.GetPassword (Auth.keyring_service self)
                   (Auth.keyring_username self)].
Proof.
  intros Hget Hrun. auth_unfold. rewrite Hget in Hrun. cbn [fst snd] in Hrun.
  destruct (truthy stored); [|by simplify_eq].
  auth_cases.
  all: rewrite <- ?app_assoc; cbn [app].
  all: repeat match goal with u : unit |- _ => destruct u end.
  all: first [ eexists [_; _], _, _; split; [reflexivity|]
             | eexists [_], _, _; split; [reflexivity|] ].
  all: split; [intros Hin; absurd_elem Hin|]; split; [eassumption|].
  all: try reflexivity.
Qed.

Lemma revoke_credentials_always_deletes_witness :
  ∃ t0 w2 r',
    [Auth.GetPassword "gdrive_tool" "default"; Auth.Loads "tok";
     Auth.Revoke (Auth.unpickle "tok");
     Auth.DeletePassword "gdrive_tool" "default"] =
    [] ++ Auth.GetPassword "gdrive_tool" "default" :: t0 ++
          [Auth.DeletePassword "gdrive_tool" "default"] ∧
    (Auth.DeletePassword "gdrive_tool" "default" ∉ t0) ∧
    Auth.delete_password Auth.memory "gdrive_tool" "default" w2 = (r', None) ∧
    Auth.Done tt =
    match r' with Auth.Done _ => Auth.Done tt | Auth.Raised e => Auth.Raised e end.
Proof.
  exact (revoke_credentials_always_deletes Auth.memory Auth.example_auth
           (Some "tok") (Some "tok") None [] _ (Some "tok") _ eq_refl eq_refl).
Defined.
